(** * gowaybackgo: the fetch / filter / dedup pipeline, embedded in Rocq

    The development follows the Go sources: [main.go] (pattern
    normalisation), [config.go] (configuration and base-domain derivation)
    and the runner (page-count resolution, bounded retry, the page fetcher
    pool, the line processor and the de-duplicating printers).  The
    goroutines of [Run] are modelled by transition systems: the fetcher
    pool alone, the pool with the workers, and the whole program with the
    capacities of its channels and the printer; [processConcurrently] of
    the older [main.go] is modelled the same way.

    Go strings are byte strings; they are modelled by [string], whose
    characters are the bytes.  The functions of Go's standard library that
    the program calls are modelled in the modules [GoStrings], [GoStrconv]
    and [NetURL]. *)

From Stdlib Require Import ZArith NArith Ascii String List Lia Bool.
From stdpp Require Import base decidable option list gmap strings.

Local Open Scope Z_scope.

(* ===================================================================== *)
(** * Part I: definitions *)
(* ===================================================================== *)

(** ** Package [strings] *)
Module GoStrings.

Definition byte (c : ascii) : N := N_of_ascii c.

(** [s[n:]] *)
Fixpoint sliceFrom (n : nat) (s : string) : string :=
  match n, s with
  | O, _ => s
  | S _, EmptyString => EmptyString
  | S k, String _ s' => sliceFrom k s'
  end.

(** [s[:n]] *)
Fixpoint sliceTo (n : nat) (s : string) : string :=
  match n, s with
  | O, _ => EmptyString
  | S _, EmptyString => EmptyString
  | S k, String a s' => String a (sliceTo k s')
  end.

Fixpoint HasPrefix (s prefix : string) : bool :=
  match prefix, s with
  | EmptyString, _ => true
  | String _ _, EmptyString => false
  | String b p', String a s' => Ascii.eqb a b && HasPrefix s' p'
  end.

Definition HasSuffix (s suffix : string) : bool :=
  (String.length suffix <=? String.length s)%nat
  && String.eqb (sliceFrom (String.length s - String.length suffix) s) suffix.

Definition TrimPrefix (s prefix : string) : string :=
  if HasPrefix s prefix then sliceFrom (String.length prefix) s else s.

Definition TrimSuffix (s suffix : string) : string :=
  if HasSuffix s suffix
  then sliceTo (String.length s - String.length suffix) s else s.

(** [Index] returns the byte offset of the first occurrence, or -1. *)
Fixpoint index_from (i : Z) (s substr : string) : Z :=
  if HasPrefix s substr then i
  else match s with
       | EmptyString => -1
       | String _ s' => index_from (i + 1) s' substr
       end.

Definition Index (s substr : string) : Z := index_from 0 s substr.

Definition Contains (s substr : string) : bool := 0 <=? Index s substr.

Fixpoint inBytes (c : ascii) (chars : string) : bool :=
  match chars with
  | EmptyString => false
  | String b chars' => Ascii.eqb c b || inBytes c chars'
  end.

(** [IndexAny] for a set of ASCII characters: the first byte of [s] that
    occurs in [chars], or -1. *)
Fixpoint indexAny_from (i : Z) (s chars : string) : Z :=
  match s with
  | EmptyString => -1
  | String a s' =>
      if inBytes a chars then i else indexAny_from (i + 1) s' chars
  end.

Definition IndexAny (s chars : string) : Z := indexAny_from 0 s chars.

(** [ReplaceAll] for a non-empty [old]; [skip] counts the bytes of a
    match that are still to be passed over. *)
Fixpoint replace_go (skip : nat) (s old new : string) : string :=
  match s with
  | EmptyString => EmptyString
  | String a s' =>
      match skip with
      | S k => replace_go k s' old new
      | O =>
          if HasPrefix s old
          then new +:+ replace_go (String.length old - 1) s' old new
          else String a (replace_go O s' old new)
      end
  end.

Definition ReplaceAll (s old new : string) : string := replace_go O s old new.

(** [Trim], [TrimLeft], [TrimRight] for a cutset of ASCII characters. *)
Fixpoint TrimLeft (s cutset : string) : string :=
  match s with
  | EmptyString => EmptyString
  | String a s' => if inBytes a cutset then TrimLeft s' cutset else s
  end.

Fixpoint TrimRight (s cutset : string) : string :=
  match s with
  | EmptyString => EmptyString
  | String a s' =>
      match TrimRight s' cutset with
      | EmptyString => if inBytes a cutset then EmptyString else String a EmptyString
      | t => String a t
      end
  end.

Definition Trim (s cutset : string) : string :=
  TrimRight (TrimLeft s cutset) cutset.

(** White space as [unicode.IsSpace] sees it, on the UTF-8 encoding:
    the six ASCII spaces, U+0085 and U+00A0 (two bytes), and U+1680,
    U+2000..U+200A, U+2028, U+2029, U+202F, U+205F and U+3000 (three
    bytes). *)
Definition asciiSpace (a : ascii) : bool :=
  let b := byte a in
  ((9 <=? b) && (b <=? 13) || (b =? 32))%N.

Definition space2 (a b : ascii) : bool :=
  ((byte a =? 194) && ((byte b =? 133) || (byte b =? 160)))%N.

Definition space3 (a b c : ascii) : bool :=
  (  (byte a =? 225) && (byte b =? 154) && (byte c =? 128)
  || (byte a =? 226) && (byte b =? 128)
       && ((128 <=? byte c) && (byte c <=? 138)
           || (byte c =? 168) || (byte c =? 169) || (byte c =? 175))
  || (byte a =? 226) && (byte b =? 129) && (byte c =? 159)
  || (byte a =? 227) && (byte b =? 128) && (byte c =? 128))%N.

(** The whole string is the encoding of one white-space rune. *)
Definition isSpaceRune (s : string) : bool :=
  match s with
  | String a EmptyString => asciiSpace a
  | String a (String b EmptyString) => space2 a b
  | String a (String b (String c EmptyString)) => space3 a b c
  | _ => false
  end.

Fixpoint trimLeftSpace (s : string) : string :=
  match s with
  | EmptyString => EmptyString
  | String a t =>
      if asciiSpace a then trimLeftSpace t
      else match t with
           | EmptyString => s
           | String b t2 =>
               if space2 a b then trimLeftSpace t2
               else match t2 with
                    | EmptyString => s
                    | String c t3 =>
                        if space3 a b c then trimLeftSpace t3 else s
                    end
           end
  end.

(** Trailing white space: the last rune is removed as long as it is a
    space.  Going from the left, the trimmed tail is known first; the
    byte before it stays unless it completes a white-space rune that is
    all that is left. *)
Fixpoint trimRightSpace (s : string) : string :=
  match s with
  | EmptyString => EmptyString
  | String a s' =>
      let t := String a (trimRightSpace s') in
      if isSpaceRune t then EmptyString else t
  end.

Definition TrimSpace (s : string) : string :=
  trimRightSpace (trimLeftSpace s).

(** [ToLower]: Go lowers ASCII-only strings byte by byte and sends every
    other string through [Map(unicode.ToLower, s)], which depends on the
    Unicode case tables; that mapping is the parameter [mapLower] of the
    class [CaseTables]. *)
Definition isUpper (a : ascii) : bool := ((65 <=? byte a) && (byte a <=? 90))%N.

Definition lowerByte (a : ascii) : ascii :=
  if isUpper a then ascii_of_N (byte a + 32) else a.

Fixpoint isASCII (s : string) : bool :=
  match s with
  | EmptyString => true
  | String a s' => (byte a <? 128)%N && isASCII s'
  end.

Fixpoint lowerASCII (s : string) : string :=
  match s with
  | EmptyString => EmptyString
  | String a s' => String (lowerByte a) (lowerASCII s')
  end.

Class CaseTables := mapLower : string -> string.

Definition ToLower `{CaseTables} (s : string) : string :=
  if isASCII s then lowerASCII s else mapLower s.

(** [FieldsFunc] for a predicate on ASCII separators: the maximal runs of
    non-separator bytes, in order; never an empty field. *)
Definition flush (cur : string) : list string :=
  match cur with EmptyString => [] | _ => [cur] end.

Fixpoint fields_go (f : ascii -> bool) (cur s : string) : list string :=
  match s with
  | EmptyString => flush cur
  | String a s' =>
      if f a then flush cur ++ fields_go f EmptyString s'
      else fields_go f (cur +:+ String a EmptyString) s'
  end.

Definition FieldsFunc (s : string) (f : ascii -> bool) : list string :=
  fields_go f EmptyString s.

(** [Split] for a non-empty separator. *)
Fixpoint split_go (sep : string) (skip : nat) (cur s : string) : list string :=
  match s with
  | EmptyString => [cur]
  | String a s' =>
      match skip with
      | S k => split_go sep k cur s'
      | O =>
          if HasPrefix s sep
          then cur :: split_go sep (String.length sep - 1) EmptyString s'
          else split_go sep O (cur +:+ String a EmptyString) s'
      end
  end.

Definition Split (s sep : string) : list string := split_go sep O EmptyString s.

(** [strings.Cut]: before, after, found. *)
Definition Cut (s sep : string) : string * string * bool :=
  let i := Index s sep in
  if 0 <=? i
  then (sliceTo (Z.to_nat i) s, sliceFrom (Z.to_nat i + String.length sep) s, true)
  else (s, EmptyString, false).

Fixpoint count_byte (c : ascii) (s : string) : nat :=
  match s with
  | EmptyString => O
  | String a s' => ((if Ascii.eqb a c then 1 else 0) + count_byte c s')%nat
  end.

Fixpoint lastIndex_go (i : Z) (last : Z) (s : string) (c : ascii) : Z :=
  match s with
  | EmptyString => last
  | String a s' => lastIndex_go (i + 1) (if Ascii.eqb a c then i else last) s' c
  end.

(** [LastIndex] for a one-byte needle. *)
Definition LastIndexByte (s : string) (c : ascii) : Z := lastIndex_go 0 (-1) s c.

End GoStrings.

(** ** Package [strconv] *)
Module GoStrconv.
Import GoStrings.

(** [int] is 64 bits wide on the platforms the tool is built for. *)
Definition intSize : Z := 64.
Definition maxInt : Z := 2 ^ (intSize - 1) - 1.
Definition minInt : Z := - 2 ^ (intSize - 1).

Definition isDigit (a : ascii) : bool := ((48 <=? byte a) && (byte a <=? 57))%N.

Fixpoint parseDigits (acc : Z) (s : string) : option Z :=
  match s with
  | EmptyString => Some acc
  | String a s' =>
      if isDigit a
      then parseDigits (10 * acc + (Z.of_N (byte a) - 48)) s'
      else None
  end.

(** [Atoi]: an optional sign, then one or more decimal digits; [None]
    stands for Go's error (bad syntax or a value out of the range of
    [int]). *)
Definition Atoi (s : string) : option Z :=
  match s with
  | EmptyString => None
  | String c rest =>
      let '(neg, ds) :=
        if Ascii.eqb c "-" then (true, rest)
        else if Ascii.eqb c "+" then (false, rest)
        else (false, s) in
      match ds with
      | EmptyString => None
      | _ =>
          match parseDigits 0 ds with
          | None => None
          | Some n =>
              let v := if neg then - n else n in
              if (minInt <=? v) && (v <=? maxInt) then Some v else None
          end
      end
  end.
End GoStrconv.

(** ** Package [net/url]

    The parser and the serialiser of the standard library (as of Go 1.21),
    on byte strings: [Parse], [URL.String] and [QueryUnescape], with the
    helpers they go through. *)
Module NetURL.
Import GoStrings.

Inductive encoding :=
| encodePath | encodePathSegment | encodeHost | encodeZone
| encodeUserPassword | encodeQueryComponent | encodeFragment.

Definition encoding_eqb (a b : encoding) : bool :=
  match a, b with
  | encodePath, encodePath | encodePathSegment, encodePathSegment
  | encodeHost, encodeHost | encodeZone, encodeZone
  | encodeUserPassword, encodeUserPassword
  | encodeQueryComponent, encodeQueryComponent
  | encodeFragment, encodeFragment => true
  | _, _ => false
  end.

Record Userinfo := {
  username : string;
  password : string;
  passwordSet : bool
}.

Record URL := {
  Scheme : string;
  Opaque : string;
  User : option Userinfo;
  Host : string;
  Path : string;
  RawPath : string;
  OmitHost : bool;
  ForceQuery : bool;
  RawQuery : string;
  Fragment : string;
  RawFragment : string
}.

Definition isAlpha (c : ascii) : bool :=
  ((97 <=? byte c) && (byte c <=? 122) || (65 <=? byte c) && (byte c <=? 90))%N.

Definition isDigit (c : ascii) : bool := ((48 <=? byte c) && (byte c <=? 57))%N.

Definition ishex (c : ascii) : bool :=
  (isDigit c || (97 <=? byte c) && (byte c <=? 102)
   || (65 <=? byte c) && (byte c <=? 70))%N.

Definition unhex (c : ascii) : N :=
  (if isDigit c then byte c - 48
   else if (97 <=? byte c) && (byte c <=? 102) then byte c - 97 + 10
   else if (65 <=? byte c) && (byte c <=? 70) then byte c - 65 + 10
   else 0)%N.

Definition isHostMode (mode : encoding) : bool :=
  match mode with encodeHost | encodeZone => true | _ => false end.

(** [shouldEscape]: must byte [c] be escaped in the given part of a URL? *)
Definition shouldEscape (c : ascii) (mode : encoding) : bool :=
  if isAlpha c || isDigit c then false
  else if isHostMode mode && (inBytes c "!$&'()*+,;=:[]<>" || (byte c =? 34)%N) then false
  else if inBytes c "-_.~" then false
  else if inBytes c "$&+,/:;=?@" then
    match mode with
    | encodePath => Ascii.eqb c "?"
    | encodePathSegment => inBytes c "/;,?"
    | encodeUserPassword => inBytes c "@/?:"
    | encodeQueryComponent => true
    | encodeFragment => false
    | _ => true
    end
  else if encoding_eqb mode encodeFragment && inBytes c "!()*" then false
  else true.

Definition hexDigit (n : N) : ascii :=
  ascii_of_N (if n <? 10 then 48 + n else 65 + (n - 10))%N.

Fixpoint escape (s : string) (mode : encoding) : string :=
  match s with
  | EmptyString => EmptyString
  | String c s' =>
      if shouldEscape c mode then
        if Ascii.eqb c " " && encoding_eqb mode encodeQueryComponent
        then String "+" (escape s' mode)
        else String "%" (String (hexDigit (byte c / 16))
               (String (hexDigit (byte c mod 16)) (escape s' mode)))
      else String c (escape s' mode)
  end.

Definition unhex2 (h1 h2 : ascii) : ascii := ascii_of_N (unhex h1 * 16 + unhex h2).

(** First pass of [unescape]: every [%] starts a well-formed escape that
    the mode admits, and a host holds no ASCII byte that would need one. *)
Fixpoint escapesOK (s : string) (mode : encoding) : bool :=
  match s with
  | EmptyString => true
  | String a t =>
      if Ascii.eqb a "%" then
        match t with
        | String h1 (String h2 t2) =>
            if negb (ishex h1 && ishex h2) then false
            else if encoding_eqb mode encodeHost && (unhex h1 <? 8)%N
                    && negb (Ascii.eqb h1 "2" && Ascii.eqb h2 "5") then false
            else if encoding_eqb mode encodeZone
                    && negb (Ascii.eqb h1 "2" && Ascii.eqb h2 "5")
                    && negb (Ascii.eqb (unhex2 h1 h2) " ")
                    && shouldEscape (unhex2 h1 h2) encodeHost then false
            else escapesOK t2 mode
        | _ => false
        end
      else if Ascii.eqb a "+" then escapesOK t mode
      else if isHostMode mode && (byte a <? 128)%N && shouldEscape a encodeHost
      then false
      else escapesOK t mode
  end.

(** Second pass of [unescape]. *)
Fixpoint decodeEscapes (s : string) (mode : encoding) : string :=
  match s with
  | EmptyString => EmptyString
  | String a t =>
      if Ascii.eqb a "%" then
        match t with
        | String h1 (String h2 t2) => String (unhex2 h1 h2) (decodeEscapes t2 mode)
        | _ => s
        end
      else if Ascii.eqb a "+" then
        String (if encoding_eqb mode encodeQueryComponent then " " else "+")%char
               (decodeEscapes t mode)
      else String a (decodeEscapes t mode)
  end.

Definition unescape (s : string) (mode : encoding) : option string :=
  if escapesOK s mode then Some (decodeEscapes s mode) else None.

Definition QueryUnescape (s : string) : option string :=
  unescape s encodeQueryComponent.

Fixpoint stringContainsCTLByte (s : string) : bool :=
  match s with
  | EmptyString => false
  | String b s' => (byte b <? 32)%N || (byte b =? 127)%N || stringContainsCTLByte s'
  end.

(** [getScheme]: [Some (scheme, rest)], or [None] for "missing protocol
    scheme". *)
Fixpoint getScheme_go (i : nat) (todo rawURL : string) : option (string * string) :=
  match todo with
  | EmptyString => Some (EmptyString, rawURL)
  | String c todo' =>
      if isAlpha c then getScheme_go (S i) todo' rawURL
      else if isDigit c || inBytes c "+-." then
        match i with
        | O => Some (EmptyString, rawURL)
        | S _ => getScheme_go (S i) todo' rawURL
        end
      else if Ascii.eqb c ":" then
        match i with
        | O => None
        | S _ => Some (sliceTo i rawURL, todo')
        end
      else Some (EmptyString, rawURL)
  end.

Definition getScheme (rawURL : string) : option (string * string) :=
  getScheme_go O rawURL rawURL.

Fixpoint allDigits (s : string) : bool :=
  match s with
  | EmptyString => true
  | String b s' => isDigit b && allDigits s'
  end.

Definition validOptionalPort (port : string) : bool :=
  match port with
  | EmptyString => true
  | String c ds => Ascii.eqb c ":" && allDigits ds
  end.

Fixpoint validUserinfo (s : string) : bool :=
  match s with
  | EmptyString => true
  | String r s' =>
      (isAlpha r || isDigit r || inBytes r "-._:~!$&'()*+,;=%@") && validUserinfo s'
  end.

Definition parseHost (host : string) : option string :=
  if HasPrefix host "[" then
    let i := LastIndexByte host "]" in
    if i <? 0 then None
    else
      let colonPort := sliceFrom (Z.to_nat i + 1) host in
      if negb (validOptionalPort colonPort) then None
      else
        let zone := Index (sliceTo (Z.to_nat i) host) "%25" in
        if 0 <=? zone then
          match unescape (sliceTo (Z.to_nat zone) host) encodeHost with
          | None => None
          | Some host1 =>
              match unescape (sliceFrom (Z.to_nat zone) (sliceTo (Z.to_nat i) host))
                             encodeZone with
              | None => None
              | Some host2 =>
                  match unescape (sliceFrom (Z.to_nat i) host) encodeHost with
                  | None => None
                  | Some host3 => Some (host1 +:+ host2 +:+ host3)
                  end
              end
          end
        else unescape host encodeHost
  else
    let i := LastIndexByte host ":" in
    if negb (i =? -1)
       && negb (validOptionalPort (sliceFrom (Z.to_nat i) host))
    then None
    else unescape host encodeHost.

Definition parseAuthority (authority : string) : option (option Userinfo * string) :=
  let i := LastIndexByte authority "@" in
  match parseHost (if i <? 0 then authority
                   else sliceFrom (Z.to_nat i + 1) authority) with
  | None => None
  | Some host =>
      if i <? 0 then Some (None, host)
      else
        let userinfo := sliceTo (Z.to_nat i) authority in
        if negb (validUserinfo userinfo) then None
        else if negb (Contains userinfo ":") then
          match unescape userinfo encodeUserPassword with
          | None => None
          | Some name =>
              Some (Some {| username := name; password := ""; passwordSet := false |},
                    host)
          end
        else
          let '(name, pass, _) := Cut userinfo ":" in
          match unescape name encodeUserPassword with
          | None => None
          | Some name' =>
              match unescape pass encodeUserPassword with
              | None => None
              | Some pass' =>
                  Some (Some {| username := name'; password := pass';
                                passwordSet := true |}, host)
              end
          end
  end.

Definition setPath (u : URL) (p : string) : option URL :=
  match unescape p encodePath with
  | None => None
  | Some path =>
      Some {| Scheme := Scheme u; Opaque := Opaque u; User := User u;
              Host := Host u; Path := path;
              RawPath := if String.eqb p (escape path encodePath) then "" else p;
              OmitHost := OmitHost u; ForceQuery := ForceQuery u;
              RawQuery := RawQuery u; Fragment := Fragment u;
              RawFragment := RawFragment u |}
  end.

Definition setFragment (u : URL) (f : string) : option URL :=
  match unescape f encodeFragment with
  | None => None
  | Some frag =>
      Some {| Scheme := Scheme u; Opaque := Opaque u; User := User u;
              Host := Host u; Path := Path u; RawPath := RawPath u;
              OmitHost := OmitHost u; ForceQuery := ForceQuery u;
              RawQuery := RawQuery u; Fragment := frag;
              RawFragment := if String.eqb f (escape frag encodeFragment)
                             then "" else f |}
  end.

Definition isEmpty (s : string) : bool := String.eqb s "".

(** [parse] with [viaRequest = false]. *)
Definition parse (rawURL : string) : option URL :=
  if stringContainsCTLByte rawURL then None
  else if String.eqb rawURL "*" then
    Some {| Scheme := ""; Opaque := ""; User := None; Host := ""; Path := "*";
            RawPath := ""; OmitHost := false; ForceQuery := false;
            RawQuery := ""; Fragment := ""; RawFragment := "" |}
  else
    match getScheme rawURL with
    | None => None
    | Some (scheme0, rest0) =>
        (* the scheme is made of ASCII bytes, so [ToLower] lowers it byte
           by byte *)
        let scheme := lowerASCII scheme0 in
        let '(rest, rawQuery, forceQuery) :=
          if HasSuffix rest0 "?" && (count_byte "?" rest0 =? 1)%nat
          then (sliceTo (String.length rest0 - 1) rest0, EmptyString, true)
          else let '(before, after, _) := Cut rest0 "?" in (before, after, false) in
        let mk user host omit :=
          {| Scheme := scheme; Opaque := ""; User := user; Host := host;
             Path := ""; RawPath := ""; OmitHost := omit;
             ForceQuery := forceQuery; RawQuery := rawQuery;
             Fragment := ""; RawFragment := "" |} in
        if negb (HasPrefix rest "/") && negb (isEmpty scheme) then
          Some {| Scheme := scheme; Opaque := rest; User := None; Host := "";
                  Path := ""; RawPath := ""; OmitHost := false;
                  ForceQuery := forceQuery; RawQuery := rawQuery;
                  Fragment := ""; RawFragment := "" |}
        else if negb (HasPrefix rest "/")
                && Contains (fst (fst (Cut rest "/"))) ":" then None
        else if (negb (isEmpty scheme) || negb (HasPrefix rest "///"))
                && HasPrefix rest "//" then
          let authority0 := sliceFrom 2 rest in
          let i := Index authority0 "/" in
          let '(authority, rest') :=
            if 0 <=? i
            then (sliceTo (Z.to_nat i) authority0, sliceFrom (Z.to_nat i) authority0)
            else (authority0, EmptyString) in
          match parseAuthority authority with
          | None => None
          | Some (user, host) => setPath (mk user host false) rest'
          end
        else if negb (isEmpty scheme) && HasPrefix rest "/" then
          setPath (mk None EmptyString true) rest
        else setPath (mk None EmptyString false) rest
    end.

(** [url.Parse]: [None] stands for a non-nil error. *)
Definition Parse (rawURL : string) : option URL :=
  let '(u, frag, _) := Cut rawURL "#" in
  match parse u with
  | None => None
  | Some url => if isEmpty frag then Some url else setFragment url frag
  end.

(** [validEncoded], [EscapedPath], [EscapedFragment]. *)
Fixpoint validEncoded (s : string) (mode : encoding) : bool :=
  match s with
  | EmptyString => true
  | String c s' =>
      (inBytes c "!$&'()*+,;=:@[]%" || negb (shouldEscape c mode))
      && validEncoded s' mode
  end.

Definition EscapedPath (u : URL) : string :=
  if negb (isEmpty (RawPath u)) && validEncoded (RawPath u) encodePath
     && match unescape (RawPath u) encodePath with
        | Some p => String.eqb p (Path u)
        | None => false
        end
  then RawPath u
  else if String.eqb (Path u) "*" then "*"
  else escape (Path u) encodePath.

Definition EscapedFragment (u : URL) : string :=
  if negb (isEmpty (RawFragment u)) && validEncoded (RawFragment u) encodeFragment
     && match unescape (RawFragment u) encodeFragment with
        | Some f => String.eqb f (Fragment u)
        | None => false
        end
  then RawFragment u
  else escape (Fragment u) encodeFragment.

Definition Userinfo_String (ui : Userinfo) : string :=
  escape (username ui) encodeUserPassword
  +:+ (if passwordSet ui then ":" +:+ escape (password ui) encodeUserPassword
       else "").

Definition isSome {A} (o : option A) : bool :=
  match o with Some _ => true | None => false end.

(** The method [String] of [URL]: the pieces are written to the buffer in
    this order. *)
Definition URL_String (u : URL) : string :=
  let buf := if negb (isEmpty (Scheme u)) then Scheme u +:+ ":" else "" in
  let buf :=
    if negb (isEmpty (Opaque u)) then buf +:+ Opaque u
    else
      let buf :=
        if negb (isEmpty (Scheme u)) || negb (isEmpty (Host u)) || isSome (User u)
        then
          if OmitHost u && isEmpty (Host u) && negb (isSome (User u)) then buf
          else
            let buf :=
              if negb (isEmpty (Host u)) || negb (isEmpty (Path u)) || isSome (User u)
              then buf +:+ "//" else buf in
            let buf :=
              match User u with
              | Some ui => buf +:+ Userinfo_String ui +:+ "@"
              | None => buf
              end in
            if negb (isEmpty (Host u)) then buf +:+ escape (Host u) encodeHost
            else buf
        else buf in
      let path := EscapedPath u in
      let buf :=
        if negb (isEmpty path) && negb (HasPrefix path "/") && negb (isEmpty (Host u))
        then buf +:+ "/" else buf in
      let buf :=
        if isEmpty buf && Contains (fst (fst (Cut path "/"))) ":"
        then buf +:+ "./" else buf in
      buf +:+ path in
  let buf :=
    if ForceQuery u || negb (isEmpty (RawQuery u))
    then buf +:+ "?" +:+ RawQuery u else buf in
  if negb (isEmpty (Fragment u)) then buf +:+ "#" +:+ EscapedFragment u else buf.

(** The assignment [u.RawQuery = q]. *)
Definition setRawQuery (u : URL) (q : string) : URL :=
  {| Scheme := Scheme u; Opaque := Opaque u; User := User u; Host := Host u;
     Path := Path u; RawPath := RawPath u; OmitHost := OmitHost u;
     ForceQuery := ForceQuery u; RawQuery := q; Fragment := Fragment u;
     RawFragment := RawFragment u |}.

End NetURL.

(** ** [main.go]: pattern normalisation *)

Import GoStrings.

(** [normalizeURLForCDX]: the pattern sent to the CDX index. *)
Definition normalizeURLForCDX (u : string) (subs : bool) : string :=
  let s := TrimSpace u in
  let s := TrimPrefix s "http://" in
  let s := TrimPrefix s "https://" in
  let idx := IndexAny s "/:\\" in
  let s := if 0 <=? idx then sliceTo (Z.to_nat idx) s else s in
  let s := ReplaceAll s "*" "" in
  let s := Trim s " ." in
  if subs then "*." +:+ s
  else if negb (Contains u "*") then s +:+ "*"
  else u.


(** ** [config.go] *)

Definition defaultExclude : string :=
  "js,css,png,jpg,jpeg,gif,svg,webp,ico,bmp,tif,tiff,woff,woff2,ttf,eot,mp4,mp3,wav,avi,mov,mkv,zip,rar,7z,pdf".

Record Config := {
  URLPattern : string;
  OutputFile : string;
  OnlyQuery : bool;
  OnlyQueryKeys : bool;
  NoQuery : bool;
  ExcludeExt : string;
  IncludeExt : string;
  ExcludeDefaults : bool;
  Workers : Z;
  PageWorkers : Z;
  ExtractPaths : bool;
  Subs : bool;
  Timeout : Z
}.

(** [EffectiveExclude]; [excludeProvided] is what [flag.Visit] finds out:
    was [-exclude-ext] given on the command line? *)
Definition EffectiveExclude (c : Config) (excludeProvided : bool) : string * bool :=
  let effectiveExclude :=
    if ExcludeDefaults c then defaultExclude
    else if negb excludeProvided then ""
    else if String.eqb (ExcludeExt c) "" then defaultExclude
    else ExcludeExt c in
  (effectiveExclude, excludeProvided).

Definition NormalizeBaseDomain (c : Config) : string :=
  let baseDomain := URLPattern c in
  let baseDomain := normalizeURLForCDX baseDomain false in
  let baseDomain := TrimPrefix baseDomain "*." in
  let baseDomain := TrimSuffix baseDomain "*" in
  Trim baseDomain " .".

(** ** The runner *)

Definition maxRetries : Z := 3.

(** A compiled regular expression, as far as the runner uses it. *)
Record Regexp := { MatchString : string -> bool }.

Definition nonEmpty (s : string) : bool := negb (String.eqb s "").

(** Modelled from the spec: [CompileExtRegex] is called by [NewRunner] but
    its file is not among the sources.  Section 4.1 of the specification: a
    non-empty include list gives a case-insensitive matcher over its
    extensions and [includeMode = true] (the exclude list is ignored);
    otherwise a non-empty exclude list gives the same kind of matcher with
    [includeMode = false]; otherwise there is no matcher.  Empty tokens are
    ignored.  A path matches if it ends in a dot followed by one of the
    listed extensions, letter case apart. *)
Definition extTokens (exts : string) : list string :=
  List.filter nonEmpty (List.map TrimSpace (Split exts ",")).

(** Modelled from the spec: the matcher of [CompileExtRegex] over a list of
    extensions (section 4.1, matching semantics). *)
Definition extMatcher (tokens : list string) : Regexp :=
  {| MatchString := fun path =>
       existsb (fun e => HasSuffix (lowerASCII path) ("." +:+ lowerASCII e)) tokens |}.

(** Modelled from the spec: what [CompileExtRegex] returns, the matcher (if
    any) and [includeMode].  Its third result, the error of compiling the
    matcher, "should not normally occur" (section 4.1) and would end the
    program before there is a runner; it is left out. *)
Definition CompileExtRegex (includeExt excludeExt : string) : option Regexp * bool :=
  match extTokens includeExt, extTokens excludeExt with
  | (_ :: _) as inc, _ => (Some (extMatcher inc), true)
  | [], (_ :: _) as exc => (Some (extMatcher exc), false)
  | [], [] => (None, false)
  end.

(** The fields of [Runner] that decide what is fetched, kept and printed;
    the HTTP client, the writers and the progress bar are the environment
    of the functions below. *)
Record Runner := {
  cfg : Config;
  extRegex : option Regexp;
  includeMode : bool;
  baseDomain : string
}.

(** The runner [NewRunner] returns, when it returns one (it fails when the
    output file cannot be created). *)
Definition NewRunner (c : Config) (excludeProvided : bool) : Runner :=
  let '(effectiveExclude, _) := EffectiveExclude c excludeProvided in
  let '(re, inc) := CompileExtRegex (IncludeExt c) effectiveExclude in
  {| cfg := c; extRegex := re; includeMode := inc;
     baseDomain := NormalizeBaseDomain c |}.

(** *** [processLine] *)

Import NetURL.

(** The extension filter of [processLine]: is the line dropped? *)
Definition extFiltered (r : Runner) (path : string) : bool :=
  match extRegex r with
  | Some re =>
      let matched := MatchString re path in
      if includeMode r && negb matched then true
      else if negb (includeMode r) && matched then true
      else false
  | None => false
  end.

Definition isQuerySep (r : ascii) : bool := Ascii.eqb r "&" || Ascii.eqb r ";".

(** One round of the loop over the pairs of a raw query: the key that is
    appended, if any. *)
Definition pairKey (p : string) : option string :=
  if String.eqb p "" then None
  else
    let idx := Index p "=" in
    let k := if 0 <=? idx then sliceTo (Z.to_nat idx) p else p in
    if String.eqb k "" then None
    else match QueryUnescape k with
         | Some un => Some un
         | None => Some k
         end.

Fixpoint queryKeys (pairs : list string) : list string :=
  match pairs with
  | [] => []
  | p :: pairs' =>
      match pairKey p with
      | Some k => k :: queryKeys pairs'
      | None => queryKeys pairs'
      end
  end.

(** The path the filter looks at: the path of the URL, or the whole line
    when it does not parse or has no path. *)
Definition filterPath (pu : option URL) (line : string) : string :=
  match pu with
  | Some u => if nonEmpty (Path u) then Path u else line
  | None => line
  end.

Definition processLine (r : Runner) (line : string) : list string :=
  let line := TrimSpace line in
  if String.eqb line "" then []
  else
    let pu := Parse line in
    let path := filterPath pu line in
    if extFiltered r path then []
    else if OnlyQuery (cfg r) then
      match pu with
      | Some u => if nonEmpty (RawQuery u) then [RawQuery u] else []
      | None => []
      end
    else if OnlyQueryKeys (cfg r) then
      match pu with
      | Some u =>
          if nonEmpty (RawQuery u)
          then queryKeys (FieldsFunc (RawQuery u) isQuerySep)
          else []
      | None => []
      end
    else
      match NoQuery (cfg r), pu with
      | true, Some u => [URL_String (setRawQuery u "")]
      | _, _ => [line]
      end.

(** *** The printers

    The printer is the only reader of the results channel: it sees the
    results as one sequence.  Each function returns the lines it writes, in
    the order of writing; [seen] is the map used as a set. *)

Fixpoint printDefault_loop (seen : gset string) (resultsCh : list string) : list string :=
  match resultsCh with
  | [] => []
  | res :: rest =>
      if decide (res ∈ seen) then printDefault_loop seen rest
      else res :: printDefault_loop ({[res]} ∪ seen) rest
  end.

Definition printDefault (resultsCh : list string) : list string :=
  printDefault_loop ∅ resultsCh.

(** [if idx := strings.Index(host, ":"); idx >= 0 { host = host[:idx] }] *)
Definition stripPort (host : string) : string :=
  let idx := Index host ":" in
  if 0 <=? idx then sliceTo (Z.to_nat idx) host else host.

Section Printers.
Context `{CaseTables}.

(** The host that [printSubdomains] looks at for one result, when it gets
    as far as the set of seen hosts. *)
Definition subdomainOf (baseLower res : string) : option string :=
  match Parse res with
  | None => None
  | Some u =>
      let host := stripPort (Host u) in
      let host := ToLower (TrimSpace host) in
      if String.eqb host "" || String.eqb host baseLower then None
      else if HasSuffix host ("." +:+ baseLower) then Some host
      else None
  end.

Fixpoint printSubdomains_loop (baseLower : string) (seenSubs : gset string)
         (resultsCh : list string) : list string :=
  match resultsCh with
  | [] => []
  | res :: rest =>
      match subdomainOf baseLower res with
      | None => printSubdomains_loop baseLower seenSubs rest
      | Some host =>
          if decide (host ∈ seenSubs) then printSubdomains_loop baseLower seenSubs rest
          else host :: printSubdomains_loop baseLower ({[host]} ∪ seenSubs) rest
      end
  end.

Definition printSubdomains (r : Runner) (resultsCh : list string) : list string :=
  if String.eqb (baseDomain r) "" then []
  else printSubdomains_loop (ToLower (baseDomain r)) ∅ resultsCh.

(** The inner loop of [printPaths], over the segments of one path: the
    segments written and the set afterwards. *)
Fixpoint printPaths_segs (seenSeg : gset string) (segs : list string)
  : list string * gset string :=
  match segs with
  | [] => ([], seenSeg)
  | seg :: segs' =>
      let seg := TrimSpace seg in
      if String.eqb seg "" then printPaths_segs seenSeg segs'
      else if decide (seg ∈ seenSeg) then printPaths_segs seenSeg segs'
      else
        let '(out, seen') := printPaths_segs ({[seg]} ∪ seenSeg) segs' in
        (seg :: out, seen')
  end.

Fixpoint printPaths_loop (seenSeg : gset string) (resultsCh : list string) : list string :=
  match resultsCh with
  | [] => []
  | res :: rest =>
      match Parse res with
      | None => printPaths_loop seenSeg rest
      | Some u =>
          if String.eqb (Path u) "" then printPaths_loop seenSeg rest
          else
            let '(out, seen') := printPaths_segs seenSeg (Split (Path u) "/") in
            out ++ printPaths_loop seen' rest
      end
  end.

Definition printPaths (resultsCh : list string) : list string :=
  printPaths_loop ∅ resultsCh.

Definition startPrinter (r : Runner) (resultsCh : list string) : list string :=
  if Subs (cfg r) then printSubdomains r resultsCh
  else if ExtractPaths (cfg r) then printPaths resultsCh
  else printDefault resultsCh.

End Printers.

(** *** The network, as the runner sees it *)

Definition error := string.

(** A [bufio.Scanner] over a response body: the tokens for which [Scan]
    returns true, each with what [Err] reports right after it, and what
    [Err] reports once [Scan] has returned false. *)
Record Scanner := {
  tokens : list (string * option error);
  finalErr : option error
}.

Record Response := {
  StatusCode : Z;
  Body : Scanner
}.

(** What [client.Do] returns: without an error there is a response; with
    an error there may be one. *)
Inductive DoResult :=
| DoOK (resp : Response)
| DoErr (err : error) (resp : option Response).

(** One turn of the retry loop, as the environment decides it. *)
Inductive Attempt :=
| RequestErr (err : error)
| Sent (res : DoResult).

Inductive LogMsg :=
| WarnPageCount (numStr : string)
| WarnRetry (ierr : option error)
| ErrPage (p : Z) (ierr : option error)
| WarnRead (p : Z) (err : error)
| NoPages.

Inductive Event :=
| EvDo (attempt : Z)
| EvClose
| EvLog (msg : LogMsg)
| EvRender
| EvSleep (seconds : Z).

(** *** [fetchPageCount] *)

Inductive RunError :=
| ErrBuildRequest (err : error)
| ErrFetchPageCount (err : error)
| ErrReadPageCount (err : error).

(** The scan loop: the first token that is not blank once trimmed, and the
    scanner's error when the loop is left. *)
Fixpoint firstLine (toks : list (string * option error)) (final : option error)
  : string * option error :=
  match toks with
  | [] => (EmptyString, final)
  | (text, err) :: toks' =>
      let line := TrimSpace text in
      if nonEmpty line then (line, err) else firstLine toks' final
  end.

(** The result and what is written to the standard error stream. *)
Definition fetchPageCount (newRequest : option error) (do : DoResult)
  : (RunError + Z) * list LogMsg :=
  match newRequest with
  | Some err => (inl (ErrBuildRequest err), [])
  | None =>
      match do with
      | DoErr err _ => (inl (ErrFetchPageCount err), [])
      | DoOK resp =>
          let '(numStr, serr) := firstLine (tokens (Body resp)) (finalErr (Body resp)) in
          match serr with
          | Some err => (inl (ErrReadPageCount err), [])
          | None =>
              if String.eqb numStr "" then (inr 0, [])
              else match GoStrconv.Atoi numStr with
                   | None => (inr 1, [WarnPageCount numStr])
                   | Some pages => (inr pages, [])
                   end
          end
      end
  end.

(** How [Run] goes on after the page count. *)
Inductive RunStart :=
| RunFails (err : RunError)
| NothingToDo (stderr : list LogMsg)
| StartPipeline (pages : Z) (stderr : list LogMsg).

Definition Run_start (newRequest : option error) (do : DoResult) : RunStart :=
  match fetchPageCount newRequest do with
  | (inl err, _) => RunFails err
  | (inr pages, log) =>
      if pages =? 0 then NothingToDo (log ++ [NoPages])
      else StartPipeline pages log
  end.

(** *** [fetchWithRetry] *)

Definition attemptOK (res : DoResult) : option Response :=
  match res with
  | DoOK resp =>
      if (200 <=? StatusCode resp) && (StatusCode resp <? 300) then Some resp else None
  | DoErr _ _ => None
  end.

Definition doErr (res : DoResult) : option error :=
  match res with DoOK _ => None | DoErr err _ => Some err end.

Definition doResp (res : DoResult) : option Response :=
  match res with DoOK resp => Some resp | DoErr _ resp => resp end.

(** What follows a failed attempt. *)
Definition afterFailure (attempt : Z) (res : DoResult) (hasCounter : bool) : list Event :=
  (if doResp res is Some _ then [EvClose] else [])
  ++ [EvLog (WarnRetry (doErr res))]
  ++ (if hasCounter then [EvRender] else [])
  ++ [EvSleep attempt].

(** The loop [for attempt := 1; attempt <= maxRetries; attempt++]; [todo]
    is the number of turns left.  The result is [(respP, ierr)] and the
    events in order. *)
Fixpoint retry_loop (net : Z -> Attempt) (hasCounter : bool) (todo : nat)
         (attempt : Z) (ierr : option error)
  : (option Response * option error) * list Event :=
  match todo with
  | O => ((None, ierr), [])
  | S todo' =>
      match net attempt with
      | RequestErr err => ((None, Some err), [])
      | Sent res =>
          match attemptOK res with
          | Some resp => ((Some resp, None), [EvDo attempt])
          | None =>
              let '(out, evs) :=
                retry_loop net hasCounter todo' (attempt + 1) (doErr res) in
              (out, EvDo attempt :: afterFailure attempt res hasCounter ++ evs)
          end
      end
  end.

Definition fetchWithRetry (net : Z -> Attempt) (hasCounter : bool)
  : (option Response * option error) * list Event :=
  retry_loop net hasCounter (Z.to_nat maxRetries) 1 None.

(** *** The page fetchers

    [startPageFetchers] starts [pageConcurrency] goroutines that share the
    channel [pageJobs], the channel [jobs] and the counter
    [pagesCompleted]; [Run] feeds the page numbers and closes [pageJobs].
    The pool is a transition system: an action is one step of the
    dispatching loop or of one fetcher. *)

Definition int32 (z : Z) : Z := (z + 2 ^ 31) mod 2 ^ 32 - 2 ^ 31.

Inductive Context := Background | Cancellable.

Inductive Fetcher :=
| FReceive                                   (* at [range pageJobs] *)
| FPage (p : Z)                              (* holds page [p] *)
| FScan (p : Z) (todo : list (string * option error)) (err : option error)
| FReturned.

Record Pool := {
  ctxDone : bool;
  nextPage : Z;                (* the [p] of the dispatching loop *)
  closed : bool;               (* [close(pageJobs)] has run *)
  pageJobs : list Z;
  fetchers : list Fetcher;
  jobs : list string;          (* everything sent on [jobs], in order *)
  pagesCompleted : Z;
  counted : list Z;            (* the pages an increment was made for *)
  logged : list LogMsg         (* what was handed to [r.pbar.Log], in order *)
}.

Inductive Action :=
| Dispatch                      (* [pageJobs <- p] *)
| Close                         (* [close(pageJobs)] *)
| Cancel                        (* the context is cancelled *)
| Step (i : nat).               (* fetcher [i] moves on *)

Definition pageConcurrency (c : Config) : nat :=
  Z.to_nat (if PageWorkers c <? 1 then 1 else PageWorkers c).

Definition startPool (c : Config) : Pool :=
  {| ctxDone := false; nextPage := 0; closed := false; pageJobs := [];
     fetchers := replicate (pageConcurrency c) FReceive; jobs := [];
     pagesCompleted := 0; counted := []; logged := [] |}.

(** [Run] makes the channels before it starts the pool:
    [make(chan int, r.cfg.PageWorkers)] panics for a negative capacity
    ([None]).  The capacities only delay sends, so they are left out of the
    transition system: every interleaving of the program is one of its
    runs. *)
Definition Run_pool (c : Config) : option Pool :=
  if PageWorkers c <? 0 then None else Some (startPool c).

Definition setFetcher (i : nat) (f : Fetcher) (s : Pool) : Pool :=
  {| ctxDone := ctxDone s; nextPage := nextPage s; closed := closed s;
     pageJobs := pageJobs s; fetchers := <[i := f]> (fetchers s); jobs := jobs s;
     pagesCompleted := pagesCompleted s; counted := counted s; logged := logged s |}.

(** [atomic.AddInt32(pagesCompleted, 1)] for page [p], with what is logged
    before it; the fetcher goes back to the channel. *)
Definition countPage (i : nat) (p : Z) (log : list LogMsg) (s : Pool) : Pool :=
  {| ctxDone := ctxDone s; nextPage := nextPage s; closed := closed s;
     pageJobs := pageJobs s; fetchers := <[i := FReceive]> (fetchers s);
     jobs := jobs s;
     pagesCompleted := int32 (pagesCompleted s + 1);
     counted := counted s ++ [p]; logged := logged s ++ log |}.

(** What [fetchWithRetry] hands to [r.pbar.Log], and what the call of a
    fetcher for page [p] logs: one warning for every attempt that failed. *)
Definition logOf (evs : list Event) : list LogMsg :=
  omap (fun e => if e is EvLog msg then Some msg else None) evs.

Definition retryLog (net : Z -> Z -> Attempt) (p : Z) : list LogMsg :=
  logOf (snd (fetchWithRetry (net p) true)).

(** One step of fetcher [i].  The call of [fetchWithRetry] is one step: its
    warnings reach the log together, before the error of the page when
    there is no response. *)
Definition fetcherStep (net : Z -> Z -> Attempt) (i : nat) (f : Fetcher) (s : Pool)
  : option Pool :=
  match f with
  | FReceive =>
      match pageJobs s with
      | p :: rest =>
          Some {| ctxDone := ctxDone s; nextPage := nextPage s; closed := closed s;
                  pageJobs := rest; fetchers := <[i := FPage p]> (fetchers s);
                  jobs := jobs s; pagesCompleted := pagesCompleted s;
                  counted := counted s; logged := logged s |}
      | [] => if closed s then Some (setFetcher i FReturned s) else None
      end
  | FPage p =>
      if ctxDone s then Some (setFetcher i FReturned s)
      else
        match fst (fetchWithRetry (net p) true) with
        | (Some respP, None) =>
            Some {| ctxDone := ctxDone s; nextPage := nextPage s; closed := closed s;
                    pageJobs := pageJobs s;
                    fetchers := <[i := FScan p (tokens (Body respP))
                                              (finalErr (Body respP))]> (fetchers s);
                    jobs := jobs s; pagesCompleted := pagesCompleted s;
                    counted := counted s; logged := logged s ++ retryLog net p |}
        | (_, ierr) => Some (countPage i p (retryLog net p ++ [ErrPage p ierr]) s)
        end
  | FScan p ((text, _) :: todo) err =>
      let line := TrimSpace text in
      Some {| ctxDone := ctxDone s; nextPage := nextPage s; closed := closed s;
              pageJobs := pageJobs s;
              fetchers := <[i := FScan p todo err]> (fetchers s);
              jobs := if nonEmpty line then jobs s ++ [line] else jobs s;
              pagesCompleted := pagesCompleted s; counted := counted s;
              logged := logged s |}
  | FScan p [] err =>
      Some (countPage i p (if err is Some e then [WarnRead p e] else []) s)
  | FReturned => None
  end.

(** One action; [None] when the action cannot be taken in this state. *)
Definition poolStep (ctx : Context) (pages : Z) (net : Z -> Z -> Attempt)
           (a : Action) (s : Pool) : option Pool :=
  match a with
  | Dispatch =>
      if (nextPage s <? pages) && negb (closed s) then
        Some {| ctxDone := ctxDone s; nextPage := nextPage s + 1; closed := closed s;
                pageJobs := pageJobs s ++ [nextPage s]; fetchers := fetchers s;
                jobs := jobs s; pagesCompleted := pagesCompleted s;
                counted := counted s; logged := logged s |}
      else None
  | Close =>
      if (pages <=? nextPage s) && negb (closed s) then
        Some {| ctxDone := ctxDone s; nextPage := nextPage s; closed := true;
                pageJobs := pageJobs s; fetchers := fetchers s; jobs := jobs s;
                pagesCompleted := pagesCompleted s; counted := counted s;
                logged := logged s |}
      else None
  | Cancel =>
      match ctx with
      | Background => None
      | Cancellable =>
          Some {| ctxDone := true; nextPage := nextPage s; closed := closed s;
                  pageJobs := pageJobs s; fetchers := fetchers s; jobs := jobs s;
                  pagesCompleted := pagesCompleted s; counted := counted s;
                  logged := logged s |}
      end
  | Step i =>
      match fetchers s !! i with
      | Some f => fetcherStep net i f s
      | None => None
      end
  end.

Fixpoint poolRun (ctx : Context) (pages : Z) (net : Z -> Z -> Attempt)
         (acts : list Action) (s : Pool) : option Pool :=
  match acts with
  | [] => Some s
  | a :: acts' =>
      match poolStep ctx pages net a s with
      | Some s' => poolRun ctx pages net acts' s'
      | None => None
      end
  end.

(** [fetchWg.Wait()] returns: the channel is closed and every fetcher has
    returned. *)
Definition poolDone (s : Pool) : bool :=
  closed s && forallb (fun f => if f is FReturned then true else false) (fetchers s).

(** ** Configurations and statements

    The values of the flags when only [-u] is given ([ParseConfig]), and
    record updates used to state the properties. *)

Definition defaultConfig (pattern : string) : Config :=
  {| URLPattern := pattern; OutputFile := ""; OnlyQuery := false;
     OnlyQueryKeys := false; NoQuery := false; ExcludeExt := "";
     IncludeExt := ""; ExcludeDefaults := false; Workers := 20;
     PageWorkers := 10; ExtractPaths := false; Subs := false; Timeout := 80 |}.

Definition withQueryModes (c : Config) (onlyQuery onlyQueryKeys noQuery : bool) : Config :=
  {| URLPattern := URLPattern c; OutputFile := OutputFile c;
     OnlyQuery := onlyQuery; OnlyQueryKeys := onlyQueryKeys; NoQuery := noQuery;
     ExcludeExt := ExcludeExt c; IncludeExt := IncludeExt c;
     ExcludeDefaults := ExcludeDefaults c; Workers := Workers c;
     PageWorkers := PageWorkers c; ExtractPaths := ExtractPaths c;
     Subs := Subs c; Timeout := Timeout c |}.

Definition withSinkModes (c : Config) (extractPaths subs : bool) : Config :=
  {| URLPattern := URLPattern c; OutputFile := OutputFile c;
     OnlyQuery := OnlyQuery c; OnlyQueryKeys := OnlyQueryKeys c;
     NoQuery := NoQuery c; ExcludeExt := ExcludeExt c; IncludeExt := IncludeExt c;
     ExcludeDefaults := ExcludeDefaults c; Workers := Workers c;
     PageWorkers := PageWorkers c; ExtractPaths := extractPaths;
     Subs := subs; Timeout := Timeout c |}.

Definition withExts (c : Config) (includeExt excludeExt : string) : Config :=
  {| URLPattern := URLPattern c; OutputFile := OutputFile c;
     OnlyQuery := OnlyQuery c; OnlyQueryKeys := OnlyQueryKeys c;
     NoQuery := NoQuery c; ExcludeExt := excludeExt; IncludeExt := includeExt;
     ExcludeDefaults := ExcludeDefaults c; Workers := Workers c;
     PageWorkers := PageWorkers c; ExtractPaths := ExtractPaths c;
     Subs := Subs c; Timeout := Timeout c |}.

Definition withPageWorkers (c : Config) (n : Z) : Config :=
  {| URLPattern := URLPattern c; OutputFile := OutputFile c;
     OnlyQuery := OnlyQuery c; OnlyQueryKeys := OnlyQueryKeys c;
     NoQuery := NoQuery c; ExcludeExt := ExcludeExt c; IncludeExt := IncludeExt c;
     ExcludeDefaults := ExcludeDefaults c; Workers := Workers c;
     PageWorkers := n; ExtractPaths := ExtractPaths c;
     Subs := Subs c; Timeout := Timeout c |}.

(** The same runner with another configuration, and without a filter. *)
Definition withConfig (r : Runner) (c : Config) : Runner :=
  {| cfg := c; extRegex := extRegex r; includeMode := includeMode r;
     baseDomain := baseDomain r |}.

Definition withoutFilter (r : Runner) : Runner :=
  {| cfg := cfg r; extRegex := None; includeMode := includeMode r;
     baseDomain := baseDomain r |}.

(** The line is not blank and gets through the extension filter. *)
Definition reachesTransform (r : Runner) (line : string) : Prop :=
  TrimSpace line <> "" /\
  extFiltered r (filterPath (Parse (TrimSpace line)) (TrimSpace line)) = false.

(** [pairs] are the fields of [s]: the non-empty pieces between separators,
    in order. *)
Inductive FieldsOf (sep : ascii -> bool) : string -> list string -> Prop :=
| fields_end : FieldsOf sep "" []
| fields_sep c s ps :
    sep c = true -> FieldsOf sep s ps -> FieldsOf sep (String c s) ps
| fields_field f s ps :
    f <> "" ->
    (forall c, inBytes c f = true -> sep c = false) ->
    (s = "" \/ exists c s', s = String c s' /\ sep c = true) ->
    FieldsOf sep s ps -> FieldsOf sep (f +:+ s) (f :: ps).

(** Percent-decoding that keeps the raw form when it fails. *)
Definition decodeOrRaw (k : string) : string :=
  match QueryUnescape k with Some un => un | None => k end.

(** Runners for the examples: only [-u h] and one mode flag. *)
Definition noQueryRunner : Runner :=
  NewRunner (withQueryModes (defaultConfig "h") false false true) false.

Definition queryKeysRunner : Runner :=
  NewRunner (withQueryModes (defaultConfig "h") false true false) false.

Definition defaultRunner : Runner := NewRunner (defaultConfig "h") false.

(** The keys as the specification words them: the raw query is split on
    the two separators; each non-empty pair gives the part before its
    first equals sign (the whole pair without one), percent-decoded, raw
    when decoding fails; every such key is emitted. *)
Fixpoint spec_beforeEq (p : string) : string :=
  match p with
  | EmptyString => EmptyString
  | String c p' => if Ascii.eqb c "=" then EmptyString else String c (spec_beforeEq p')
  end.

Definition spec_queryKeys (rawQuery : string) : list string :=
  List.map (fun p => decodeOrRaw (spec_beforeEq p))
           (List.filter nonEmpty (FieldsFunc rawQuery isQuerySep)).

(** Runners with an include list and with an exclude list. *)
Definition includeJsonRunner : Runner :=
  NewRunner (withExts (defaultConfig "h") "json" "") false.

Definition excludePngRunner : Runner :=
  NewRunner (withExts (defaultConfig "h") "" "png") true.

(** The list without the later occurrences of its elements. *)
Fixpoint firstOccurrences (l : list string) : list string :=
  match l with
  | [] => []
  | x :: l' => x :: List.filter (fun y => negb (String.eqb y x)) (firstOccurrences l')
  end.

(** The path segments [printPaths] considers for one result. *)
Definition pathSegments (res : string) : list string :=
  match Parse res with
  | Some u =>
      if String.eqb (Path u) "" then []
      else List.filter nonEmpty (List.map TrimSpace (Split (Path u) "/"))
  | None => []
  end.

(** The values the printer considers for writing, by mode: its keys. *)
Definition sinkKeys `{CaseTables} (r : Runner) (resultsCh : list string) : list string :=
  if Subs (cfg r) then
    if String.eqb (baseDomain r) "" then []
    else omap (subdomainOf (ToLower (baseDomain r))) resultsCh
  else if ExtractPaths (cfg r) then flat_map pathSegments resultsCh
  else resultsCh.

(** Runners for [-subs] and [-extract-paths]. *)
Definition subsRunner : Runner :=
  NewRunner (withSinkModes (defaultConfig "example.com") false true) false.

Definition pathsRunner : Runner :=
  NewRunner (withSinkModes (defaultConfig "h") true false) false.

(** A response whose body is the given lines, read without error. *)
Definition bodyOf (lines : list string) : Scanner :=
  {| tokens := List.map (fun l => (l, None)) lines; finalErr := None |}.

Definition respOf (status : Z) (lines : list string) : Response :=
  {| StatusCode := status; Body := bodyOf lines |}.

Definition blankToken (t : string * option error) : Prop := TrimSpace (fst t) = "".

(** A non-negative integer as the specification words the page count: one
    or more decimal digits. *)
Definition spec_nonNegativeInt (s : string) : option Z :=
  match s with
  | EmptyString => None
  | _ => GoStrconv.parseDigits 0 s
  end.

Definition isDo (e : Event) : bool :=
  match e with EvDo _ => true | _ => false end.

(** Attempt [k] is made: every attempt before it was sent and failed. *)
Definition attemptMade (net : Z -> Attempt) (k : Z) : Prop :=
  forall j, 1 <= j < k -> exists res, net j = Sent res /\ attemptOK res = None.

(** From attempt [a] on, every attempt before attempt [k] was sent and
    failed. *)
Definition failedFrom (net : Z -> Attempt) (a k : Z) : Prop :=
  forall j, a <= j < k -> exists res, net j = Sent res /\ attemptOK res = None.

(** The page a fetcher holds, and the pages held by the pool. *)
Definition holding (f : Fetcher) : list Z :=
  match f with
  | FPage p | FScan p _ _ => [p]
  | FReceive | FReturned => []
  end.

Definition inflight (fs : list Fetcher) : list Z := flat_map holding fs.

(** What holds in every state of a run under [context.Background()]:
    every page dispatched so far is counted, queued or held by a fetcher,
    once; the counter is the number of counted pages, as an [int32]; a
    fetcher has returned only after the channel was closed and drained. *)
Record PoolInv (pages : Z) (s : Pool) : Prop := {
  inv_ctx : ctxDone s = false;
  inv_next : 0 <= nextPage s <= Z.max 0 pages;
  inv_closed : closed s = true -> pages <= nextPage s;
  inv_pages : counted s ++ pageJobs s ++ inflight (fetchers s) ≡ₚ seqZ 0 (nextPage s);
  inv_counter : pagesCompleted s = int32 (Z.of_nat (length (counted s)));
  inv_returned : forall i, fetchers s !! i = Some FReturned ->
                 closed s = true /\ pageJobs s = [];
  inv_fetchers : (0 < length (fetchers s))%nat
}.

(** A run for the examples: two fetchers, three pages; page 1 fails at
    every attempt, pages 0 and 2 are served. *)
Definition twoFetchers : Config := withPageWorkers (defaultConfig "h") 2.

Definition flakyNet (p attempt : Z) : Attempt :=
  if p =? 1 then Sent (DoErr "timeout" None)
  else if (p =? 0) && (attempt =? 1) then Sent (DoOK (respOf 503 []))
  else Sent (DoOK (respOf 200 ["http://h/a"; ""; "http://h/b"])).

Definition flakySchedule : list Action :=
  [Dispatch; Dispatch; Step 0; Step 1; Dispatch; Close;
   Step 1; Step 0; Step 1; Step 0; Step 0; Step 0; Step 0;
   Step 1; Step 1; Step 1; Step 1; Step 1; Step 0; Step 1].

(** The number of steps the pool still has to take: a measure that every
    action decreases by one. *)
Definition scanCost (net : Z -> Z -> Attempt) (p : Z) : nat :=
  match fst (fetchWithRetry (net p) true) with
  | (Some respP, None) => S (length (tokens (Body respP)))
  | _ => O
  end.

Definition queuedCost (net : Z -> Z -> Attempt) (p : Z) : nat :=
  (2 + scanCost net p)%nat.

Definition fetcherCost (net : Z -> Z -> Attempt) (f : Fetcher) : nat :=
  match f with
  | FReceive => 1%nat
  | FPage p => (2 + scanCost net p)%nat
  | FScan _ todo _ => (2 + length todo)%nat
  | FReturned => O
  end.

Definition stepsLeft (pages : Z) (net : Z -> Z -> Attempt) (s : Pool) : nat :=
  ((if closed s then 0 else 1)
   + sum_list_with (fun p => S (queuedCost net p))
                   (seqZ (nextPage s) (pages - nextPage s))
   + sum_list_with (queuedCost net) (pageJobs s)
   + sum_list_with (fetcherCost net) (fetchers s))%nat.

(** Patterns of the usual form: an optional scheme, a host name made of
    letters, digits, hyphens, underscores and inner dots, and then nothing
    or a path or port, which starts with one of the characters the
    normalisation cuts at. *)
Definition hostByte (c : ascii) : bool :=
  isAlpha c || isDigit c || inBytes c "-._".

(** A byte below 128 that is no white space. *)
Definition solid (c : ascii) : Prop := (byte c <? 128)%N = true /\ asciiSpace c = false.

Definition hostName (h : string) : Prop :=
  h <> "" /\ (forall c, inBytes c h = true -> hostByte c = true)
  /\ Trim h " ." = h.

Definition pathOrPort (p : string) : Prop :=
  p = "" \/ exists c p', p = String c p' /\ inBytes c "/:\\" = true.

(** The cleaned host [s] of a pattern [u], described by the parts of the
    pattern.  The pattern without the white space around it is
    [pre +:+ host +:+ rest]: [pre] is a leading [http://] and then a leading
    [https://], where they are there; [host] goes up to the first slash,
    colon or backslash and [rest] is what comes from there on; [host]
    without its wild cards is [l +:+ s +:+ r], where [l] and [r] are the
    dots and spaces at its ends. *)
Definition cleanedHost (u pre host rest l s r : string) : Prop :=
  TrimSpace u = pre +:+ host +:+ rest
  /\ In pre [""; "http://"; "https://"; "http://https://"]
  /\ (pre = "" -> HasPrefix (host +:+ rest) "http://" = false
                  /\ HasPrefix (host +:+ rest) "https://" = false)
  /\ (pre = "http://" -> HasPrefix (host +:+ rest) "https://" = false)
  /\ (forall c, inBytes c host = true -> inBytes c "/:\\" = false)
  /\ pathOrPort rest
  /\ list_ascii_of_string (l +:+ s +:+ r)
     = List.filter (fun c => negb (Ascii.eqb c "*")) (list_ascii_of_string host)
  /\ (forall c, inBytes c l = true -> inBytes c " ." = true)
  /\ (forall c, inBytes c r = true -> inBytes c " ." = true)
  /\ (forall a t, s = String a t -> inBytes a " ." = false)
  /\ (forall t a, s = t +:+ String a "" -> inBytes a " ." = false).

(** Splits a goal [PoolInv pages s'] into its fields, with the fields of the
    new state computed. *)
Ltac pool_fields :=
  split;
  cbn [countPage setFetcher ctxDone nextPage closed pageJobs fetchers jobs
       pagesCompleted counted logged].

(** ** Vocabulary for the further properties *)

(** The string begins with the encoding of a white-space rune. *)
Definition startsWithSpace (s : string) : bool :=
  match s with
  | EmptyString => false
  | String a t =>
      asciiSpace a
      || match t with
         | EmptyString => false
         | String b t2 =>
             space2 a b
             || match t2 with
                | EmptyString => false
                | String c _ => space3 a b c
                end
         end
  end.

(** The lines a fetcher sends on [jobs] for the tokens it scans, and for a
    page: those of its body when [fetchWithRetry] gives a response, none
    when the page is abandoned. *)
Definition scannedLines (toks : list (string * option error)) : list string :=
  List.filter nonEmpty (List.map (fun t => TrimSpace (fst t)) toks).

Definition pageLines (net : Z -> Z -> Attempt) (p : Z) : list string :=
  match fst (fetchWithRetry (net p) true) with
  | (Some respP, None) => scannedLines (tokens (Body respP))
  | _ => []
  end.

(** The lines a fetcher has still to send for the page it holds. *)
Definition linesAhead (net : Z -> Z -> Attempt) (f : Fetcher) : list string :=
  match f with
  | FPage p => pageLines net p
  | FScan _ todo _ => scannedLines todo
  | FReceive | FReturned => []
  end.

(** The pages that were dispatched and not dropped, and the lines that
    were sent or are still to be sent for them. *)
Definition pending (s : Pool) : list Z :=
  counted s ++ pageJobs s ++ inflight (fetchers s).

Definition pendingLines (net : Z -> Z -> Attempt) (s : Pool) : list string :=
  jobs s ++ flat_map (pageLines net) (pageJobs s)
         ++ flat_map (linesAhead net) (fetchers s).

(** What holds in every state of a run, cancelled or not. *)
Record PoolSafe (pages : Z) (net : Z -> Z -> Attempt) (s : Pool) : Prop := {
  safe_next : 0 <= nextPage s <= Z.max 0 pages;
  safe_pages : pending s ⊆+ seqZ 0 (nextPage s);
  safe_lines : pendingLines net s ⊆+ flat_map (pageLines net) (seqZ 0 (nextPage s));
  safe_counter : pagesCompleted s = int32 (Z.of_nat (length (counted s)));
  safe_exact : ctxDone s = false ->
               pendingLines net s ≡ₚ flat_map (pageLines net) (seqZ 0 (nextPage s))
}.

(** A cancelled run for the examples: the context is cancelled while one
    fetcher scans page 0 and the other holds page 1. *)
Definition cancelledSchedule : list Action :=
  [Dispatch; Dispatch; Step 0; Step 1; Step 0; Step 0; Cancel; Step 1;
   Step 0; Step 0; Step 0; Dispatch; Close; Step 0; Step 0].

(** Events of [fetchWithRetry]: a body is closed; the seconds slept; the
    response that a call of [Do] gave, if it gave one. *)
Definition isClose (e : Event) : bool :=
  match e with EvClose => true | _ => false end.

Definition sleepOf (e : Event) : Z :=
  match e with EvSleep seconds => seconds | _ => 0 end.

Definition responseOf (net : Z -> Attempt) (e : Event) : option Response :=
  match e with
  | EvDo attempt =>
      match net attempt with
      | Sent res => doResp res
      | RequestErr _ => None
      end
  | _ => None
  end.

Definition totalSleep (evs : list Event) : Z :=
  fold_right Z.add 0 (List.map sleepOf evs).

(** Case tables for the examples: text outside ASCII is left alone. *)
Definition asciiOnly : CaseTables := fun s => s.

(** *** The workers and the pipeline of [Run]

    [startWorkers] starts [workerCount] goroutines that range over [jobs]
    and send every value of [processLine] on [resultsCh].  [Run] closes
    [jobs] when [fetchWg.Wait()] has returned, and [resultsCh] when
    [workerWg.Wait()] has returned; the printer reads [resultsCh] until it
    is closed.  As in the pool, an action is one step of [Run] or of one
    goroutine, and the capacities of the channels are left out; [jobs] of
    the pool is the history of the channel, of which the workers have
    received the first [received] lines. *)

Inductive Worker :=
| WReceive                                   (* at [range jobs] *)
| WSend (todo : list string)                 (* in the loop over [processLine(line)] *)
| WReturned.

Record Pipeline := {
  pool : Pool;
  jobsClosed : bool;           (* [close(jobs)] has run *)
  received : nat;
  workers : list Worker;
  resultsCh : list string      (* everything sent on [resultsCh], in order *)
}.

Inductive PipeAction :=
| Fetch (a : Action)            (* the dispatching loop or a fetcher *)
| CloseJobs                     (* [fetchWg.Wait(); close(jobs)] *)
| Work (i : nat).               (* worker [i] moves on *)

Definition workerCount (c : Config) : nat :=
  Z.to_nat (if Workers c <? 1 then 1 else Workers c).

Definition Run_pipeline (c : Config) : option Pipeline :=
  match Run_pool c with
  | Some s =>
      Some {| pool := s; jobsClosed := false; received := O;
              workers := replicate (workerCount c) WReceive; resultsCh := [] |}
  | None => None
  end.

Definition setWorker (i : nat) (w : Worker) (st : Pipeline) : Pipeline :=
  {| pool := pool st; jobsClosed := jobsClosed st; received := received st;
     workers := <[i := w]> (workers st); resultsCh := resultsCh st |}.

Definition workerStep (r : Runner) (i : nat) (w : Worker) (st : Pipeline)
  : option Pipeline :=
  match w with
  | WReceive =>
      match jobs (pool st) !! received st with
      | Some line =>
          Some {| pool := pool st; jobsClosed := jobsClosed st;
                  received := S (received st);
                  workers := <[i := WSend (processLine r line)]> (workers st);
                  resultsCh := resultsCh st |}
      | None => if jobsClosed st then Some (setWorker i WReturned st) else None
      end
  | WSend (processed :: todo) =>
      Some {| pool := pool st; jobsClosed := jobsClosed st; received := received st;
              workers := <[i := WSend todo]> (workers st);
              resultsCh := resultsCh st ++ [processed] |}
  | WSend [] => Some (setWorker i WReceive st)
  | WReturned => None
  end.

Definition pipeStep (ctx : Context) (pages : Z) (net : Z -> Z -> Attempt)
           (r : Runner) (a : PipeAction) (st : Pipeline) : option Pipeline :=
  match a with
  | Fetch a' =>
      match poolStep ctx pages net a' (pool st) with
      | Some s' =>
          Some {| pool := s'; jobsClosed := jobsClosed st; received := received st;
                  workers := workers st; resultsCh := resultsCh st |}
      | None => None
      end
  | CloseJobs =>
      if poolDone (pool st) && negb (jobsClosed st) then
        Some {| pool := pool st; jobsClosed := true; received := received st;
                workers := workers st; resultsCh := resultsCh st |}
      else None
  | Work i =>
      match workers st !! i with
      | Some w => workerStep r i w st
      | None => None
      end
  end.

Fixpoint pipeRun (ctx : Context) (pages : Z) (net : Z -> Z -> Attempt)
         (r : Runner) (acts : list PipeAction) (st : Pipeline) : option Pipeline :=
  match acts with
  | [] => Some st
  | a :: acts' =>
      match pipeStep ctx pages net r a st with
      | Some st' => pipeRun ctx pages net r acts' st'
      | None => None
      end
  end.

(** [workerWg.Wait()] returns: [jobs] is closed and every worker has
    returned.  [Run] then closes [resultsCh], and the printer has written
    [startPrinter] of all that was sent. *)
Definition pipeDone (st : Pipeline) : bool :=
  jobsClosed st && forallb (fun w => if w is WReturned then true else false) (workers st).

(** The values a worker has still to send for the line it holds. *)
Definition workerAhead (w : Worker) : list string :=
  match w with
  | WSend todo => todo
  | WReceive | WReturned => []
  end.

(** What holds in every state of a run of the pipeline under
    [context.Background()]. *)
Record PipeInv (pages : Z) (net : Z -> Z -> Attempt) (r : Runner) (st : Pipeline)
  : Prop := {
  pipe_pool : PoolInv pages (pool st);
  pipe_safe : PoolSafe pages net (pool st);
  pipe_received : (received st <= length (jobs (pool st)))%nat;
  pipe_results : resultsCh st ++ flat_map workerAhead (workers st)
                 ≡ₚ flat_map (processLine r) (take (received st) (jobs (pool st)));
  pipe_closed : jobsClosed st = true -> poolDone (pool st) = true;
  pipe_returned : forall i, workers st !! i = Some WReturned ->
                  jobsClosed st = true /\ received st = length (jobs (pool st));
  pipe_workers : (0 < length (workers st))%nat
}.

(** The number of steps the pipeline still has to take. *)
Definition lineCost (r : Runner) (line : string) : nat :=
  (2 + length (processLine r line))%nat.

Definition workerCost (w : Worker) : nat :=
  match w with
  | WReceive => 1%nat
  | WSend todo => (2 + length todo)%nat
  | WReturned => O
  end.

Definition linesToCome (pages : Z) (net : Z -> Z -> Attempt) (s : Pool) : list string :=
  flat_map (pageLines net) (pageJobs s)
  ++ flat_map (linesAhead net) (fetchers s)
  ++ flat_map (pageLines net) (seqZ (nextPage s) (pages - nextPage s)).

Definition pipeLeft (pages : Z) (net : Z -> Z -> Attempt) (r : Runner) (st : Pipeline)
  : nat :=
  (stepsLeft pages net (pool st)
   + (if jobsClosed st then 0 else 1)
   + sum_list_with workerCost (workers st)
   + sum_list_with (lineCost r)
       (drop (received st) (jobs (pool st)) ++ linesToCome pages net (pool st)))%nat.

(** A run of the pipeline for the examples: the pool runs [flakySchedule],
    then two workers share the four lines. *)
Definition twoWorkers : Config :=
  {| URLPattern := "h"; OutputFile := ""; OnlyQuery := false;
     OnlyQueryKeys := false; NoQuery := false; ExcludeExt := "";
     IncludeExt := ""; ExcludeDefaults := false; Workers := 2;
     PageWorkers := 2; ExtractPaths := false; Subs := false; Timeout := 80 |}.

Definition pipeSchedule : list PipeAction :=
  List.map Fetch flakySchedule
  ++ [Work 0; Work 1; CloseJobs; Work 1; Work 0; Work 0; Work 1; Work 1;
      Work 1; Work 1; Work 1; Work 0; Work 1; Work 1; Work 1].

(** ** [main.go]: what the runner left behind

    [normalizeURL], which nothing calls any more, and the base domain as
    the monolithic [main] derives it from the [-u] flag when [-subs] is
    set. *)
Definition normalizeURL (u : string) : string :=
  let u := TrimSpace u in
  let u := TrimPrefix u "http://" in
  let u := TrimPrefix u "https://" in
  if negb (Contains u "*") then u +:+ "*" else u.

Definition main_baseDomain (urlFlag : string) (subs : bool) : string :=
  if subs then
    let baseDomain := urlFlag in
    let baseDomain := TrimSpace baseDomain in
    let baseDomain := TrimPrefix baseDomain "http://" in
    let baseDomain := TrimPrefix baseDomain "https://" in
    let baseDomain := ReplaceAll baseDomain "*" "" in
    let idx := IndexAny baseDomain "/:\" in
    let baseDomain :=
      if 0 <=? idx then sliceTo (Z.to_nat idx) baseDomain else baseDomain in
    Trim baseDomain " ."
  else "".

(** The part of [s] before its first byte in [chars]: what
    [if idx := strings.IndexAny(s, chars); idx >= 0 { s = s[:idx] }]
    leaves. *)
Fixpoint upTo (s chars : string) : string :=
  match s with
  | EmptyString => EmptyString
  | String a s' => if inBytes a chars then EmptyString else String a (upTo s' chars)
  end.

Definition withPattern (c : Config) (pattern : string) : Config :=
  {| URLPattern := pattern; OutputFile := OutputFile c;
     OnlyQuery := OnlyQuery c; OnlyQueryKeys := OnlyQueryKeys c;
     NoQuery := NoQuery c; ExcludeExt := ExcludeExt c; IncludeExt := IncludeExt c;
     ExcludeDefaults := ExcludeDefaults c; Workers := Workers c;
     PageWorkers := PageWorkers c; ExtractPaths := ExtractPaths c;
     Subs := Subs c; Timeout := Timeout c |}.

(** *** [Run] with the capacities of its channels and the printer

    [pageJobs] has the capacity [PageWorkers] (without a buffer a send
    needs a fetcher that waits at the channel), [jobs] and [resultsCh] have
    the capacity 2000: a send goes through only while the channel is not
    full.  The printer receives the results one by one, and returns when
    the channel is closed and empty; in subdomain mode with an empty base
    domain it returns at once, without receiving.  [Run] returns when
    [resultsCh] is closed and the printer has returned. *)

Definition chanCap : nat := 2000.

Inductive Printer := PReading | PReturned.

Record Program := {
  pipe : Pipeline;
  resultsClosed : bool;        (* [close(resultsCh)] has run *)
  printed : nat;               (* the results the printer has received *)
  printer : Printer
}.

Inductive ProgAction :=
| Pipe (a : PipeAction)         (* the dispatching loop, a fetcher, a worker *)
| CloseResults                  (* [workerWg.Wait(); close(resultsCh)] *)
| Print.                        (* the printer moves on *)

Definition isReceiving (f : Fetcher) : bool :=
  match f with FReceive => true | _ => false end.

Definition pageJobsReady (c : Config) (s : Pool) : bool :=
  (length (pageJobs s) <? Z.to_nat (PageWorkers c))%nat
  || (PageWorkers c =? 0) && (if pageJobs s is [] then true else false)
     && existsb isReceiving (fetchers s).

(** Can the send of the action go through? *)
Definition sendReady (c : Config) (printed : nat) (a : PipeAction) (st : Pipeline) : bool :=
  match a with
  | Fetch Dispatch => pageJobsReady c (pool st)
  | Fetch Close =>
      negb (PageWorkers c =? 0) || (if pageJobs (pool st) is [] then true else false)
  | Fetch (Step i) =>
      match fetchers (pool st) !! i with
      | Some (FScan _ ((text, _) :: _) _) =>
          negb (nonEmpty (TrimSpace text))
          || (length (jobs (pool st)) - received st <? chanCap)%nat
      | _ => true
      end
  | Work i =>
      match workers st !! i with
      | Some (WSend (_ :: _)) => (length (resultsCh st) - printed <? chanCap)%nat
      | _ => true
      end
  | _ => true
  end.

(** [printSubdomains] returns before its loop. *)
Definition printerQuits (r : Runner) : bool :=
  Subs (cfg r) && String.eqb (baseDomain r) "".

Definition progStep (ctx : Context) (pages : Z) (net : Z -> Z -> Attempt)
           (r : Runner) (a : ProgAction) (P : Program) : option Program :=
  match a with
  | Pipe a' =>
      if sendReady (cfg r) (printed P) a' (pipe P) then
        match pipeStep ctx pages net r a' (pipe P) with
        | Some st' =>
            Some {| pipe := st'; resultsClosed := resultsClosed P;
                    printed := printed P; printer := printer P |}
        | None => None
        end
      else None
  | CloseResults =>
      if pipeDone (pipe P) && negb (resultsClosed P) then
        Some {| pipe := pipe P; resultsClosed := true;
                printed := printed P; printer := printer P |}
      else None
  | Print =>
      match printer P with
      | PReturned => None
      | PReading =>
          if printerQuits r then
            Some {| pipe := pipe P; resultsClosed := resultsClosed P;
                    printed := printed P; printer := PReturned |}
          else
            match resultsCh (pipe P) !! printed P with
            | Some _ =>
                Some {| pipe := pipe P; resultsClosed := resultsClosed P;
                        printed := S (printed P); printer := PReading |}
            | None =>
                if resultsClosed P then
                  Some {| pipe := pipe P; resultsClosed := true;
                          printed := printed P; printer := PReturned |}
                else None
            end
      end
  end.

Fixpoint progRun (ctx : Context) (pages : Z) (net : Z -> Z -> Attempt)
         (r : Runner) (acts : list ProgAction) (P : Program) : option Program :=
  match acts with
  | [] => Some P
  | a :: acts' =>
      match progStep ctx pages net r a P with
      | Some P' => progRun ctx pages net r acts' P'
      | None => None
      end
  end.

Definition Run_program (r : Runner) : option Program :=
  match Run_pipeline (cfg r) with
  | Some st =>
      Some {| pipe := st; resultsClosed := false; printed := O; printer := PReading |}
  | None => None
  end.

(** [printWg.Wait()] returns. *)
Definition progDone (P : Program) : bool :=
  resultsClosed P && (if printer P is PReturned then true else false).

(** What the printer has written so far. *)
Definition written `{CaseTables} (r : Runner) (P : Program) : list string :=
  startPrinter r (take (printed P) (resultsCh (pipe P))).

(** All the values that go through [resultsCh] in a run to the end. *)
Definition allResults (pages : Z) (net : Z -> Z -> Attempt) (r : Runner) : list string :=
  flat_map (processLine r) (flat_map (pageLines net) (seqZ 0 pages)).

(** What holds in every state of a run of the program under
    [context.Background()]. *)
Record ProgInv (pages : Z) (net : Z -> Z -> Attempt) (r : Runner) (P : Program)
  : Prop := {
  prog_pipe : PipeInv pages net r (pipe P);
  prog_printed : (printed P <= length (resultsCh (pipe P)))%nat;
  prog_full : (length (resultsCh (pipe P)) - printed P <= chanCap)%nat;
  prog_closed : resultsClosed P = true -> pipeDone (pipe P) = true;
  prog_returned : printer P = PReturned ->
                  printerQuits r = true
                  \/ (resultsClosed P = true /\ printed P = length (resultsCh (pipe P)));
  prog_quits : printerQuits r = true -> printed P = O
}.

(** The number of steps the program still has to take. *)
Definition resultsLeft (pages : Z) (net : Z -> Z -> Attempt) (r : Runner) (P : Program)
  : nat :=
  (length (resultsCh (pipe P)) - printed P
   + sum_list_with (fun w => length (workerAhead w)) (workers (pipe P))
   + sum_list_with (fun l => length (processLine r l))
       (drop (received (pipe P)) (jobs (pool (pipe P)))
        ++ linesToCome pages net (pool (pipe P))))%nat.

Definition progLeft (pages : Z) (net : Z -> Z -> Attempt) (r : Runner) (P : Program)
  : nat :=
  (pipeLeft pages net r (pipe P)
   + (if resultsClosed P then 0 else 1)
   + match printer P with
     | PReturned => 0
     | PReading => 1 + (if printerQuits r then 0 else resultsLeft pages net r P)
     end)%nat.

(** A run of the program for the examples: [pipeSchedule], with the printer
    receiving in between and at the end. *)
Definition progSchedule : list ProgAction :=
  List.map Pipe (firstn 26 pipeSchedule)
  ++ [Print; Print]
  ++ List.map Pipe (skipn 26 pipeSchedule)
  ++ [CloseResults; Print; Print; Print].

(** A runner whose printer returns at once: [-subs] with the pattern [*]. *)
Definition quittingRunner : Runner :=
  NewRunner (withSinkModes (defaultConfig "*") false true) false.

(** A fetcher or a worker that holds nothing. *)
Definition idleFetcher (f : Fetcher) : bool :=
  match f with FReceive | FReturned => true | FPage _ | FScan _ _ _ => false end.

Definition idleWorker (w : Worker) : bool :=
  match w with WReceive | WReturned => true | WSend _ => false end.

(** An archive for the examples that has one page of 2001 lines. *)
Definition longPageNet (p attempt : Z) : Attempt :=
  Sent (DoOK (respOf 200 (replicate 2001 "http://a.h/x"))).

(** ** [main.go]: [processConcurrently]

    The body of the loop of its workers is the body of [processLine], with
    the parameters in the place of the runner's fields: [workerRunner] is
    the runner that stands for them.  [jobs] has no buffer: a line goes
    from the feeding goroutine to a worker that waits at the channel, in
    one step.  [results] has the capacity [len(lines)]; the calling
    goroutine receives from it all the time.  The state holds what the
    feeding goroutine has still to do, the workers, the buffer of
    [results], and [out]. *)

Definition workerRunner (extRegex : option Regexp)
           (includeMode onlyQuery onlyQueryKeys noQuery : bool) : Runner :=
  {| cfg := withQueryModes (defaultConfig "") onlyQuery onlyQueryKeys noQuery;
     extRegex := extRegex; includeMode := includeMode; baseDomain := "" |}.

Inductive Feeder :=
| Feeding (todo : list string)   (* in the loop [jobs <- l] *)
| Waiting                        (* [close(jobs)] has run: at [wg.Wait()] *)
| FeederDone.                    (* [close(results)] has run *)

Record Conc := {
  feeder : Feeder;
  cworkers : list Worker;
  results : list string;
  out : list string;
  returned : bool
}.

Inductive ConcAction :=
| Hand (i : nat)                (* [jobs <- l], received by worker [i] *)
| CloseJobsC
| WorkC (i : nat)
| CloseResultsC
| Collect                       (* [out = append(out, r)] *)
| Return.

Definition processConcurrently_start (lines : list string) (workers : Z) : Conc :=
  {| feeder := Feeding lines; cworkers := replicate (Z.to_nat workers) WReceive;
     results := []; out := []; returned := false |}.

Definition setCWorker (i : nat) (w : Worker) (st : Conc) : Conc :=
  {| feeder := feeder st; cworkers := <[i := w]> (cworkers st);
     results := results st; out := out st; returned := returned st |}.

Definition setFeeder (f : Feeder) (st : Conc) : Conc :=
  {| feeder := f; cworkers := cworkers st;
     results := results st; out := out st; returned := returned st |}.

(** A send on [results] goes through when the buffer is not full; without
    a buffer it is received at once by the calling goroutine. *)
Definition resultsRoom (cap : nat) (buffer : list string) : bool :=
  (length buffer <? cap)%nat
  || (cap =? 0)%nat && (if buffer is [] then true else false).

Definition concStep (r : Runner) (cap : nat) (a : ConcAction) (st : Conc)
  : option Conc :=
  match a with
  | Hand i =>
      match feeder st, cworkers st !! i with
      | Feeding (l :: todo), Some WReceive =>
          Some {| feeder := Feeding todo;
                  cworkers := <[i := WSend (processLine r l)]> (cworkers st);
                  results := results st; out := out st; returned := returned st |}
      | _, _ => None
      end
  | CloseJobsC =>
      match feeder st with
      | Feeding [] => Some (setFeeder Waiting st)
      | _ => None
      end
  | WorkC i =>
      match cworkers st !! i with
      | Some (WSend (x :: todo)) =>
          if resultsRoom cap (results st) then
            Some {| feeder := feeder st; cworkers := <[i := WSend todo]> (cworkers st);
                    results := results st ++ [x]; out := out st;
                    returned := returned st |}
          else None
      | Some (WSend []) => Some (setCWorker i WReceive st)
      | Some WReceive =>
          match feeder st with
          | Feeding _ => None
          | _ => Some (setCWorker i WReturned st)
          end
      | _ => None
      end
  | CloseResultsC =>
      match feeder st with
      | Waiting =>
          if forallb (fun w => if w is WReturned then true else false) (cworkers st)
          then Some (setFeeder FeederDone st) else None
      | _ => None
      end
  | Collect =>
      if returned st then None
      else match results st with
           | x :: rest =>
               Some {| feeder := feeder st; cworkers := cworkers st; results := rest;
                       out := out st ++ [x]; returned := false |}
           | [] => None
           end
  | Return =>
      match feeder st, results st, returned st with
      | FeederDone, [], false =>
          Some {| feeder := FeederDone; cworkers := cworkers st; results := [];
                  out := out st; returned := true |}
      | _, _, _ => None
      end
  end.

Fixpoint concRun (r : Runner) (cap : nat) (acts : list ConcAction) (st : Conc)
  : option Conc :=
  match acts with
  | [] => Some st
  | a :: acts' =>
      match concStep r cap a st with
      | Some st' => concRun r cap acts' st'
      | None => None
      end
  end.

(** The runs of [processConcurrently lines workers ...]: the result is
    [out] of a state that has [returned]. *)
Definition processConcurrently_run (lines : list string) (workers : Z) (r : Runner)
           (acts : list ConcAction) : option Conc :=
  concRun r (length lines) acts (processConcurrently_start lines workers).

Definition feederTodo (f : Feeder) : list string :=
  match f with Feeding todo => todo | _ => [] end.

Definition feederCost (r : Runner) (f : Feeder) : nat :=
  match f with
  | Feeding todo =>
      (2 + sum_list_with (fun l => 2 + 2 * length (processLine r l)) todo)%nat
  | Waiting => 1%nat
  | FeederDone => O
  end.

Definition cworkerCost (w : Worker) : nat :=
  match w with
  | WReceive => 1%nat
  | WSend todo => (2 + 2 * length todo)%nat
  | WReturned => O
  end.

Definition concLeft (r : Runner) (st : Conc) : nat :=
  (feederCost r (feeder st) + sum_list_with cworkerCost (cworkers st)
   + length (results st) + (if returned st then 0 else 1))%nat.

Record ConcInv (r : Runner) (lines : list string) (st : Conc) : Prop := {
  conc_values : out st ++ results st ++ flat_map workerAhead (cworkers st)
                ++ flat_map (processLine r) (feederTodo (feeder st))
                ≡ₚ flat_map (processLine r) lines;
  conc_returned : forall i, cworkers st !! i = Some WReturned ->
                  forall todo, feeder st <> Feeding todo;
  conc_done : feeder st = FeederDone ->
              forallb (fun w => if w is WReturned then true else false) (cworkers st)
              = true;
  conc_end : returned st = true -> feeder st = FeederDone /\ results st = []
}.

(** A run of [processConcurrently] for the examples: three lines, two
    workers, only-query-keys mode. *)
Definition concSchedule : list ConcAction :=
  [Hand 1; Hand 0; WorkC 1; Collect; WorkC 0; Hand 0; WorkC 1; WorkC 1;
   CloseJobsC; Collect; WorkC 0; WorkC 0; Collect; WorkC 0; WorkC 1;
   CloseResultsC; Return].

(** What the fetchers log for a page: the warnings of [fetchWithRetry],
    and then the error of the page when there is no response, or the
    warning of the scan when it ends with an error.  [logAhead] is what a
    fetcher has still to log for the page it holds. *)
Definition pageEnd (net : Z -> Z -> Attempt) (p : Z) : list LogMsg :=
  match fst (fetchWithRetry (net p) true) with
  | (Some respP, None) =>
      if finalErr (Body respP) is Some e then [WarnRead p e] else []
  | (_, ierr) => [ErrPage p ierr]
  end.

Definition pageLog (net : Z -> Z -> Attempt) (p : Z) : list LogMsg :=
  retryLog net p ++ pageEnd net p.

Definition isRetryWarning (msg : LogMsg) : bool :=
  if msg is WarnRetry _ then true else false.

(** The log of the retry loop: one warning for every attempt that was sent
    and failed, with the error of that attempt, in the order of the
    attempts. *)
Fixpoint retryWarnings (net : Z -> Attempt) (todo : nat) (attempt : Z) : list LogMsg :=
  match todo with
  | O => []
  | S todo' =>
      match net attempt with
      | RequestErr _ => []
      | Sent res =>
          if attemptOK res is Some _ then []
          else WarnRetry (doErr res) :: retryWarnings net todo' (attempt + 1)
      end
  end.

Definition logAhead (net : Z -> Z -> Attempt) (f : Fetcher) : list LogMsg :=
  match f with
  | FPage p => pageLog net p
  | FScan p _ err => if err is Some e then [WarnRead p e] else []
  | FReceive | FReturned => []
  end.

Definition totalLog (pages : Z) (net : Z -> Z -> Attempt) (s : Pool) : list LogMsg :=
  logged s ++ flat_map (pageLog net) (pageJobs s)
  ++ flat_map (logAhead net) (fetchers s)
  ++ flat_map (pageLog net) (seqZ (nextPage s) (pages - nextPage s)).

(** An archive for the examples whose page 1 breaks off after one line. *)
Definition brokenNet (p attempt : Z) : Attempt :=
  if p =? 1 then
    Sent (DoOK {| StatusCode := 200;
                  Body := {| tokens := [("http://h/c", None)];
                             finalErr := Some "unexpected EOF" |} |})
  else flakyNet 1 attempt.

Definition brokenSchedule : list Action :=
  [Dispatch; Dispatch; Close; Step 0; Step 1; Step 0; Step 1; Step 1; Step 1;
   Step 0; Step 1].

(* ===================================================================== *)
(** * Part II: properties *)
(* ===================================================================== *)

(** ** The library functions on known inputs *)

Example TrimSpace_unicode :
  TrimSpace (String (ascii_of_N 194) (String (ascii_of_N 160) " a b "))
            = "a b".
Proof. reflexivity. Qed.

Example Atoi_cases :
  GoStrconv.Atoi "42" = Some 42 /\ GoStrconv.Atoi "+7" = Some 7
  /\ GoStrconv.Atoi "-5" = Some (-5) /\ GoStrconv.Atoi "" = None
  /\ GoStrconv.Atoi "-" = None /\ GoStrconv.Atoi "4 2" = None
  /\ GoStrconv.Atoi "9223372036854775807" = Some 9223372036854775807
  /\ GoStrconv.Atoi "9223372036854775808" = None.
Proof. repeat split; vm_compute; reflexivity. Qed.

Example Parse_http :
  Parse "http://h/p?x=1" =
  Some {| Scheme := "http"; Opaque := ""; User := None; Host := "h"; Path := "/p";
          RawPath := ""; OmitHost := false; ForceQuery := false;
          RawQuery := "x=1"; Fragment := ""; RawFragment := "" |}.
Proof. vm_compute; reflexivity. Qed.

Example Parse_errors :
  Parse ":foo" = None /\ Parse "http://a b.com/" = None
  /\ Parse "http://h/%zz" = None /\ Parse "http://h:x/" = None
  /\ Parse "a:b/c" <> None /\ Parse "1a:b/c" = None.
Proof. repeat split; vm_compute; (reflexivity || discriminate). Qed.

Example Parse_String_round_trips :
  option_map URL_String (Parse "HTTP://user:pw@Host.com:8080/a%20b/c?q=1#frag")
    = Some "http://user:pw@Host.com:8080/a%20b/c?q=1#frag"
  /\ option_map URL_String (Parse "a b/c:d") = Some "a%20b/c:d"
  /\ option_map URL_String (Parse "mailto:x@y.z") = Some "mailto:x@y.z"
  /\ option_map URL_String (Parse "http://h/p?") = Some "http://h/p?"
  /\ option_map URL_String (Parse "//h/p") = Some "//h/p"
  /\ option_map Path (Parse "/a/b.json") = Some "/a/b.json".
Proof. repeat split; vm_compute; reflexivity. Qed.

Example QueryUnescape_cases :
  QueryUnescape "a%20b+c" = Some "a b c" /\ QueryUnescape "%4" = None
  /\ QueryUnescape "%zz" = None /\ QueryUnescape "k" = Some "k".
Proof. repeat split; vm_compute; reflexivity. Qed.

Example normalizeURLForCDX_cases :
  normalizeURLForCDX "https://example.com/path?x" false = "example.com*"
  /\ normalizeURLForCDX " http://*.Example.com:80/ " true = "*.Example.com"
  /\ normalizeURLForCDX "*.example.com" false = "*.example.com"
  /\ NormalizeBaseDomain (defaultConfig "*.example.com") = "example.com"
  /\ NormalizeBaseDomain (defaultConfig "https://example.com/") = "example.com".
Proof. repeat split; vm_compute; reflexivity. Qed.

(** ** Facts about the string functions *)

Section StringFacts.

Lemma inBytes_sliceTo c n s : inBytes c (sliceTo n s) = true -> inBytes c s = true.
Proof.
  revert s; induction n as [|n IH]; intros [|a s]; cbn; try discriminate.
  intros [->|Hc]%orb_true_iff; apply orb_true_iff; auto.
Qed.

Lemma inBytes_sliceFrom c n s : inBytes c (sliceFrom n s) = true -> inBytes c s = true.
Proof.
  revert s; induction n as [|n IH]; intros [|a s]; cbn; auto.
  intros Hc; apply orb_true_iff; auto.
Qed.

Lemma indexAny_from_spec chars s i :
  (indexAny_from i s chars = -1
   /\ forall c, inBytes c s = true -> inBytes c chars = false)
  \/ (exists n : nat, indexAny_from i s chars = i + Z.of_nat n
      /\ forall c, inBytes c (sliceTo n s) = true -> inBytes c chars = false).
Proof.
  revert i; induction s as [|a s IH]; intros i; cbn.
  - left; split; [reflexivity | discriminate].
  - destruct (inBytes a chars) eqn:Ha.
    + right; exists O; split; [lia | cbn; discriminate].
    + destruct (IH (i + 1)) as [[-> Hn] | (n & -> & Hn)].
      * left; split; [reflexivity|].
        intros c [Hc|Hc]%orb_true_iff; [|auto].
        apply Ascii.eqb_eq in Hc; subst; exact Ha.
      * right; exists (S n); split; [lia|].
        cbn; intros c [Hc|Hc]%orb_true_iff; [|auto].
        apply Ascii.eqb_eq in Hc; subst; exact Ha.
Qed.

(** Cutting at [IndexAny] leaves none of the characters. *)
Lemma cut_at_IndexAny chars s c :
  let idx := IndexAny s chars in
  inBytes c (if 0 <=? idx then sliceTo (Z.to_nat idx) s else s) = true ->
  inBytes c chars = false.
Proof.
  cbn; unfold IndexAny.
  destruct (indexAny_from_spec chars s 0) as [[-> Hn] | (n & -> & Hn)].
  - cbn; auto.
  - replace (0 <=? 0 + Z.of_nat n) with true by (symmetry; apply Z.leb_le; lia).
    replace (Z.to_nat (0 + Z.of_nat n)) with n by lia. auto.
Qed.

Lemma HasPrefix_empty s : HasPrefix s "" = true.
Proof. destruct s; reflexivity. Qed.

Lemma append_empty_l s : "" +:+ s = s.
Proof. reflexivity. Qed.

Lemma append_cons x (a b : string) : String x a +:+ b = String x (a +:+ b).
Proof. reflexivity. Qed.

Lemma append_assoc (a b c : string) : (a +:+ b) +:+ c = a +:+ (b +:+ c).
Proof.
  induction a as [|x a IH]; [reflexivity|].
  rewrite !append_cons, IH; reflexivity.
Qed.

Lemma append_empty_r (a : string) : a +:+ "" = a.
Proof.
  induction a as [|x a IH]; [reflexivity|].
  rewrite append_cons, IH; reflexivity.
Qed.

Lemma inBytes_app c a b :
  inBytes c (a +:+ b) = inBytes c a || inBytes c b.
Proof.
  induction a as [|x a IH]; [reflexivity|].
  rewrite append_cons; cbn. rewrite IH, orb_assoc; reflexivity.
Qed.

Lemma HasPrefix_byte a s c :
  HasPrefix (String a s) (String c "") = Ascii.eqb a c.
Proof. cbn. rewrite HasPrefix_empty, andb_true_r; reflexivity. Qed.

Lemma index_from_absent c s i :
  inBytes c s = false -> index_from i s (String c "") = -1.
Proof.
  revert i; induction s as [|a s IH]; intros i; [reflexivity|].
  cbn [inBytes index_from]. rewrite HasPrefix_byte, (Ascii.eqb_sym c a).
  destruct (Ascii.eqb a c); [discriminate|]. cbn. apply IH.
Qed.

Lemma index_from_first c k v i :
  inBytes c k = false ->
  index_from i (k +:+ String c v) (String c "") = i + Z.of_nat (String.length k).
Proof.
  revert i; induction k as [|a k IH]; intros i.
  - intros _. rewrite append_empty_l. cbn [index_from].
    rewrite HasPrefix_byte, Ascii.eqb_refl. cbn; lia.
  - rewrite append_cons. cbn [inBytes index_from String.length].
    rewrite HasPrefix_byte, (Ascii.eqb_sym c a).
    destruct (Ascii.eqb a c); [discriminate|]. cbn [orb].
    intros Hk. rewrite (IH (i + 1) Hk). lia.
Qed.

Lemma sliceTo_app k v : sliceTo (String.length k) (k +:+ v) = k.
Proof.
  induction k as [|a k IH]; [destruct v; reflexivity|].
  rewrite append_cons; cbn. rewrite IH; reflexivity.
Qed.

Lemma sliceFrom_app k v : sliceFrom (String.length k) (k +:+ v) = v.
Proof.
  induction k as [|a k IH]; [destruct v; reflexivity|].
  rewrite append_cons; cbn. exact IH.
Qed.

Lemma length_append (a b : string) :
  String.length (a +:+ b) = (String.length a + String.length b)%nat.
Proof.
  induction a as [|x a IH]; [reflexivity|].
  rewrite append_cons; cbn; rewrite IH; reflexivity.
Qed.

Lemma slice_split n s : sliceTo n s +:+ sliceFrom n s = s.
Proof.
  revert s; induction n as [|n IH]; intros [|a s]; try reflexivity.
  cbn [sliceTo sliceFrom]. rewrite append_cons, IH; reflexivity.
Qed.

Lemma HasSuffix_iff s suffix :
  HasSuffix s suffix = true <-> exists stem, s = stem +:+ suffix.
Proof.
  unfold HasSuffix; split.
  - intros [_ Heq%String.eqb_eq]%andb_true_iff.
    exists (sliceTo (String.length s - String.length suffix) s).
    rewrite <- (slice_split (String.length s - String.length suffix) s) at 1.
    rewrite Heq; reflexivity.
  - intros [stem ->]. rewrite length_append. apply andb_true_iff; split.
    + apply Nat.leb_le; lia.
    + replace (String.length stem + String.length suffix - String.length suffix)%nat
        with (String.length stem) by lia.
      rewrite sliceFrom_app. apply String.eqb_refl.
Qed.

Lemma replace_star s c :
  inBytes c (ReplaceAll s "*" "") = true ->
  inBytes c s = true /\ c <> "*"%char.
Proof.
  unfold ReplaceAll; induction s as [|a s IH]; cbn; [discriminate|].
  destruct (Ascii.eqb_spec a "*") as [->|Ha]; cbn.
  - rewrite HasPrefix_empty, append_empty_l.
    intros Hc; destruct (IH Hc); split; [apply orb_true_iff|]; auto.
  - intros [Hc|Hc]%orb_true_iff.
    + apply Ascii.eqb_eq in Hc; subst c. rewrite Ascii.eqb_refl; auto.
    + destruct (IH Hc); split; [apply orb_true_iff|]; auto.
Qed.

Lemma inBytes_TrimLeft c s cut : inBytes c (TrimLeft s cut) = true -> inBytes c s = true.
Proof.
  induction s as [|a s IH]; cbn; [discriminate|].
  destruct (inBytes a cut); [|auto].
  intros Hc; apply orb_true_iff; auto.
Qed.

Lemma inBytes_TrimRight c s cut : inBytes c (TrimRight s cut) = true -> inBytes c s = true.
Proof.
  induction s as [|a s IH]; cbn; [discriminate|].
  destruct (TrimRight s cut) as [|b t] eqn:E.
  - destruct (inBytes a cut); cbn; [discriminate|].
    rewrite orb_false_r; intros ->; reflexivity.
  - cbn -[inBytes]. cbn. intros [->|Hc]%orb_true_iff; [reflexivity|].
    apply orb_true_iff; right; apply IH; exact Hc.
Qed.

Lemma TrimLeft_head s cut a t : TrimLeft s cut = String a t -> inBytes a cut = false.
Proof.
  induction s as [|b s IH]; cbn; [discriminate|].
  destruct (inBytes b cut) eqn:Hb; [auto|].
  intros [= -> _]; exact Hb.
Qed.

Lemma TrimRight_head s cut a t :
  TrimRight s cut = String a t -> exists t0, s = String a t0.
Proof.
  destruct s as [|b s]; cbn; [discriminate|].
  destruct (TrimRight s cut); [destruct (inBytes b cut); [discriminate|]|];
    intros [= -> _]; eauto.
Qed.

Lemma TrimRight_last s cut t a :
  TrimRight s cut = t +:+ String a "" -> inBytes a cut = false.
Proof.
  revert t; induction s as [|b s IH]; intros t; cbn.
  - destruct t; discriminate.
  - destruct (TrimRight s cut) as [|c r] eqn:E.
    + destruct (inBytes b cut) eqn:Hb.
      * destruct t; discriminate.
      * destruct t as [|x [|y t]]; cbn; try discriminate.
        intros [= ->]; exact Hb.
    + destruct t as [|x t]; cbn; [discriminate|].
      intros [= _ Ht]. eapply IH; eauto.
Qed.

End StringFacts.

(** ** [normalizeURLForCDX] *)

(** *** Patterns of the usual form *)

Lemma hostByte_facts c :
  hostByte c = true ->
  solid c /\ inBytes c "/:\\" = false /\ inBytes c "*" = false /\ inBytes c ":" = false.
Proof.
  unfold solid.
  destruct c as [[] [] [] [] [] [] [] []]; vm_compute; intros Hc;
    first [discriminate Hc | repeat split].
Qed.

Lemma separator_facts c :
  inBytes c "/:\\" = true -> solid c /\ hostByte c = false.
Proof.
  unfold solid.
  destruct c as [[] [] [] [] [] [] [] []]; vm_compute; intros Hc;
    first [discriminate Hc | repeat split].
Qed.

Lemma byte_ascii_neq c n : (byte c <? 128)%N = true -> (128 <= n)%N -> (byte c =? n)%N = false.
Proof. intros Hc Hn. apply N.eqb_neq. apply N.ltb_lt in Hc. lia. Qed.

Lemma space2_ascii_l a b : (byte a <? 128)%N = true -> space2 a b = false.
Proof. intros Ha. unfold space2. rewrite (byte_ascii_neq a) by (exact Ha || lia). reflexivity. Qed.

Lemma space2_ascii_r a b : (byte b <? 128)%N = true -> space2 a b = false.
Proof.
  intros Hb. unfold space2. rewrite !(byte_ascii_neq b) by (exact Hb || lia).
  apply andb_false_r.
Qed.

Lemma space3_ascii_l a b c : (byte a <? 128)%N = true -> space3 a b c = false.
Proof. intros Ha. unfold space3. rewrite !(byte_ascii_neq a) by (exact Ha || lia). reflexivity. Qed.

Lemma space3_ascii_m a b c : (byte b <? 128)%N = true -> space3 a b c = false.
Proof.
  intros Hb. unfold space3. rewrite !(byte_ascii_neq b) by (exact Hb || lia).
  rewrite !andb_false_r. reflexivity.
Qed.

Lemma space3_ascii_r a b c : (byte c <? 128)%N = true -> space3 a b c = false.
Proof.
  intros Hc. unfold space3. rewrite !(byte_ascii_neq c) by (exact Hc || lia).
  apply N.ltb_lt in Hc. destruct (N.leb_spec 128 (byte c)); [lia|].
  cbn [andb orb]. rewrite !andb_false_r. reflexivity.
Qed.

Lemma solid_not_space_rune c t : solid c -> isSpaceRune (String c t) = false.
Proof.
  intros [Hlt Hsp]. destruct t as [|b [|d [|e t]]]; cbn [isSpaceRune].
  - exact Hsp.
  - apply space2_ascii_l, Hlt.
  - apply space3_ascii_l, Hlt.
  - reflexivity.
Qed.

(** A string of two or more bytes with an ASCII byte after the first one
    is no white-space rune. *)
Lemma ascii_inside_not_space_rune a x c t :
  (byte c <? 128)%N = true -> isSpaceRune (String a (x +:+ String c t)) = false.
Proof.
  intros Hlt. destruct x as [|b [|d x]].
  - rewrite append_empty_l. destruct t as [|e [|g t]]; cbn [isSpaceRune].
    + apply space2_ascii_r, Hlt.
    + apply space3_ascii_m, Hlt.
    + reflexivity.
  - rewrite append_cons, append_empty_l. destruct t; cbn [isSpaceRune].
    + apply space3_ascii_r, Hlt.
    + reflexivity.
  - rewrite !append_cons.
    destruct x; [rewrite append_empty_l | rewrite append_cons]; reflexivity.
Qed.

Lemma trimRightSpace_solid c t :
  solid c -> trimRightSpace (String c t) = String c (trimRightSpace t).
Proof.
  intros Hc. cbn [trimRightSpace]. rewrite (solid_not_space_rune c _ Hc). reflexivity.
Qed.

Lemma trimRightSpace_before_solid x c t :
  solid c -> trimRightSpace (x +:+ String c t) = x +:+ String c (trimRightSpace t).
Proof.
  intros Hc. induction x as [|a x IH].
  - rewrite !append_empty_l. apply trimRightSpace_solid. exact Hc.
  - rewrite !append_cons. cbn [trimRightSpace]. rewrite IH.
    rewrite ascii_inside_not_space_rune by apply Hc. reflexivity.
Qed.

Lemma trimLeftSpace_solid c t : solid c -> trimLeftSpace (String c t) = String c t.
Proof.
  intros [Hlt Hsp]. cbn [trimLeftSpace]. rewrite Hsp.
  destruct t as [|b t]; [reflexivity|].
  rewrite (space2_ascii_l c b Hlt).
  destruct t as [|d t]; [reflexivity|].
  rewrite (space3_ascii_l c b d Hlt). reflexivity.
Qed.

Lemma trimRightSpace_prefix s : exists rest, s = trimRightSpace s +:+ rest.
Proof.
  induction s as [|a s [rest IH]]; [exists ""; reflexivity|].
  cbn [trimRightSpace].
  destruct (isSpaceRune (String a (trimRightSpace s))).
  - exists (String a s). reflexivity.
  - exists rest. rewrite append_cons, <- IH. reflexivity.
Qed.

Lemma last_byte (s : string) : s <> "" -> exists t c, s = t +:+ String c "".
Proof.
  induction s as [|a s IH]; [contradiction|]. intros _.
  destruct s as [|b s].
  - exists "", a. reflexivity.
  - destruct IH as (t & c & ->); [discriminate|].
    exists (String a t), c. reflexivity.
Qed.

Lemma HasPrefix_iff s prefix :
  HasPrefix s prefix = true <-> exists rest, s = prefix +:+ rest.
Proof.
  revert s; induction prefix as [|b pre IH]; intros s.
  - split; [exists s; reflexivity | intros _; apply HasPrefix_empty].
  - destruct s as [|a s]; cbn [HasPrefix];
      [split; [discriminate | intros [rest Hr]; discriminate]|].
    rewrite andb_true_iff, IH. split.
    + intros [Ha%Ascii.eqb_eq [rest ->]]. subst. exists rest. reflexivity.
    + intros [rest Hr]. rewrite append_cons in Hr. injection Hr as -> ->.
      split; [apply Ascii.eqb_refl | eauto].
Qed.

Lemma indexAny_from_app chars h c p i :
  (forall x, inBytes x h = true -> inBytes x chars = false) ->
  inBytes c chars = true ->
  indexAny_from i (h +:+ String c p) chars = i + Z.of_nat (String.length h).
Proof.
  revert i; induction h as [|a h IH]; intros i Hh Hc.
  - rewrite append_empty_l. cbn. rewrite Hc. lia.
  - rewrite append_cons. cbn [indexAny_from String.length].
    rewrite (Hh a) by (cbn; rewrite Ascii.eqb_refl; reflexivity).
    rewrite IH; [lia | | exact Hc].
    intros x Hx. apply Hh. cbn. rewrite Hx. apply orb_true_r.
Qed.

Lemma indexAny_from_none chars h i :
  (forall x, inBytes x h = true -> inBytes x chars = false) ->
  indexAny_from i h chars = -1.
Proof.
  revert i; induction h as [|a h IH]; intros i Hh; [reflexivity|].
  cbn. rewrite (Hh a) by (cbn; rewrite Ascii.eqb_refl; reflexivity).
  apply IH. intros x Hx. apply Hh. cbn. rewrite Hx. apply orb_true_r.
Qed.

(** Cutting a host followed by a path or port at the first separator
    gives the host. *)
Lemma cut_host h p :
  (forall c, inBytes c h = true -> hostByte c = true) -> pathOrPort p ->
  let s := h +:+ p in
  (if 0 <=? IndexAny s "/:\\" then sliceTo (Z.to_nat (IndexAny s "/:\\")) s else s) = h.
Proof.
  intros Hh Hp. cbn zeta. unfold IndexAny.
  assert (Hsep : forall x, inBytes x h = true -> inBytes x "/:\\" = false).
  { intros x Hx. apply hostByte_facts, Hh, Hx. }
  destruct Hp as [->|(c & p' & -> & Hc)].
  - rewrite append_empty_r, (indexAny_from_none _ _ _ Hsep). reflexivity.
  - rewrite (indexAny_from_app _ _ _ _ _ Hsep Hc).
    replace (0 <=? 0 + Z.of_nat (String.length h)) with true
      by (symmetry; apply Z.leb_le; lia).
    replace (Z.to_nat (0 + Z.of_nat (String.length h))) with (String.length h) by lia.
    apply sliceTo_app.
Qed.

(** A host followed by a path or port does not begin with a scheme,
    unless the "port" begins with [://]. *)
Lemma host_no_scheme h p k :
  (forall c, inBytes c h = true -> hostByte c = true) -> pathOrPort p ->
  HasPrefix p "://" = false ->
  (forall c, inBytes c k = true -> hostByte c = true) ->
  HasPrefix (h +:+ p) (k +:+ "://") = false.
Proof.
  intros Hh Hp Hno Hk.
  destruct (HasPrefix (h +:+ p) (k +:+ "://")) eqn:Hpre; [|reflexivity].
  exfalso. apply HasPrefix_iff in Hpre as [rest Heq].
  rewrite append_assoc in Heq.
  assert (Hseph : forall x, inBytes x h = true -> inBytes x "/:\\" = false)
    by (intros x Hx; apply hostByte_facts, Hh, Hx).
  assert (Hsepk : forall x, inBytes x k = true -> inBytes x "/:\\" = false)
    by (intros x Hx; apply hostByte_facts, Hk, Hx).
  assert (Hright : indexAny_from 0 (k +:+ "://" +:+ rest) "/:\\"
                   = 0 + Z.of_nat (String.length k))
    by (apply indexAny_from_app; [exact Hsepk | reflexivity]).
  destruct Hp as [->|(c & p' & -> & Hc)].
  - rewrite append_empty_r in Heq. rewrite <- Heq in Hright.
    rewrite (indexAny_from_none _ _ _ Hseph) in Hright. lia.
  - assert (Hleft := indexAny_from_app "/:\\" h c p' 0 Hseph Hc).
    rewrite Heq, Hright in Hleft.
    assert (Hlen : String.length h = String.length k) by lia.
    assert (Hp' : sliceFrom (String.length h) (h +:+ String c p') = String c p')
      by apply sliceFrom_app.
    rewrite Heq, Hlen, sliceFrom_app in Hp'.
    rewrite <- Hp' in Hno.
    assert (Hyes : HasPrefix ("://" +:+ rest) "://" = true)
      by (apply HasPrefix_iff; eauto).
    congruence.
Qed.

Lemma replace_star_absent s :
  inBytes "*" s = false -> ReplaceAll s "*" "" = s.
Proof.
  unfold ReplaceAll. induction s as [|a s IH]; [reflexivity|].
  cbn [replace_go inBytes]. rewrite HasPrefix_byte.
  intros [Ha Hs]%orb_false_iff. rewrite Ascii.eqb_sym in Ha.
  rewrite Ha, (IH Hs). reflexivity.
Qed.

Lemma inBytes_absent (c : ascii) (s : string) :
  (forall x, inBytes x s = true -> inBytes x (String c "") = false) ->
  inBytes c s = false.
Proof.
  intros Hs. destruct (inBytes c s) eqn:Hc; [|reflexivity].
  specialize (Hs c Hc). cbn in Hs. rewrite Ascii.eqb_refl in Hs. discriminate.
Qed.

Lemma TrimSpace_usual scheme h p :
  In scheme [""; "http://"; "https://"] -> hostName h -> pathOrPort p ->
  exists p1, TrimSpace (scheme +:+ h +:+ p) = scheme +:+ h +:+ p1
             /\ pathOrPort p1 /\ (HasPrefix p "://" = false -> HasPrefix p1 "://" = false).
Proof.
  intros Hs (Hne & Hh & _) Hp.
  destruct (last_byte h Hne) as (h' & c & ->).
  assert (Hc : solid c).
  { apply hostByte_facts, Hh. rewrite inBytes_app. cbn [inBytes].
    rewrite Ascii.eqb_refl. apply orb_true_r. }
  assert (Hfirst : exists a t,
             scheme +:+ (h' +:+ String c "") +:+ p = String a t /\ solid a).
  { destruct Hs as [<-|[<-|[<-|[]]]];
      try (eexists _, _; split; [reflexivity | split; reflexivity]).
    rewrite append_empty_l. destruct h' as [|a h'].
    - exists c, p. split; [reflexivity | exact Hc].
    - exists a, ((h' +:+ String c "") +:+ p). split; [reflexivity|].
      apply hostByte_facts, Hh. rewrite !append_cons. cbn [inBytes].
      rewrite Ascii.eqb_refl. reflexivity. }
  destruct Hfirst as (a & t & Hat & Ha).
  unfold TrimSpace. rewrite Hat, (trimLeftSpace_solid a t Ha), <- Hat.
  replace (scheme +:+ (h' +:+ String c "") +:+ p)
    with ((scheme +:+ h') +:+ String c p)
    by (rewrite !append_assoc; reflexivity).
  rewrite (trimRightSpace_before_solid _ c p Hc).
  exists (trimRightSpace p). split; [rewrite !append_assoc; reflexivity|]. split.
  - destruct Hp as [->|(d & p' & -> & Hd)]; [left; reflexivity|].
    rewrite (trimRightSpace_solid d p') by (apply separator_facts, Hd).
    right; eauto.
  - intros Hno. destruct (HasPrefix (trimRightSpace p) "://") eqn:Hpre; [|reflexivity].
    apply HasPrefix_iff in Hpre as [x Hx].
    destruct (trimRightSpace_prefix p) as [rest Hrest].
    rewrite Hx, append_assoc in Hrest.
    assert (Hyes : HasPrefix p "://" = true) by (apply HasPrefix_iff; eauto).
    congruence.
Qed.

Lemma TrimPrefix_app prefix s : TrimPrefix (prefix +:+ s) prefix = s.
Proof.
  unfold TrimPrefix.
  replace (HasPrefix (prefix +:+ s) prefix) with true
    by (symmetry; apply HasPrefix_iff; eauto).
  apply sliceFrom_app.
Qed.

Lemma TrimPrefix_absent prefix s : HasPrefix s prefix = false -> TrimPrefix s prefix = s.
Proof. intros Hs. unfold TrimPrefix. rewrite Hs. reflexivity. Qed.

Lemma scheme_letters k c :
  In k ["http"; "https"] -> inBytes c k = true -> hostByte c = true.
Proof.
  intros [<-|[<-|[]]];
    destruct c as [[] [] [] [] [] [] [] []]; vm_compute; intros Hc;
    first [discriminate Hc | reflexivity].
Qed.

Lemma Contains_absent c s : inBytes c s = false -> Contains s (String c "") = false.
Proof.
  intros Hs. unfold Contains, Index. rewrite (index_from_absent c s 0 Hs). reflexivity.
Qed.

(** On a pattern of the usual form the cleaned host is the host. *)
Lemma normalizeURLForCDX_usual scheme h p :
  In scheme [""; "http://"; "https://"] -> hostName h -> pathOrPort p ->
  HasPrefix p "://" = false ->
  normalizeURLForCDX (scheme +:+ h +:+ p) true = "*." +:+ h
  /\ (inBytes "*" p = false ->
      normalizeURLForCDX (scheme +:+ h +:+ p) false = h +:+ "*").
Proof.
  intros Hs Hhost Hp Hno.
  destruct (TrimSpace_usual scheme h p Hs Hhost Hp) as (p1 & Hts & Hp1 & Hno1).
  specialize (Hno1 Hno). destruct Hhost as (Hne & Hh & Htrim).
  assert (Hhttp : HasPrefix (h +:+ p1) "http://" = false).
  { change "http://" with ("http" +:+ "://").
    apply host_no_scheme; auto. intros c. apply scheme_letters. cbn; auto. }
  assert (Hhttps : HasPrefix (h +:+ p1) "https://" = false).
  { change "https://" with ("https" +:+ "://").
    apply host_no_scheme; auto. intros c. apply scheme_letters. cbn; auto. }
  assert (Hstrip : TrimPrefix (TrimPrefix (scheme +:+ h +:+ p1) "http://") "https://"
                   = h +:+ p1).
  { destruct Hs as [<-|[<-|[<-|[]]]].
    - rewrite append_empty_l.
      rewrite (TrimPrefix_absent "http://") by exact Hhttp.
      apply TrimPrefix_absent. exact Hhttps.
    - rewrite TrimPrefix_app. apply TrimPrefix_absent. exact Hhttps.
    - rewrite (TrimPrefix_absent "http://") by (rewrite !append_cons; reflexivity).
      apply TrimPrefix_app. }
  assert (Hstar : inBytes "*" h = false).
  { destruct (inBytes "*" h) eqn:E; [|reflexivity].
    apply Hh, hostByte_facts in E. destruct E as (_ & _ & E & _). discriminate E. }
  assert (Hclean : forall subs, normalizeURLForCDX (scheme +:+ h +:+ p) subs =
            if subs then "*." +:+ h
            else if negb (Contains (scheme +:+ h +:+ p) "*") then h +:+ "*"
                 else scheme +:+ h +:+ p).
  { intros subs. unfold normalizeURLForCDX. rewrite Hts, Hstrip.
    rewrite (cut_host h p1 Hh Hp1), (replace_star_absent h Hstar), Htrim.
    reflexivity. }
  split; [apply Hclean|].
  intros Hpstar. rewrite Hclean.
  rewrite Contains_absent; [reflexivity|].
  rewrite !inBytes_app, Hstar, Hpstar.
  destruct Hs as [<-|[<-|[<-|[]]]]; reflexivity.
Qed.

Lemma cut_upTo chars s i :
  0 <= i ->
  (if 0 <=? indexAny_from i s chars
   then sliceTo (Z.to_nat (indexAny_from i s chars - i)) s else s) = upTo s chars
  /\ (indexAny_from i s chars = -1 \/ i <= indexAny_from i s chars).
Proof.
  revert i; induction s as [|a s IH]; intros i Hi; cbn [indexAny_from upTo].
  - split; [reflexivity | left; reflexivity].
  - destruct (inBytes a chars).
    + replace (0 <=? i) with true by (symmetry; apply Z.leb_le; lia).
      rewrite Z.sub_diag. split; [reflexivity | right; lia].
    + destruct (IH (i + 1) ltac:(lia)) as [Hcut Hidx].
      destruct (Z.leb_spec 0 (indexAny_from (i + 1) s chars)) as [Hfound|Hnone].
      * destruct Hidx as [Hidx|Hidx]; [lia|]. split; [|right; lia].
        replace (Z.to_nat (indexAny_from (i + 1) s chars - i))
          with (S (Z.to_nat (indexAny_from (i + 1) s chars - (i + 1)))) by lia.
        cbn [sliceTo]. rewrite Hcut. reflexivity.
      * rewrite <- Hcut. split; [reflexivity|]. destruct Hidx as [Hidx|Hidx]; [auto | lia].
Qed.

Lemma IndexAny_upTo chars s :
  (if 0 <=? IndexAny s chars then sliceTo (Z.to_nat (IndexAny s chars)) s else s)
  = upTo s chars.
Proof.
  unfold IndexAny. destruct (cut_upTo chars s 0 ltac:(lia)) as [Hcut _].
  rewrite Z.sub_0_r in Hcut. exact Hcut.
Qed.

(** The part of a string before the first of the bytes [chars], and what
    comes after it. *)
Lemma upTo_split chars s :
  exists rest, s = upTo s chars +:+ rest
    /\ (rest = "" \/ exists c p, rest = String c p /\ inBytes c chars = true).
Proof.
  induction s as [|a s (rest & Hs & Hrest)]; cbn [upTo].
  - exists "". split; [reflexivity | left; reflexivity].
  - destruct (inBytes a chars) eqn:Ha.
    + exists (String a s). split; [reflexivity | right; eauto].
    + exists rest. rewrite append_cons, <- Hs. split; [reflexivity | exact Hrest].
Qed.

Lemma upTo_clean chars s c : inBytes c (upTo s chars) = true -> inBytes c chars = false.
Proof.
  induction s as [|a s IH]; cbn [upTo]; [discriminate|].
  destruct (inBytes a chars) eqn:Ha; [discriminate|].
  cbn [inBytes]. intros [Hc|Hc]%orb_true_iff; [|auto].
  apply Ascii.eqb_eq in Hc as ->. exact Ha.
Qed.

(** [ReplaceAll(s, "*", "")] leaves the other bytes as they are. *)
Lemma replace_star_filter s :
  list_ascii_of_string (ReplaceAll s "*" "")
  = List.filter (fun c => negb (Ascii.eqb c "*")) (list_ascii_of_string s).
Proof.
  unfold ReplaceAll. induction s as [|a s IH]; [reflexivity|].
  cbn [replace_go list_ascii_of_string List.filter]. rewrite HasPrefix_byte.
  destruct (Ascii.eqb a "*"); cbn [negb String.length Nat.sub].
  - rewrite append_empty_l. exact IH.
  - cbn [list_ascii_of_string]. rewrite IH. reflexivity.
Qed.

(** What [TrimLeft], [TrimRight] and [Trim] take away. *)
Lemma TrimLeft_split s cut :
  exists l, s = l +:+ TrimLeft s cut
    /\ forall c, inBytes c l = true -> inBytes c cut = true.
Proof.
  induction s as [|a s (l & Hs & Hl)]; cbn [TrimLeft].
  - exists "". split; [reflexivity | discriminate].
  - destruct (inBytes a cut) eqn:Ha.
    + exists (String a l). rewrite append_cons, <- Hs. split; [reflexivity|].
      intros c. cbn [inBytes]. intros [Hc|Hc]%orb_true_iff; [|auto].
      apply Ascii.eqb_eq in Hc as ->. exact Ha.
    + exists "". split; [reflexivity | discriminate].
Qed.

Lemma TrimRight_split s cut :
  exists r, s = TrimRight s cut +:+ r
    /\ forall c, inBytes c r = true -> inBytes c cut = true.
Proof.
  induction s as [|a s (r & Hs & Hr)]; cbn [TrimRight].
  - exists "". split; [reflexivity | discriminate].
  - destruct (TrimRight s cut) as [|b t] eqn:E.
    + rewrite append_empty_l in Hs. subst r.
      destruct (inBytes a cut) eqn:Ha.
      * exists (String a s). split; [reflexivity|].
        intros c. cbn [inBytes]. intros [Hc|Hc]%orb_true_iff; [|auto].
        apply Ascii.eqb_eq in Hc as ->. exact Ha.
      * exists s. split; [reflexivity | exact Hr].
    + exists r. rewrite append_cons, <- Hs. split; [reflexivity | exact Hr].
Qed.

Lemma Trim_split s cut :
  exists l r, s = l +:+ Trim s cut +:+ r
    /\ (forall c, inBytes c l = true -> inBytes c cut = true)
    /\ (forall c, inBytes c r = true -> inBytes c cut = true).
Proof.
  destruct (TrimLeft_split s cut) as (l & Hs & Hl).
  destruct (TrimRight_split (TrimLeft s cut) cut) as (r & Ht & Hr).
  exists l, r. unfold Trim. rewrite <- Ht. auto.
Qed.

(** The two calls of [TrimPrefix]: what they take away. *)
Lemma strip_schemes x :
  exists pre t,
    x = pre +:+ t
    /\ In pre [""; "http://"; "https://"; "http://https://"]
    /\ (pre = "" -> HasPrefix t "http://" = false /\ HasPrefix t "https://" = false)
    /\ (pre = "http://" -> HasPrefix t "https://" = false)
    /\ TrimPrefix (TrimPrefix x "http://") "https://" = t.
Proof.
  destruct (HasPrefix x "http://") eqn:H1.
  - apply HasPrefix_iff in H1 as [y ->]. rewrite TrimPrefix_app.
    destruct (HasPrefix y "https://") eqn:H2.
    + apply HasPrefix_iff in H2 as [t ->]. rewrite TrimPrefix_app.
      exists "http://https://", t.
      split; [rewrite !append_cons; reflexivity|].
      split; [cbn; auto|]. split; [discriminate|]. split; [discriminate | reflexivity].
    + exists "http://", y. rewrite (TrimPrefix_absent _ _ H2).
      split; [reflexivity|]. split; [cbn; auto|].
      split; [discriminate|]. split; [intros _; exact H2 | reflexivity].
  - rewrite (TrimPrefix_absent _ _ H1).
    destruct (HasPrefix x "https://") eqn:H2.
    + apply HasPrefix_iff in H2 as [t ->]. rewrite TrimPrefix_app.
      exists "https://", t. split; [reflexivity|]. split; [cbn; auto|].
      split; [discriminate|]. split; [discriminate | reflexivity].
    + exists "", x. rewrite (TrimPrefix_absent _ _ H2).
      split; [reflexivity|]. split; [cbn; auto|].
      split; [auto|]. split; [discriminate | reflexivity].
Qed.

(** A description by parts fixes the cleaned host: it is what the steps of
    [normalizeURLForCDX] compute. *)
Lemma upTo_app chars host rest :
  (forall c, inBytes c host = true -> inBytes c chars = false) ->
  rest = "" \/ (exists c p, rest = String c p /\ inBytes c chars = true) ->
  upTo (host +:+ rest) chars = host.
Proof.
  intros Hhost Hrest. induction host as [|a host IH].
  - rewrite append_empty_l. destruct Hrest as [->|(c & p & -> & Hc)]; [reflexivity|].
    cbn [upTo]. rewrite Hc. reflexivity.
  - rewrite append_cons. cbn [upTo].
    rewrite (Hhost a) by (cbn [inBytes]; rewrite Ascii.eqb_refl; reflexivity).
    rewrite IH; [reflexivity|].
    intros c Hc. apply Hhost. cbn [inBytes]. rewrite Hc. apply orb_true_r.
Qed.

Lemma TrimLeft_all s cut :
  (forall c, inBytes c s = true -> inBytes c cut = true) -> TrimLeft s cut = "".
Proof.
  induction s as [|a s IH]; intros Hs; [reflexivity|].
  cbn [TrimLeft]. rewrite (Hs a) by (cbn [inBytes]; rewrite Ascii.eqb_refl; reflexivity).
  apply IH. intros c Hc. apply Hs. cbn [inBytes]. rewrite Hc. apply orb_true_r.
Qed.

Lemma TrimLeft_app_all l s cut :
  (forall c, inBytes c l = true -> inBytes c cut = true) ->
  TrimLeft (l +:+ s) cut = TrimLeft s cut.
Proof.
  induction l as [|a l IH]; intros Hl; [reflexivity|].
  rewrite append_cons. cbn [TrimLeft].
  rewrite (Hl a) by (cbn [inBytes]; rewrite Ascii.eqb_refl; reflexivity).
  apply IH. intros c Hc. apply Hl. cbn [inBytes]. rewrite Hc. apply orb_true_r.
Qed.

Lemma TrimRight_all s cut :
  (forall c, inBytes c s = true -> inBytes c cut = true) -> TrimRight s cut = "".
Proof.
  induction s as [|a s IH]; intros Hs; [reflexivity|].
  cbn [TrimRight]. rewrite IH.
  - rewrite (Hs a) by (cbn [inBytes]; rewrite Ascii.eqb_refl; reflexivity). reflexivity.
  - intros c Hc. apply Hs. cbn [inBytes]. rewrite Hc. apply orb_true_r.
Qed.

Lemma TrimRight_app_all s r cut :
  (forall c, inBytes c r = true -> inBytes c cut = true) ->
  (forall t a, s = t +:+ String a "" -> inBytes a cut = false) ->
  TrimRight (s +:+ r) cut = s.
Proof.
  intros Hr. induction s as [|a s IH]; intros Hs.
  - rewrite append_empty_l. apply TrimRight_all. exact Hr.
  - rewrite append_cons. cbn [TrimRight]. destruct s as [|b s].
    + rewrite append_empty_l, (TrimRight_all r cut Hr).
      rewrite (Hs "" a) by reflexivity. reflexivity.
    + rewrite IH; [reflexivity|].
      intros t c Ht. apply (Hs (String a t) c). rewrite append_cons, <- Ht. reflexivity.
Qed.

Lemma Trim_core l s r cut :
  (forall c, inBytes c l = true -> inBytes c cut = true) ->
  (forall c, inBytes c r = true -> inBytes c cut = true) ->
  (forall a t, s = String a t -> inBytes a cut = false) ->
  (forall t a, s = t +:+ String a "" -> inBytes a cut = false) ->
  Trim (l +:+ s +:+ r) cut = s.
Proof.
  intros Hl Hr Hhead Hlast. unfold Trim. rewrite (TrimLeft_app_all l _ cut Hl).
  destruct s as [|a t].
  - rewrite append_empty_l, (TrimLeft_all r cut Hr). reflexivity.
  - rewrite append_cons. cbn [TrimLeft]. rewrite (Hhead a t eq_refl).
    rewrite <- append_cons. apply TrimRight_app_all; assumption.
Qed.

Lemma list_ascii_of_string_inj (a b : string) :
  list_ascii_of_string a = list_ascii_of_string b -> a = b.
Proof.
  intros Hab. rewrite <- (string_of_list_ascii_of_string a), Hab.
  apply string_of_list_ascii_of_string.
Qed.

Lemma cleanedHost_steps u pre host rest l s r :
  cleanedHost u pre host rest l s r ->
  TrimPrefix (TrimPrefix (TrimSpace u) "http://") "https://" = host +:+ rest
  /\ upTo (host +:+ rest) "/:\\" = host
  /\ ReplaceAll host "*" "" = l +:+ s +:+ r
  /\ Trim (l +:+ s +:+ r) " ." = s.
Proof.
  intros (Hu & Hpre & Hnone & Hhttp & Hhost & Hrest & Hstar & Hl & Hr & Hhead & Hlast).
  split; [|split; [|split]].
  - rewrite Hu. destruct Hpre as [<-|[<-|[<-|[<-|[]]]]].
    + destruct (Hnone eq_refl) as [H1 H2]. rewrite append_empty_l.
      rewrite (TrimPrefix_absent _ _ H1). apply TrimPrefix_absent. exact H2.
    + rewrite TrimPrefix_app. apply TrimPrefix_absent. apply Hhttp. reflexivity.
    + rewrite (TrimPrefix_absent "http://") by (rewrite !append_cons; reflexivity).
      apply TrimPrefix_app.
    + change "http://https://" with ("http://" +:+ "https://").
      rewrite append_assoc, TrimPrefix_app. apply TrimPrefix_app.
  - apply upTo_app; assumption.
  - apply list_ascii_of_string_inj. rewrite Hstar. apply replace_star_filter.
  - apply Trim_core; assumption.
Qed.

(** C2.  What [normalizeURLForCDX] returns, for every pattern [u].  The
    pattern has a cleaned host [s], which its parts describe and fix.  The
    pattern without the white space around it is [pre +:+ host +:+ rest]:
    [pre] is what the two calls of [TrimPrefix] take away, a leading
    [http://] and then a leading [https://], in lower case (no other
    scheme is taken away); [host] goes up to the first slash, colon or
    backslash, and [rest] is what is cut off.  The cleaned host is [host]
    without its wild cards and without the dots and spaces [l] and [r] at
    its ends; it neither begins nor ends with a dot or a space and holds no
    wild card, slash, colon or backslash.  In subdomain mode the result is
    [s] with the wild-card label in front; otherwise, for a pattern without
    wild card, it is [s] with a trailing wild card; a pattern that already
    holds a wild card is returned as the caller wrote it.  When [u] is an
    optional [http://] or [https://], a host name and nothing more or a
    path or port, [s] is the host name. *)
Theorem normalizeURLForCDX_shape (u : string) :
  exists pre host rest l s r : string,
    cleanedHost u pre host rest l s r
    /\ (forall pre' host' rest' l' s' r',
          cleanedHost u pre' host' rest' l' s' r' -> s' = s)
    /\ normalizeURLForCDX u true = "*." +:+ s
    /\ (Contains u "*" = false -> normalizeURLForCDX u false = s +:+ "*")
    /\ (Contains u "*" = true -> normalizeURLForCDX u false = u)
    /\ (forall c, inBytes c s = true -> inBytes c "/:\*" = false)
    /\ (forall a t, s = String a t -> inBytes a " ." = false)
    /\ (forall t a, s = t +:+ String a "" -> inBytes a " ." = false)
    /\ (forall scheme h p,
          u = scheme +:+ h +:+ p ->
          In scheme [""; "http://"; "https://"] -> hostName h -> pathOrPort p ->
          HasPrefix p "://" = false -> s = h).
Proof.
  unfold normalizeURLForCDX.
  destruct (strip_schemes (TrimSpace u)) as (pre & t & Hu & Hpre & Hnone & Hhttp & Heq).
  rewrite Heq, (IndexAny_upTo "/:\\" t).
  destruct (upTo_split "/:\\" t) as (rest & Ht & Hrest).
  set (host := upTo t "/:\\") in *.
  set (s3 := ReplaceAll host "*" "").
  destruct (Trim_split s3 " .") as (l & r & Hs3 & Hl & Hr).
  assert (Hhead : forall a t', Trim s3 " ." = String a t' -> inBytes a " ." = false).
  { intros a t' Ht'. unfold Trim in Ht'.
    destruct (TrimRight_head _ _ _ _ Ht') as [t0 Ht0].
    exact (TrimLeft_head _ _ _ _ Ht0). }
  assert (Hlast : forall t' a, Trim s3 " ." = t' +:+ String a "" -> inBytes a " ." = false).
  { intros t' a Ht'. unfold Trim in Ht'. exact (TrimRight_last _ _ _ _ Ht'). }
  assert (Hclean : cleanedHost u pre host rest l (Trim s3 " .") r).
  { unfold cleanedHost. rewrite <- Ht, <- Hs3.
    split; [exact Hu|]. split; [exact Hpre|]. split; [exact Hnone|].
    split; [exact Hhttp|]. split; [intros c; apply upTo_clean|].
    split; [exact Hrest|]. split; [apply replace_star_filter|]. auto. }
  exists pre, host, rest, l, (Trim s3 " ."), r. cbn [negb].
  split; [exact Hclean|].
  split; [|split; [|split; [|split; [|split; [|split; [|split]]]]]].
  - intros pre' host' rest' l' s' r' Hclean'.
    destruct (cleanedHost_steps _ _ _ _ _ _ _ Hclean') as (H1 & H2 & H3 & H4).
    rewrite Heq in H1. unfold s3, host. rewrite H1, H2, H3. symmetry. exact H4.
  - reflexivity.
  - intros ->. reflexivity.
  - intros ->. reflexivity.
  - intros c Hc. unfold Trim in Hc.
    apply inBytes_TrimRight, inBytes_TrimLeft, replace_star in Hc as [Hc Hstar].
    apply (upTo_clean "/:\\") in Hc.
    cbn in Hc |- *.
    destruct (Ascii.eqb c "/"), (Ascii.eqb c ":"), (Ascii.eqb c "\"); try discriminate.
    cbn. destruct (Ascii.eqb_spec c "*"); [contradiction | reflexivity].
  - exact Hhead.
  - exact Hlast.
  - intros scheme h p Hup Hs Hh Hp Hno.
    destruct (normalizeURLForCDX_usual scheme h p Hs Hh Hp Hno) as [Hsub _].
    unfold normalizeURLForCDX in Hsub. rewrite <- Hup in Hsub.
    rewrite Heq, (IndexAny_upTo "/:\\" t) in Hsub.
    apply (String.app_inj "*.") in Hsub. exact Hsub.
Qed.

(** C2 as claimed fails.  A pattern that holds a wild card is, outside
    subdomain mode, returned as it stands, with its scheme, its path and
    its wild card.  And only [http://] and [https://] in lower case are
    taken away as schemes: of [ftp://example.com] and of
    [HTTP://example.com] the name of the scheme is what is left, the host
    being cut off at the colon. *)
Lemma normalizeURLForCDX_keeps_wildcard_pattern :
  Contains "http://*.example.com/a" "*" = true
  /\ normalizeURLForCDX "http://*.example.com/a" false = "http://*.example.com/a"
  /\ HasPrefix (normalizeURLForCDX "http://*.example.com/a" false) "http://" = true
  /\ inBytes "/" (normalizeURLForCDX "http://*.example.com/a" false) = true
  /\ inBytes "*" (normalizeURLForCDX "http://*.example.com/a" false) = true
  /\ normalizeURLForCDX "ftp://example.com" false = "ftp*"
  /\ normalizeURLForCDX "ftp://example.com" true = "*.ftp"
  /\ normalizeURLForCDX "HTTP://example.com" false = "HTTP*"
  /\ normalizeURLForCDX "http://https://example.com/a" false = "example.com*".
Proof. repeat split; vm_compute; reflexivity. Qed.

(** ** [processLine] *)

Lemma eqb_empty_false s : s <> "" -> String.eqb s "" = false.
Proof. intros Hs; apply String.eqb_neq; exact Hs. Qed.

Lemma nonEmpty_true s : s <> "" -> nonEmpty s = true.
Proof. intros Hs; unfold nonEmpty; rewrite eqb_empty_false; auto. Qed.

(** [processLine], once the line has reached the transform. *)
Lemma processLine_transform r line :
  reachesTransform r line ->
  processLine r line =
    let l := TrimSpace line in
    if OnlyQuery (cfg r) then
      match Parse l with
      | Some u => if nonEmpty (RawQuery u) then [RawQuery u] else []
      | None => []
      end
    else if OnlyQueryKeys (cfg r) then
      match Parse l with
      | Some u =>
          if nonEmpty (RawQuery u)
          then queryKeys (FieldsFunc (RawQuery u) isQuerySep)
          else []
      | None => []
      end
    else
      match NoQuery (cfg r), Parse l with
      | true, Some u => [URL_String (setRawQuery u "")]
      | _, _ => [l]
      end.
Proof.
  intros [Hl Hf]; unfold processLine.
  rewrite (eqb_empty_false _ Hl), Hf; reflexivity.
Qed.

(** C1, as the code has it.  In no-query mode, a line that reaches the
    transform and parses as a URL yields exactly that URL serialised with
    its query cleared; a line that does not parse is passed on as it is,
    trimmed.  So [http://h/p?x=1] yields [http://h/p]. *)
Theorem processLine_no_query (r : Runner) (line : string) :
  OnlyQuery (cfg r) = false -> OnlyQueryKeys (cfg r) = false ->
  NoQuery (cfg r) = true ->
  reachesTransform r line ->
  (forall u, Parse (TrimSpace line) = Some u ->
             processLine r line = [URL_String (setRawQuery u "")])
  /\ (Parse (TrimSpace line) = None -> processLine r line = [TrimSpace line])
  /\ processLine noQueryRunner "http://h/p?x=1" = ["http://h/p"].
Proof.
  intros Hq Hk Hn Hr.
  rewrite (processLine_transform _ _ Hr); cbn zeta; rewrite Hq, Hk, Hn.
  split; [|split].
  - intros u ->; reflexivity.
  - intros ->; reflexivity.
  - vm_compute; reflexivity.
Qed.

Lemma processLine_no_query_witness :
  processLine noQueryRunner " http://h/a%20b?q=1#f " = ["http://h/a%20b#f"]
  /\ processLine noQueryRunner "http://h/p?x=1" = ["http://h/p"].
Proof.
  assert (Hr : reachesTransform noQueryRunner " http://h/a%20b?q=1#f ").
  { split; [vm_compute; discriminate | vm_compute; reflexivity]. }
  destruct (processLine_no_query noQueryRunner " http://h/a%20b?q=1#f "
              eq_refl eq_refl eq_refl Hr) as (Hok & _ & Hex).
  split; [|exact Hex].
  eapply eq_trans; [apply Hok; vm_compute; reflexivity | vm_compute; reflexivity].
Defined.

(** C1 as claimed fails: in no-query mode the line [:] does not parse, and
    it is not dropped but passed on. *)
Lemma processLine_no_query_unparsed_not_dropped :
  OnlyQuery (cfg noQueryRunner) = false
  /\ OnlyQueryKeys (cfg noQueryRunner) = false
  /\ NoQuery (cfg noQueryRunner) = true
  /\ Parse (TrimSpace ":") = None
  /\ processLine noQueryRunner ":" = [":"]
  /\ processLine noQueryRunner ":" <> [].
Proof.
  assert (H : processLine noQueryRunner ":" = [":"]) by (vm_compute; reflexivity).
  repeat split; try reflexivity; try exact H.
  rewrite H; discriminate.
Qed.

(** *** The keys of a raw query *)

Lemma fields_go_spec sep cur s :
  (forall c, inBytes c cur = true -> sep c = false) ->
  FieldsOf sep (cur +:+ s) (fields_go sep cur s).
Proof.
  revert cur; induction s as [|a s IH]; intros cur Hcur; cbn.
  - rewrite append_empty_r. destruct cur as [|x cur]; cbn.
    + constructor.
    + rewrite <- (append_empty_r (String x cur)) at 1.
      constructor; [discriminate | exact Hcur | left; reflexivity | constructor].
  - destruct (sep a) eqn:Ha.
    + assert (Hs : FieldsOf sep (String a s) (fields_go sep "" s)).
      { constructor; [exact Ha|]. apply (IH ""). discriminate. }
      destruct cur as [|x cur]; cbn; [exact Hs|].
      constructor; [discriminate | exact Hcur | right; eauto | exact Hs].
    + replace (cur +:+ String a s) with ((cur +:+ String a "") +:+ s)
        by (rewrite append_assoc; reflexivity).
      apply IH. intros c Hc. rewrite inBytes_app in Hc.
      apply orb_true_iff in Hc as [Hc|Hc]; [auto|].
      cbn in Hc. rewrite orb_false_r in Hc. apply Ascii.eqb_eq in Hc; subst; exact Ha.
Qed.

Lemma FieldsFunc_spec sep s : FieldsOf sep s (FieldsFunc s sep).
Proof. apply (fields_go_spec sep "" s); discriminate. Qed.

Lemma pairKey_with_value k v :
  inBytes "=" k = false ->
  pairKey (k +:+ String "=" v) =
    if String.eqb k "" then None else Some (decodeOrRaw k).
Proof.
  intros Hk. unfold pairKey, Index.
  rewrite (index_from_first "=" k v 0 Hk).
  replace (0 <=? 0 + Z.of_nat (String.length k)) with true
    by (symmetry; apply Z.leb_le; lia).
  replace (Z.to_nat (0 + Z.of_nat (String.length k))) with (String.length k) by lia.
  rewrite sliceTo_app.
  destruct k as [|a k]; [reflexivity|].
  rewrite append_cons. cbn [String.eqb].
  unfold decodeOrRaw. destruct (QueryUnescape (String a k)); reflexivity.
Qed.

Lemma pairKey_without_value p :
  inBytes "=" p = false -> p <> "" -> pairKey p = Some (decodeOrRaw p).
Proof.
  intros Hp Hne. unfold pairKey, Index.
  rewrite (eqb_empty_false _ Hne), (index_from_absent "=" p 0 Hp).
  cbn [Z.leb Z.compare]. rewrite (eqb_empty_false _ Hne).
  unfold decodeOrRaw. destruct (QueryUnescape p); reflexivity.
Qed.

Lemma queryKeys_omap pairs : queryKeys pairs = omap pairKey pairs.
Proof.
  induction pairs as [|p ps IH]; [reflexivity|].
  cbn. destruct (pairKey p); rewrite IH; reflexivity.
Qed.

(** C6, as the code has it.  In only-query-keys mode, for a line whose URL
    has a non-empty raw query, the raw query is cut into its non-empty
    pieces between [&] and [;]; each piece gives the part before its first
    [=] (the whole piece without one), percent-decoded, raw if decoding
    fails; a piece whose key is empty gives nothing; the keys are emitted
    in order, duplicates included.  For [http://h/p?a=1&b=2&a=3] that is
    a, b, a, and a, b after the printer's de-duplication. *)
Theorem processLine_only_query_keys (r : Runner) (line : string) (u : URL) :
  OnlyQuery (cfg r) = false -> OnlyQueryKeys (cfg r) = true ->
  reachesTransform r line ->
  Parse (TrimSpace line) = Some u -> RawQuery u <> "" ->
  (exists pairs,
      FieldsOf isQuerySep (RawQuery u) pairs
      /\ processLine r line = omap pairKey pairs)
  /\ (forall k v, inBytes "=" k = false ->
        pairKey (k +:+ String "=" v) =
          if String.eqb k "" then None else Some (decodeOrRaw k))
  /\ (forall p, inBytes "=" p = false -> p <> "" ->
        pairKey p = Some (decodeOrRaw p))
  /\ processLine queryKeysRunner "http://h/p?a=1&b=2&a=3" = ["a"; "b"; "a"]
  /\ printDefault ["a"; "b"; "a"] = ["a"; "b"].
Proof.
  intros Hq Hk Hr Hu Hne.
  split; [|split; [|split; [|split]]].
  - exists (FieldsFunc (RawQuery u) isQuerySep); split; [apply FieldsFunc_spec|].
    rewrite (processLine_transform _ _ Hr); cbn zeta.
    rewrite Hq, Hk, Hu, (nonEmpty_true _ Hne). apply queryKeys_omap.
  - exact pairKey_with_value.
  - exact pairKey_without_value.
  - vm_compute; reflexivity.
  - vm_compute; reflexivity.
Qed.

Lemma processLine_only_query_keys_witness :
  exists pairs,
    FieldsOf isQuerySep "x=1;;y&%41=2" pairs
    /\ processLine queryKeysRunner "http://h/p?x=1;;y&%41=2" = omap pairKey pairs.
Proof.
  assert (Hr : reachesTransform queryKeysRunner "http://h/p?x=1;;y&%41=2").
  { split; [vm_compute; discriminate | vm_compute; reflexivity]. }
  refine (proj1 (processLine_only_query_keys queryKeysRunner
            "http://h/p?x=1;;y&%41=2"
            {| Scheme := "http"; Opaque := ""; User := None; Host := "h";
               Path := "/p"; RawPath := ""; OmitHost := false;
               ForceQuery := false; RawQuery := "x=1;;y&%41=2";
               Fragment := ""; RawFragment := "" |}
            eq_refl eq_refl Hr _ _)).
  - vm_compute; reflexivity.
  - discriminate.
Defined.

(** C6 as claimed fails: the pair [=1] has the empty string before its
    equals sign; read as the claim words it, the empty key is emitted, but
    [processLine] emits no key for that pair. *)
Lemma processLine_only_query_keys_skips_empty_key :
  OnlyQuery (cfg queryKeysRunner) = false
  /\ OnlyQueryKeys (cfg queryKeysRunner) = true
  /\ reachesTransform queryKeysRunner "http://h/p?=1&b=2"
  /\ option_map RawQuery (Parse (TrimSpace "http://h/p?=1&b=2")) = Some "=1&b=2"
  /\ spec_queryKeys "=1&b=2" = [""; "b"]
  /\ processLine queryKeysRunner "http://h/p?=1&b=2" = ["b"]
  /\ processLine queryKeysRunner "http://h/p?=1&b=2" <> spec_queryKeys "=1&b=2".
Proof.
  assert (H1 : processLine queryKeysRunner "http://h/p?=1&b=2" = ["b"])
    by (vm_compute; reflexivity).
  assert (H2 : spec_queryKeys "=1&b=2" = [""; "b"]) by (vm_compute; reflexivity).
  split; [reflexivity|]. split; [reflexivity|].
  split; [split; [vm_compute; discriminate | vm_compute; reflexivity]|].
  split; [vm_compute; reflexivity|].
  split; [exact H2|]. split; [exact H1|].
  rewrite H1, H2; discriminate.
Qed.

(** *** The extension filter *)

Lemma extMatcher_spec toks path :
  MatchString (extMatcher toks) path = true <->
  exists e stem, In e toks /\ lowerASCII path = stem +:+ "." +:+ lowerASCII e.
Proof.
  cbn. rewrite existsb_exists. split.
  - intros (e & He & [stem Hs]%HasSuffix_iff); eauto.
  - intros (e & stem & He & Hs). exists e; split; [exact He|].
    apply HasSuffix_iff; eauto.
Qed.

Lemma processLine_filtered r line :
  extFiltered r (filterPath (Parse (TrimSpace line)) (TrimSpace line)) = true ->
  processLine r line = [].
Proof.
  intros Hf; unfold processLine.
  destruct (String.eqb (TrimSpace line) ""); [reflexivity|].
  rewrite Hf; reflexivity.
Qed.

Lemma processLine_unfiltered r line :
  extFiltered r (filterPath (Parse (TrimSpace line)) (TrimSpace line)) = false ->
  processLine r line = processLine (withoutFilter r) line.
Proof.
  intros Hf; unfold processLine.
  destruct (String.eqb (TrimSpace line) ""); [reflexivity|].
  rewrite Hf; reflexivity.
Qed.

(** C8.  The extension filter of [processLine] looks at the path of the
    line.  With a matcher in include mode a line whose path does not match
    is dropped and every other line is treated as if there were no filter;
    in exclude mode a line whose path matches is dropped and every other
    line is treated as if there were no filter; without a matcher every
    line is.  The matcher built from a list matches a path exactly when the
    path ends, letter case apart, in a dot and a listed extension; no list
    gives no matcher.  With the include list [json], [/a/b.json] is kept
    and [/a/b.txt] dropped; with the exclude list [png], [/x.png] is
    dropped and [/x.html] kept. *)
Theorem processLine_extension_filter (r : Runner) (line : string) :
  let path := filterPath (Parse (TrimSpace line)) (TrimSpace line) in
  (forall re, extRegex r = Some re -> includeMode r = true ->
     (MatchString re path = false -> processLine r line = [])
     /\ (MatchString re path = true ->
         processLine r line = processLine (withoutFilter r) line))
  /\ (forall re, extRegex r = Some re -> includeMode r = false ->
     (MatchString re path = true -> processLine r line = [])
     /\ (MatchString re path = false ->
         processLine r line = processLine (withoutFilter r) line))
  /\ (extRegex r = None -> processLine r line = processLine (withoutFilter r) line)
  /\ (forall inc exc, extTokens inc <> [] ->
        CompileExtRegex inc exc = (Some (extMatcher (extTokens inc)), true))
  /\ (forall inc exc, extTokens inc = [] -> extTokens exc <> [] ->
        CompileExtRegex inc exc = (Some (extMatcher (extTokens exc)), false))
  /\ (forall inc exc, extTokens inc = [] -> extTokens exc = [] ->
        CompileExtRegex inc exc = (None, false))
  /\ (forall toks p,
        MatchString (extMatcher toks) p = true <->
        exists e stem, In e toks /\ lowerASCII p = stem +:+ "." +:+ lowerASCII e)
  /\ processLine includeJsonRunner "http://h/a/b.json" = ["http://h/a/b.json"]
  /\ processLine includeJsonRunner "http://h/a/B.JSON?x=1" = ["http://h/a/B.JSON?x=1"]
  /\ processLine includeJsonRunner "http://h/a/b.txt" = []
  /\ processLine excludePngRunner "http://h/x.png" = []
  /\ processLine excludePngRunner "http://h/x.html" = ["http://h/x.html"]
  /\ processLine defaultRunner "http://h/x.png" = ["http://h/x.png"].
Proof.
  cbn zeta.
  split; [|split; [|split; [|split; [|split; [|split; [|split]]]]]].
  8: repeat split; vm_compute; reflexivity.
  - intros re Hre Hinc; split; intros Hm.
    + apply processLine_filtered. unfold extFiltered. rewrite Hre, Hinc, Hm; reflexivity.
    + apply processLine_unfiltered. unfold extFiltered. rewrite Hre, Hinc, Hm; reflexivity.
  - intros re Hre Hinc; split; intros Hm.
    + apply processLine_filtered. unfold extFiltered. rewrite Hre, Hinc, Hm; reflexivity.
    + apply processLine_unfiltered. unfold extFiltered. rewrite Hre, Hinc, Hm; reflexivity.
  - intros Hre. apply processLine_unfiltered. unfold extFiltered. rewrite Hre; reflexivity.
  - intros inc exc Hi. unfold CompileExtRegex.
    destruct (extTokens inc); [contradiction | reflexivity].
  - intros inc exc Hi He. unfold CompileExtRegex. rewrite Hi.
    destruct (extTokens exc); [contradiction | reflexivity].
  - intros inc exc Hi He. unfold CompileExtRegex. rewrite Hi, He. reflexivity.
  - apply extMatcher_spec.
Qed.

(** *** Precedence of the modes *)

(** Among the mode flags that are set, the first of only-query,
    only-query-keys, no-query decides what [processLine] does: the result
    is the one of the configuration in which only that flag is set; with no
    flag set the line is passed through. *)
Lemma processLine_modes (r : Runner) (line : string) :
  (OnlyQuery (cfg r) = true ->
     processLine r line =
     processLine (withConfig r (withQueryModes (cfg r) true false false)) line)
  /\ (OnlyQuery (cfg r) = false -> OnlyQueryKeys (cfg r) = true ->
     processLine r line =
     processLine (withConfig r (withQueryModes (cfg r) false true false)) line)
  /\ (OnlyQuery (cfg r) = false -> OnlyQueryKeys (cfg r) = false ->
      NoQuery (cfg r) = true ->
     processLine r line =
     processLine (withConfig r (withQueryModes (cfg r) false false true)) line)
  /\ (OnlyQuery (cfg r) = false -> OnlyQueryKeys (cfg r) = false ->
      NoQuery (cfg r) = false -> reachesTransform r line ->
     processLine r line = [TrimSpace line]).
Proof.
  unfold processLine, extFiltered, reachesTransform; cbn.
  repeat split.
  - intros ->; reflexivity.
  - intros -> ->; reflexivity.
  - intros -> -> ->; reflexivity.
  - intros -> -> -> [Hl Hf]. rewrite (eqb_empty_false _ Hl).
    unfold extFiltered in Hf. rewrite Hf.
    destruct (Parse (TrimSpace line)); reflexivity.
Qed.

(** ** The printers *)

Lemma filter_filter_bool {A} (f g : A -> bool) (l : list A) :
  List.filter f (List.filter g l) = List.filter (fun x => g x && f x) l.
Proof.
  induction l as [|x l IH]; [reflexivity|].
  cbn. destruct (g x); cbn; [destruct (f x)|]; rewrite IH; reflexivity.
Qed.

Lemma filter_all {A} (f : A -> bool) (l : list A) :
  (forall x, f x = true) -> List.filter f l = l.
Proof.
  intros Hf; induction l as [|x l IH]; [reflexivity|].
  cbn. rewrite Hf, IH; reflexivity.
Qed.

Lemma neqb_true (x y : string) : negb (String.eqb y x) = true <-> y <> x.
Proof.
  rewrite negb_true_iff. apply String.eqb_neq.
Qed.

(** The loop with the map of seen values writes the first occurrences of
    the values that were not seen before. *)
Lemma printDefault_loop_firstOccurrences (seen : gset string) (l : list string) :
  printDefault_loop seen l =
  List.filter (fun x => bool_decide (x ∉ seen)) (firstOccurrences l).
Proof.
  revert seen; induction l as [|x l IH]; intros seen; [reflexivity|].
  cbn. rewrite filter_filter_bool.
  destruct (decide (x ∈ seen)) as [Hin|Hout].
  - rewrite bool_decide_eq_false_2 by (intros Hn; exact (Hn Hin)).
    rewrite IH. apply List.filter_ext. intros y.
    destruct (bool_decide_reflect (y ∉ seen)) as [Hy|Hy];
      [|symmetry; apply andb_false_r].
    rewrite andb_true_r. symmetry. apply neqb_true. intros ->; exact (Hy Hin).
  - rewrite bool_decide_eq_true_2 by exact Hout.
    f_equal. rewrite IH. apply List.filter_ext. intros y.
    destruct (String.eqb_spec y x) as [->|Hne]; cbn.
    + apply bool_decide_eq_false_2. set_solver.
    + apply bool_decide_ext. set_solver.
Qed.

Lemma printDefault_firstOccurrences (l : list string) :
  printDefault l = firstOccurrences l.
Proof.
  unfold printDefault. rewrite printDefault_loop_firstOccurrences.
  apply filter_all. intros x. apply bool_decide_eq_true_2. set_solver.
Qed.

Lemma printDefault_loop_app (seen : gset string) (l1 l2 : list string) :
  printDefault_loop seen (l1 ++ l2) =
  printDefault_loop seen l1 ++ printDefault_loop (list_to_set l1 ∪ seen) l2.
Proof.
  revert seen; induction l1 as [|x l1 IH]; intros seen.
  - cbn. f_equal. set_solver.
  - cbn. destruct (decide (x ∈ seen)) as [Hin|Hout].
    + rewrite IH. do 2 f_equal. set_solver.
    + cbn. rewrite IH. do 3 f_equal. set_solver.
Qed.

Lemma firstOccurrences_elem (l : list string) (y : string) :
  y ∈ firstOccurrences l <-> y ∈ l.
Proof.
  rewrite !list_elem_of_In.
  induction l as [|x l IH]; [reflexivity|].
  cbn. rewrite filter_In, IH, neqb_true.
  destruct (String.eqb_spec x y) as [->|Hne]; [tauto|].
  split; [tauto|]. intros [Hx|Hy]; [contradiction|].
  right; split; [exact Hy | congruence].
Qed.

Lemma firstOccurrences_NoDup (l : list string) : NoDup (firstOccurrences l).
Proof.
  induction l as [|x l IH]; cbn; [constructor|].
  constructor.
  - rewrite list_elem_of_In, filter_In, String.eqb_refl. intros [_ Hx]; discriminate.
  - apply NoDup_ListNoDup, List.NoDup_filter, NoDup_ListNoDup. exact IH.
Qed.

(** One more value on the channel: it is written unless it was there
    before. *)
Lemma firstOccurrences_snoc (l : list string) (x : string) :
  firstOccurrences (l ++ [x]) =
  firstOccurrences l ++ (if bool_decide (x ∈ l) then [] else [x]).
Proof.
  rewrite <- !printDefault_firstOccurrences. unfold printDefault.
  rewrite printDefault_loop_app. f_equal. cbn.
  destruct (decide (x ∈ list_to_set l ∪ (∅ : gset string))) as [Hin|Hout].
  - rewrite bool_decide_eq_true_2; [reflexivity|].
    apply elem_of_union in Hin as [Hin|Hin]; [|apply elem_of_empty in Hin; contradiction].
    apply elem_of_list_to_set in Hin; exact Hin.
  - rewrite bool_decide_eq_false_2; [reflexivity|].
    intros Hin; apply Hout, elem_of_union; left.
    apply elem_of_list_to_set; exact Hin.
Qed.

Section PrinterFacts.
Context `{CaseTables}.

Lemma printSubdomains_loop_keys baseLower seen resultsCh :
  printSubdomains_loop baseLower seen resultsCh =
  printDefault_loop seen (omap (subdomainOf baseLower) resultsCh).
Proof.
  revert seen; induction resultsCh as [|res rest IH]; intros seen; [reflexivity|].
  cbn. destruct (subdomainOf baseLower res) as [host|]; cbn; [|apply IH].
  destruct (decide (host ∈ seen)); rewrite IH; reflexivity.
Qed.

Lemma printPaths_segs_keys seen segs :
  printPaths_segs seen segs =
  (printDefault_loop seen (List.filter nonEmpty (List.map TrimSpace segs)),
   list_to_set (List.filter nonEmpty (List.map TrimSpace segs)) ∪ seen).
Proof.
  revert seen; induction segs as [|seg segs IH]; intros seen.
  - cbn. f_equal. set_solver.
  - cbn [printPaths_segs List.map List.filter].
    change (nonEmpty (TrimSpace seg)) with (negb (String.eqb (TrimSpace seg) "")).
    destruct (String.eqb (TrimSpace seg) ""); cbn [negb]; [apply IH|].
    cbn [printDefault_loop].
    destruct (decide (TrimSpace seg ∈ seen)) as [Hin|Hout]; rewrite IH.
    + f_equal. set_solver.
    + f_equal. set_solver.
Qed.

Lemma printPaths_loop_keys seen resultsCh :
  printPaths_loop seen resultsCh =
  printDefault_loop seen (flat_map pathSegments resultsCh).
Proof.
  revert seen; induction resultsCh as [|res rest IH]; intros seen; [reflexivity|].
  cbn. unfold pathSegments at 1.
  destruct (Parse res) as [u|]; [|apply IH].
  destruct (String.eqb (Path u) ""); [apply IH|].
  rewrite printPaths_segs_keys.
  rewrite printDefault_loop_app, IH. reflexivity.
Qed.

Lemma startPrinter_keys (r : Runner) (resultsCh : list string) :
  startPrinter r resultsCh = firstOccurrences (sinkKeys r resultsCh).
Proof.
  rewrite <- printDefault_firstOccurrences.
  unfold startPrinter, sinkKeys, printSubdomains, printPaths.
  destruct (Subs (cfg r)).
  - destruct (String.eqb (baseDomain r) ""); [reflexivity|].
    apply printSubdomains_loop_keys.
  - destruct (ExtractPaths (cfg r)); [apply printPaths_loop_keys | reflexivity].
Qed.

(** C3.  In every mode the printer writes the keys of its mode (the
    lower-cased host in subdomains mode, the trimmed path segment in
    extract-paths mode, the value itself otherwise) without their later
    occurrences: no value is written twice, every key is written, and a
    value arriving on the channel adds to the output only the keys that
    were not there before. *)
Theorem startPrinter_no_duplicates (r : Runner) (resultsCh : list string) :
  startPrinter r resultsCh = firstOccurrences (sinkKeys r resultsCh)
  /\ NoDup (startPrinter r resultsCh)
  /\ (forall k, k ∈ startPrinter r resultsCh <-> k ∈ sinkKeys r resultsCh)
  /\ (forall keys k,
        firstOccurrences (keys ++ [k]) =
        firstOccurrences keys ++ (if bool_decide (k ∈ keys) then [] else [k]))
  /\ startPrinter pathsRunner ["http://h/a/b/a/"] = ["a"; "b"]
  /\ startPrinter defaultRunner ["http://h/x"; "http://h/X"; "http://h/x"]
     = ["http://h/x"; "http://h/X"].
Proof.
  rewrite startPrinter_keys.
  split; [reflexivity|]. split; [apply firstOccurrences_NoDup|].
  split; [intros k; apply firstOccurrences_elem|].
  split; [apply firstOccurrences_snoc|].
  split; vm_compute; reflexivity.
Qed.

Lemma stripPort_with_port h port :
  inBytes ":" h = false -> stripPort (h +:+ String ":" port) = h.
Proof.
  intros Hh. unfold stripPort, Index.
  rewrite (index_from_first ":" h port 0 Hh).
  replace (0 <=? 0 + Z.of_nat (String.length h)) with true
    by (symmetry; apply Z.leb_le; lia).
  replace (Z.to_nat (0 + Z.of_nat (String.length h))) with (String.length h) by lia.
  apply sliceTo_app.
Qed.

Lemma stripPort_without_port h : inBytes ":" h = false -> stripPort h = h.
Proof.
  intros Hh. unfold stripPort, Index.
  rewrite (index_from_absent ":" h 0 Hh). reflexivity.
Qed.

Lemma subdomainOf_spec base res host :
  subdomainOf base res = Some host <->
  exists u, Parse res = Some u
    /\ host = ToLower (TrimSpace (stripPort (Host u)))
    /\ host <> "" /\ host <> base
    /\ exists label, host = label +:+ "." +:+ base.
Proof.
  unfold subdomainOf. destruct (Parse res) as [u|].
  - set (h := ToLower (TrimSpace (stripPort (Host u)))).
    destruct (String.eqb_spec h "") as [He|He]; cbn [orb].
    { split; [discriminate|]. intros (u' & [= <-] & -> & Hne & _). contradiction. }
    destruct (String.eqb_spec h base) as [Hb|Hb].
    { split; [discriminate|]. intros (u' & [= <-] & -> & _ & Hne & _). contradiction. }
    destruct (HasSuffix h ("." +:+ base)) eqn:Hs.
    + apply HasSuffix_iff in Hs. split.
      * intros [= <-]. exists u; auto.
      * intros (u' & [= <-] & -> & _); reflexivity.
    + split; [discriminate|].
      intros (u' & [= <-] & -> & _ & _ & Hl).
      apply HasSuffix_iff in Hl. fold h in Hl. congruence.
  - split; [discriminate|]. intros (u & Hu & _); discriminate.
Qed.

Lemma lowerByte_not_upper a : isUpper (lowerByte a) = false.
Proof. destruct a as [[] [] [] [] [] [] [] []]; vm_compute; reflexivity. Qed.

Lemma lowerASCII_no_upper s c : inBytes c (lowerASCII s) = true -> isUpper c = false.
Proof.
  induction s as [|a s IH]; cbn [lowerASCII inBytes]; [discriminate|].
  intros [Hc|Hc]%orb_true_iff; [|auto].
  apply Ascii.eqb_eq in Hc as ->. apply lowerByte_not_upper.
Qed.

Lemma lowerASCII_length s : String.length (lowerASCII s) = String.length s.
Proof. induction s as [|a s IH]; cbn; congruence. Qed.

Lemma lowerASCII_lower s :
  (forall c, inBytes c s = true -> isUpper c = false) -> lowerASCII s = s.
Proof.
  induction s as [|a s IH]; intros Hs; [reflexivity|].
  cbn [lowerASCII]. rewrite IH.
  - unfold lowerByte. rewrite (Hs a); [reflexivity|].
    cbn [inBytes]. rewrite Ascii.eqb_refl. reflexivity.
  - intros c Hc. apply Hs. cbn [inBytes]. rewrite Hc. apply orb_true_r.
Qed.

(** C7.  In subdomains mode the printer parses every value as a URL, takes
    the host up to its first colon, trimmed and lower-cased, drops it when
    it is empty or equal to the lower-cased base domain, keeps it only when
    it ends in a dot followed by the base domain, and writes each kept
    host once.  Lower-casing an ASCII host replaces its upper-case letters
    and nothing else: the result has the length of the host and no
    upper-case letter, and a host without upper-case letters is left as it
    is.  With the base domain [example.com], [http://a.example.com/x]
    gives [a.example.com]; [http://example.com/x] and
    [http://notexample.com/x] give nothing; [http://A.example.com/x] gives
    [a.example.com], hosts that differ in case only are written once, and
    [http://EXAMPLE.com/x] is dropped as the base domain; the base domain
    [Example.COM] is lower-cased before the comparison. *)
Theorem printSubdomains_strict_subdomains (r : Runner) (resultsCh : list string) :
  (baseDomain r = "" -> printSubdomains r resultsCh = [])
  /\ (baseDomain r <> "" ->
      printSubdomains r resultsCh =
      firstOccurrences (omap (subdomainOf (ToLower (baseDomain r))) resultsCh))
  /\ (forall base res host,
        subdomainOf base res = Some host <->
        exists u, Parse res = Some u
          /\ host = ToLower (TrimSpace (stripPort (Host u)))
          /\ host <> "" /\ host <> base
          /\ exists label, host = label +:+ "." +:+ base)
  /\ (forall h port, inBytes ":" h = false -> stripPort (h +:+ String ":" port) = h)
  /\ (forall h, inBytes ":" h = false -> stripPort h = h)
  /\ (forall h, isASCII h = true ->
        String.length (ToLower h) = String.length h
        /\ (forall c, inBytes c (ToLower h) = true -> isUpper c = false)
        /\ ((forall c, inBytes c h = true -> isUpper c = false) -> ToLower h = h))
  /\ ToLower "A.Example.COM" = "a.example.com"
  /\ baseDomain subsRunner = "example.com"
  /\ startPrinter subsRunner ["http://a.example.com/x"] = ["a.example.com"]
  /\ startPrinter subsRunner ["http://example.com/x"] = []
  /\ startPrinter subsRunner ["http://notexample.com/x"] = []
  /\ startPrinter subsRunner
       ["http://A.Example.com:8080/x"; "https://a.example.com/y"; "http://b.example.com"]
     = ["a.example.com"; "b.example.com"]
  /\ startPrinter subsRunner ["http://A.example.com/x"] = ["a.example.com"]
  /\ startPrinter subsRunner ["http://B.Example.COM/x"; "http://b.EXAMPLE.com/y"]
     = ["b.example.com"]
  /\ startPrinter subsRunner ["http://EXAMPLE.com/x"] = []
  /\ baseDomain (NewRunner (withSinkModes (defaultConfig "Example.COM") false true) false)
     = "Example.COM"
  /\ startPrinter (NewRunner (withSinkModes (defaultConfig "Example.COM") false true) false)
       ["http://a.example.com/x"; "http://example.com/y"]
     = ["a.example.com"].
Proof.
  split; [|split; [|split; [|split; [|split; [|split]]]]].
  - intros Hb. unfold printSubdomains. rewrite Hb. reflexivity.
  - intros Hb. unfold printSubdomains. rewrite (eqb_empty_false _ Hb).
    rewrite printSubdomains_loop_keys. apply printDefault_firstOccurrences.
  - apply subdomainOf_spec.
  - apply stripPort_with_port.
  - apply stripPort_without_port.
  - intros h Hh. unfold ToLower. rewrite Hh.
    split; [apply lowerASCII_length|].
    split; [apply lowerASCII_no_upper | apply lowerASCII_lower].
  - repeat split; vm_compute; reflexivity.
Qed.

(** C10.  When several mode flags are set, one transform is applied, by a
    fixed precedence.  In [processLine] only-query comes before
    only-query-keys, which comes before no-query, which comes before the
    pass-through: the result is the one of the configuration in which only
    the winning flag is set.  In the printer the subdomains mode comes
    before the extract-paths mode, which comes before the plain
    de-duplication. *)
Theorem mode_precedence (r : Runner) (line : string) (resultsCh : list string) :
  (OnlyQuery (cfg r) = true ->
     processLine r line =
     processLine (withConfig r (withQueryModes (cfg r) true false false)) line)
  /\ (OnlyQuery (cfg r) = false -> OnlyQueryKeys (cfg r) = true ->
     processLine r line =
     processLine (withConfig r (withQueryModes (cfg r) false true false)) line)
  /\ (OnlyQuery (cfg r) = false -> OnlyQueryKeys (cfg r) = false ->
      NoQuery (cfg r) = true ->
     processLine r line =
     processLine (withConfig r (withQueryModes (cfg r) false false true)) line)
  /\ (OnlyQuery (cfg r) = false -> OnlyQueryKeys (cfg r) = false ->
      NoQuery (cfg r) = false -> reachesTransform r line ->
     processLine r line = [TrimSpace line])
  /\ (Subs (cfg r) = true ->
      startPrinter r resultsCh = printSubdomains r resultsCh
      /\ startPrinter r resultsCh =
         startPrinter (withConfig r (withSinkModes (cfg r) false true)) resultsCh)
  /\ (Subs (cfg r) = false -> ExtractPaths (cfg r) = true ->
      startPrinter r resultsCh = printPaths resultsCh)
  /\ (Subs (cfg r) = false -> ExtractPaths (cfg r) = false ->
      startPrinter r resultsCh = printDefault resultsCh)
  /\ processLine
       (NewRunner (withQueryModes (defaultConfig "h") true true true) false)
       "http://h/p?a=1&b=2" = ["a=1&b=2"]
  /\ processLine
       (NewRunner (withQueryModes (defaultConfig "h") false true true) false)
       "http://h/p?a=1&b=2" = ["a"; "b"]
  /\ startPrinter
       (NewRunner (withSinkModes (defaultConfig "example.com") true true) false)
       ["http://a.example.com/x/y"] = ["a.example.com"].
Proof.
  destruct (processLine_modes r line) as (H1 & H2 & H3 & H4).
  split; [exact H1|]. split; [exact H2|]. split; [exact H3|]. split; [exact H4|].
  unfold startPrinter; cbn.
  split; [intros ->; split; reflexivity|].
  split; [intros -> ->; reflexivity|].
  split; [intros -> ->; reflexivity|].
  repeat split; vm_compute; reflexivity.
Qed.

End PrinterFacts.

(** ** [fetchPageCount] *)

Lemma firstLine_blank toks final :
  Forall blankToken toks -> firstLine toks final = ("", final).
Proof.
  induction 1 as [|[text err] toks Hb _ IH]; [reflexivity|].
  cbn [firstLine]. unfold blankToken in Hb; cbn [fst] in Hb.
  rewrite Hb. exact IH.
Qed.

Lemma firstLine_first blanks text err rest final :
  Forall blankToken blanks -> TrimSpace text <> "" ->
  firstLine (blanks ++ (text, err) :: rest) final = (TrimSpace text, err).
Proof.
  intros Hb Hne. induction Hb as [|[t e] blanks Ht _ IH].
  - cbn [app firstLine]. rewrite (nonEmpty_true _ Hne). reflexivity.
  - cbn [app firstLine]. unfold blankToken in Ht; cbn [fst] in Ht.
    rewrite Ht. exact IH.
Qed.

(** C4, as the code has it.  When the body has no non-blank line (and the
    scanner reports no error) the resolver returns zero pages, no warning
    and no error, and [Run] ends without starting the pipeline.  When the
    first non-blank line is not accepted by [strconv.Atoi] (a decimal
    integer of the range of [int], with an optional sign) it returns one
    page and the warning; when it is accepted, it returns that number, be
    it negative. *)
Theorem fetchPageCount_result (status : Z) (body : Scanner) :
  let resp := {| StatusCode := status; Body := body |} in
  (Forall blankToken (tokens body) -> finalErr body = None ->
     fetchPageCount None (DoOK resp) = (inr 0, [])
     /\ Run_start None (DoOK resp) = NothingToDo [NoPages])
  /\ (forall blanks text rest,
        tokens body = blanks ++ (text, None) :: rest ->
        Forall blankToken blanks -> TrimSpace text <> "" ->
        (GoStrconv.Atoi (TrimSpace text) = None ->
           fetchPageCount None (DoOK resp) = (inr 1, [WarnPageCount (TrimSpace text)]))
        /\ (forall n, GoStrconv.Atoi (TrimSpace text) = Some n ->
              fetchPageCount None (DoOK resp) = (inr n, [])))
  /\ fetchPageCount None (DoOK (respOf 200 [])) = (inr 0, [])
  /\ fetchPageCount None (DoOK (respOf 200 [""; "  "])) = (inr 0, [])
  /\ fetchPageCount None (DoOK (respOf 200 [""; " 12 "; "x"])) = (inr 12, [])
  /\ fetchPageCount None (DoOK (respOf 200 ["<html>"])) = (inr 1, [WarnPageCount "<html>"])
  /\ fetchPageCount None (DoOK (respOf 200 ["1.5"])) = (inr 1, [WarnPageCount "1.5"])
  /\ fetchPageCount None (DoOK (respOf 200 ["99999999999999999999"]))
     = (inr 1, [WarnPageCount "99999999999999999999"]).
Proof.
  cbn zeta. split; [|split].
  - intros Hb Hf. unfold Run_start, fetchPageCount; cbn [Body].
    rewrite (firstLine_blank _ _ Hb), Hf. split; reflexivity.
  - intros blanks text rest Ht Hb Hne. unfold fetchPageCount; cbn [Body].
    rewrite Ht, (firstLine_first _ _ _ _ _ Hb Hne), (eqb_empty_false _ Hne).
    split; [intros ->; reflexivity | intros n ->; reflexivity].
  - repeat split; vm_compute; reflexivity.
Qed.

(** C4 as claimed fails: [-5] is no non-negative integer, yet the resolver
    takes it as the page count, without a warning. *)
Lemma fetchPageCount_accepts_negative :
  spec_nonNegativeInt "-5" = None
  /\ fetchPageCount None (DoOK (respOf 200 ["-5"])) = (inr (-5), [])
  /\ fetchPageCount None (DoOK (respOf 200 ["-5"])) <> (inr 1, [WarnPageCount "-5"]).
Proof.
  assert (H : fetchPageCount None (DoOK (respOf 200 ["-5"])) = (inr (-5), []))
    by (vm_compute; reflexivity).
  split; [reflexivity|]. split; [exact H|]. rewrite H. discriminate.
Qed.

(** ** [fetchWithRetry] *)

Section Retry.
Variable net : Z -> Attempt.
Variable hasCounter : bool.

Lemma afterFailure_no_do k res : List.filter isDo (afterFailure k res hasCounter) = [].
Proof.
  unfold afterFailure. destruct (doResp res), hasCounter; reflexivity.
Qed.

Lemma afterFailure_not_do j k res : ~ In (EvDo j) (afterFailure k res hasCounter).
Proof.
  unfold afterFailure. destruct (doResp res), hasCounter; cbn; intuition discriminate.
Qed.

Lemma filter_app_bool {A} (f : A -> bool) (l1 l2 : list A) :
  List.filter f (l1 ++ l2) = List.filter f l1 ++ List.filter f l2.
Proof.
  induction l1 as [|x l1 IH]; [reflexivity|].
  cbn. destruct (f x); cbn; rewrite IH; reflexivity.
Qed.

Lemma retry_loop_do_count todo a ierr :
  (length (List.filter isDo (snd (retry_loop net hasCounter todo a ierr))) <= todo)%nat.
Proof.
  revert a ierr; induction todo as [|todo IH]; intros a ierr; cbn; [lia|].
  destruct (net a) as [e|res]; cbn; [lia|].
  destruct (attemptOK res); cbn; [lia|].
  specialize (IH (a + 1) (doErr res)).
  destruct (retry_loop net hasCounter todo (a + 1) (doErr res)) as [out evs].
  cbn in *. rewrite filter_app_bool, afterFailure_no_do. cbn. lia.
Qed.

Lemma failedFrom_step a k res :
  net a = Sent res -> attemptOK res = None -> a < k ->
  (failedFrom net a k <-> failedFrom net (a + 1) k).
Proof.
  intros Hn Ha Hk; split; intros Hf j Hj.
  - apply Hf; lia.
  - destruct (Z.eq_dec j a) as [->|Hne]; [eauto|]. apply Hf; lia.
Qed.

Lemma retry_loop_do todo a ierr k :
  In (EvDo k) (snd (retry_loop net hasCounter todo a ierr)) ->
  a <= k < a + Z.of_nat todo /\ failedFrom net a k /\ exists res, net k = Sent res.
Proof.
  revert a ierr; induction todo as [|todo IH]; intros a ierr; cbn; [contradiction|].
  destruct (net a) as [e|res] eqn:Hn; cbn; [contradiction|].
  destruct (attemptOK res) eqn:Ha; cbn.
  - intros [[= <-]|[]]. split; [lia|]. split; [intros j Hj; lia | eauto].
  - specialize (IH (a + 1) (doErr res)).
    destruct (retry_loop net hasCounter todo (a + 1) (doErr res)) as [out evs].
    cbn in *. intros [[= <-]|Hin].
    + split; [lia|]. split; [intros j Hj; lia | eauto].
    + apply in_app_or in Hin as [Hin|Hin]; [destruct (afterFailure_not_do _ _ _ Hin)|].
      destruct (IH Hin) as (Hk & Hf & Hres).
      split; [lia|]. split; [|exact Hres].
      apply (failedFrom_step a k res Hn Ha); [lia | exact Hf].
Qed.

Lemma retry_loop_success todo a ierr resp :
  fst (fst (retry_loop net hasCounter todo a ierr)) = Some resp <->
  exists k res, a <= k < a + Z.of_nat todo /\ failedFrom net a k
                /\ net k = Sent res /\ attemptOK res = Some resp.
Proof.
  revert a ierr; induction todo as [|todo IH]; intros a ierr; cbn.
  - split; [discriminate|]. intros (k & res & Hk & _); lia.
  - destruct (net a) as [e|res] eqn:Hn; cbn.
    + split; [discriminate|]. intros (k & res & Hk & Hf & Hs & _).
      destruct (Z.eq_dec k a) as [->|Hne]; [congruence|].
      destruct (Hf a) as (r & Hr & _); [lia | congruence].
    + destruct (attemptOK res) as [r|] eqn:Ha; cbn.
      * split.
        -- intros [= ->]. exists a, res. split; [lia|].
           split; [intros j Hj; lia | auto].
        -- intros (k & res' & Hk & Hf & Hs & Hok).
           destruct (Z.eq_dec k a) as [->|Hne]; [congruence|].
           destruct (Hf a) as (r' & Hr & Hr'); [lia | congruence].
      * specialize (IH (a + 1) (doErr res)).
        destruct (retry_loop net hasCounter todo (a + 1) (doErr res)) as [[o e] evs].
        cbn in *. rewrite IH. split.
        -- intros (k & res' & Hk & Hf & Hs & Hok). exists k, res'.
           split; [lia|]. split; [|auto].
           apply (failedFrom_step a k res Hn Ha); [lia | exact Hf].
        -- intros (k & res' & Hk & Hf & Hs & Hok).
           destruct (Z.eq_dec k a) as [->|Hne]; [congruence|].
           exists k, res'. split; [lia|]. split; [|auto].
           apply (failedFrom_step a k res Hn Ha); [lia | exact Hf].
Qed.

Lemma retry_loop_failed_attempt todo a ierr k res :
  a <= k < a + Z.of_nat todo -> failedFrom net a k -> net k = Sent res ->
  attemptOK res = None ->
  exists before after,
    snd (retry_loop net hasCounter todo a ierr) =
    before ++ EvDo k :: afterFailure k res hasCounter ++ after.
Proof.
  revert a ierr; induction todo as [|todo IH]; intros a ierr Hk Hf Hs Hok; [lia|].
  cbn. destruct (Z.eq_dec k a) as [->|Hne].
  - rewrite Hs, Hok.
    destruct (retry_loop net hasCounter todo (a + 1) (doErr res)) as [out evs].
    exists [], evs. reflexivity.
  - destruct (Hf a) as (r & Hr & Hr'); [lia|]. rewrite Hr, Hr'.
    destruct (IH (a + 1) (doErr r)) as (before & after & Hev);
      [lia | apply (failedFrom_step a k r Hr Hr'); [lia | exact Hf] | exact Hs | exact Hok |].
    destruct (retry_loop net hasCounter todo (a + 1) (doErr r)) as [out evs].
    cbn in Hev |- *. rewrite Hev.
    exists (EvDo a :: afterFailure a r hasCounter ++ before), after.
    cbn. rewrite <- app_assoc. reflexivity.
Qed.

Lemma attemptOK_spec res resp :
  attemptOK res = Some resp <-> res = DoOK resp /\ 200 <= StatusCode resp < 300.
Proof.
  destruct res as [r|e r]; cbn.
  - destruct (Z.leb_spec 200 (StatusCode r)), (Z.ltb_spec (StatusCode r) 300); cbn;
      (split;
       [ intros Hx;
         first [discriminate Hx | injection Hx as ->; split; [reflexivity | lia]]
       | intros [Hx ?]; injection Hx as ->; first [reflexivity | lia] ]).
  - split; [discriminate | intros [[=] _]].
Qed.

(** C5.  [fetchWithRetry] makes at most three attempts, numbered 1, 2, 3
    in order, each only after the failure of all attempts before it.  It
    returns a response exactly when one of these attempts is answered
    without transport error by a response whose status is in the 2xx
    range.  After each failed attempt the body of the response, if there is
    one, is closed, a warning is logged, the bar is rendered and the worker
    sleeps for as many seconds as the number of the attempt: 1, 2 and 3. *)
Theorem fetchWithRetry_bounded_retry :
  let out := fetchWithRetry net hasCounter in
  Z.of_nat (length (List.filter isDo (snd out))) <= maxRetries
  /\ (forall k, In (EvDo k) (snd out) ->
        1 <= k <= maxRetries /\ attemptMade net k /\ exists res, net k = Sent res)
  /\ (forall resp,
        fst (fst out) = Some resp <->
        exists k res, 1 <= k <= maxRetries /\ attemptMade net k
                      /\ net k = Sent res /\ attemptOK res = Some resp)
  /\ (forall res resp,
        attemptOK res = Some resp <->
        res = DoOK resp /\ 200 <= StatusCode resp < 300)
  /\ (forall k res,
        1 <= k <= maxRetries -> attemptMade net k -> net k = Sent res ->
        attemptOK res = None ->
        exists before after,
          snd out =
          before ++ EvDo k
            :: (if doResp res is Some _ then [EvClose] else [])
            ++ [EvLog (WarnRetry (doErr res))]
            ++ (if hasCounter then [EvRender] else [])
            ++ [EvSleep k] ++ after)
  /\ (forall r1 r2 r3,
        net 1 = Sent r1 -> net 2 = Sent r2 -> net 3 = Sent r3 ->
        attemptOK r1 = None -> attemptOK r2 = None -> attemptOK r3 = None ->
        fst out = (None, doErr r3)
        /\ List.filter isDo (snd out) = [EvDo 1; EvDo 2; EvDo 3]
        /\ List.filter (fun e => if e is EvSleep _ then true else false) (snd out)
           = [EvSleep 1; EvSleep 2; EvSleep 3]).
Proof.
  cbn zeta. unfold fetchWithRetry, attemptMade.
  change (Z.to_nat maxRetries) with 3%nat. change maxRetries with 3.
  split; [|split; [|split; [|split; [|split]]]].
  - pose proof (retry_loop_do_count 3 1 None). lia.
  - intros k Hin. apply retry_loop_do in Hin as (Hk & Hf & Hres).
    split; [lia|]. split; [exact Hf | exact Hres].
  - intros resp. rewrite retry_loop_success. split.
    + intros (k & res & Hk & Hf & Hs & Hok). exists k, res.
      split; [lia|]. split; [exact Hf|]. auto.
    + intros (k & res & Hk & Hf & Hs & Hok). exists k, res.
      split; [lia|]. split; [exact Hf|]. auto.
  - apply attemptOK_spec.
  - intros k res Hk Hf Hs Hok.
    destruct (retry_loop_failed_attempt 3 1 None k res) as (before & after & Hev);
      [lia | exact Hf | exact Hs | exact Hok |].
    exists before, after. rewrite Hev. unfold afterFailure.
    rewrite <- !app_assoc. reflexivity.
  - intros r1 r2 r3 N1 N2 N3 A1 A2 A3. cbn [retry_loop].
    rewrite N1, A1. change (1 + 1) with 2. rewrite N2, A2.
    change (2 + 1) with 3. rewrite N3, A3. cbn [fst snd].
    split; [reflexivity|]. unfold afterFailure.
    destruct (doResp r1), (doResp r2), (doResp r3), hasCounter; split; reflexivity.
Qed.

End Retry.

(** ** The page fetchers and the progress counter *)

Lemma int32_succ z : int32 (int32 z + 1) = int32 (z + 1).
Proof.
  unfold int32.
  replace ((z + 2 ^ 31) mod 2 ^ 32 - 2 ^ 31 + 1 + 2 ^ 31)
    with ((z + 2 ^ 31) mod 2 ^ 32 + 1) by lia.
  rewrite Zplus_mod_idemp_l. f_equal. f_equal. lia.
Qed.

Lemma int32_small z : - 2 ^ 31 <= z <= 2 ^ 31 - 1 -> int32 z = z.
Proof.
  intros Hz. unfold int32. rewrite Z.mod_small; lia.
Qed.

Lemma fetchers_split (fs : list Fetcher) i f f' :
  fs !! i = Some f ->
  exists l1 l2, fs = l1 ++ f :: l2 /\ <[i := f']> fs = l1 ++ f' :: l2.
Proof.
  intros Hi. exists (take i fs), (drop (S i) fs). split.
  - symmetry. apply take_drop_middle. exact Hi.
  - apply insert_take_drop. apply lookup_lt_Some in Hi. exact Hi.
Qed.

Lemma inflight_app l1 l2 : inflight (l1 ++ l2) = inflight l1 ++ inflight l2.
Proof. unfold inflight. apply flat_map_app. Qed.

(** Replacing a fetcher moves the page it holds. *)
Lemma inflight_insert (fs : list Fetcher) i f f' :
  fs !! i = Some f ->
  inflight (<[i := f']> fs) ++ holding f ≡ₚ inflight fs ++ holding f'.
Proof.
  intros Hi. destruct (fetchers_split fs i f f' Hi) as (l1 & l2 & -> & ->).
  rewrite !inflight_app. cbn [inflight flat_map].
  fold (inflight l2). solve_Permutation.
Qed.

Lemma inflight_insert_same (fs : list Fetcher) i f f' :
  fs !! i = Some f -> holding f = holding f' ->
  inflight (<[i := f']> fs) = inflight fs.
Proof.
  intros Hi Hh. destruct (fetchers_split fs i f f' Hi) as (l1 & l2 & -> & ->).
  rewrite !inflight_app. cbn [inflight flat_map]. rewrite Hh. reflexivity.
Qed.

Lemma returned_insert (fs : list Fetcher) i f j :
  f <> FReturned -> <[i := f]> fs !! j = Some FReturned -> fs !! j = Some FReturned.
Proof.
  intros Hf Hj. apply list_lookup_insert_Some in Hj as [(_ & Heq & _)|[_ Hj]];
    [congruence | exact Hj].
Qed.

Lemma inflight_returned (fs : list Fetcher) :
  forallb (fun f => if f is FReturned then true else false) fs = true ->
  inflight fs = [].
Proof.
  induction fs as [|f fs IH]; [reflexivity|].
  cbn. intros [Hf Hfs]%andb_true_iff. destruct f; try discriminate.
  cbn. apply IH. exact Hfs.
Qed.

Lemma inflight_replicate n : inflight (replicate n FReceive) = [].
Proof. induction n as [|n IH]; [reflexivity | exact IH]. Qed.

Lemma startPool_inv c pages : PoolInv pages (startPool c).
Proof.
  split; cbn [startPool ctxDone nextPage closed pageJobs fetchers pagesCompleted counted].
  - reflexivity.
  - lia.
  - discriminate.
  - rewrite inflight_replicate. reflexivity.
  - reflexivity.
  - intros i Hi. apply lookup_replicate in Hi as [Hi _]. discriminate.
  - rewrite length_replicate. unfold pageConcurrency.
    destruct (Z.ltb_spec (PageWorkers c) 1); lia.
Qed.

Lemma countPage_inv pages s i p log f :
  PoolInv pages s -> fetchers s !! i = Some f -> holding f = [p] ->
  PoolInv pages (countPage i p log s).
Proof.
  intros [Hc Hn Hcl Hp Hk Hr Hf] Hi Hh.
  pool_fields; [exact Hc | exact Hn | exact Hcl | | | | ].
  - rewrite <- Hp.
    pose proof (inflight_insert (fetchers s) i f FReceive Hi) as Hperm.
    rewrite Hh in Hperm. cbn [holding] in Hperm. rewrite app_nil_r in Hperm.
    rewrite <- Hperm. solve_Permutation.
  - rewrite Hk, int32_succ, length_app. cbn. f_equal. lia.
  - intros j Hj. apply Hr with j. eapply returned_insert; [|exact Hj]. discriminate.
  - rewrite length_insert. exact Hf.
Qed.

Lemma setFetcher_inv pages s i f f' :
  PoolInv pages s -> fetchers s !! i = Some f -> holding f = holding f' ->
  f' <> FReturned ->
  PoolInv pages (setFetcher i f' s).
Proof.
  intros [Hc Hn Hcl Hp Hk Hr Hf] Hi Hh Hne.
  pool_fields; [exact Hc | exact Hn | exact Hcl | | exact Hk | | ].
  - erewrite inflight_insert_same; [exact Hp | exact Hi | exact Hh].
  - intros j Hj. apply Hr with j. eapply returned_insert; [exact Hne | exact Hj].
  - rewrite length_insert. exact Hf.
Qed.

Lemma poolStep_inv pages net a s s' :
  PoolInv pages s -> poolStep Background pages net a s = Some s' -> PoolInv pages s'.
Proof.
  intros Hinv Hstep. pose proof Hinv as [Hc Hn Hcl Hp Hk Hr Hf].
  destruct a as [| | |i]; cbn in Hstep.
  - (* the dispatching loop sends the next page *)
    destruct (Z.ltb_spec (nextPage s) pages); [|discriminate].
    destruct (closed s) eqn:Hclosed; [discriminate|].
    injection Hstep as <-.
    pool_fields; [exact Hc | lia | discriminate | | exact Hk | | exact Hf].
    + rewrite (seqZ_app 0 (nextPage s) 1) by lia. cbn.
      rewrite <- Hp. solve_Permutation.
    + intros i Hi. destruct (Hr i Hi) as [Hx _]. discriminate.
  - (* the channel is closed *)
    destruct (Z.leb_spec pages (nextPage s)); [|discriminate].
    destruct (closed s) eqn:Hclosed; [discriminate|].
    injection Hstep as <-.
    pool_fields; [exact Hc | exact Hn | intros _; lia | exact Hp | exact Hk | | exact Hf].
    intros i Hi. destruct (Hr i Hi) as [Hx _]. discriminate.
  - discriminate.
  - (* fetcher [i] *)
    destruct (fetchers s !! i) as [f|] eqn:Hi; [|discriminate].
    destruct f as [|p|p todo err|]; cbn in Hstep.
    + destruct (pageJobs s) as [|p rest] eqn:Hjobs.
      * destruct (closed s) eqn:Hclosed; [|discriminate].
        injection Hstep as <-.
        assert (Hin : inflight (<[i:=FReturned]> (fetchers s)) = inflight (fetchers s))
          by (eapply inflight_insert_same; [exact Hi | reflexivity]).
        pool_fields; [exact Hc | exact Hn | | | exact Hk | | ].
        -- intros _. apply Hcl. reflexivity.
        -- rewrite Hjobs, Hin. exact Hp.
        -- intros j Hj. rewrite Hclosed, Hjobs. split; reflexivity.
        -- rewrite length_insert. exact Hf.
      * injection Hstep as <-.
        pool_fields; [exact Hc | exact Hn | exact Hcl | | exact Hk | | ].
        -- rewrite <- Hp.
           pose proof (inflight_insert (fetchers s) i FReceive (FPage p) Hi) as Hperm.
           cbn [holding] in Hperm. rewrite app_nil_r in Hperm.
           rewrite Hperm. solve_Permutation.
        -- intros j Hj. apply returned_insert in Hj; [|discriminate].
           destruct (Hr j Hj) as [_ Hx]. discriminate.
        -- rewrite length_insert. exact Hf.
    + rewrite Hc in Hstep.
      destruct (fst (fetchWithRetry (net p) true)) as [[respP|] [ierr|]];
        injection Hstep as <-;
        first [ eapply countPage_inv; [exact Hinv | exact Hi | reflexivity]
              | pose proof (setFetcher_inv pages s i _
                              (FScan p (tokens (Body respP)) (finalErr (Body respP)))
                              Hinv Hi eq_refl ltac:(discriminate))
                  as [? ? ? ? ? ? ?];
                pool_fields; first [assumption | reflexivity] ].
    + destruct todo as [|[text e] todo]; injection Hstep as <-.
      * eapply countPage_inv; [exact Hinv | exact Hi | reflexivity].
      * pool_fields; [exact Hc | exact Hn | exact Hcl | | exact Hk | | ].
        -- erewrite inflight_insert_same; [exact Hp | exact Hi | reflexivity].
        -- intros j Hj. apply Hr with j. eapply returned_insert; [|exact Hj]. discriminate.
        -- rewrite length_insert. exact Hf.
    + discriminate.
Qed.

Lemma poolRun_inv pages net acts s s' :
  PoolInv pages s -> poolRun Background pages net acts s = Some s' -> PoolInv pages s'.
Proof.
  revert s; induction acts as [|a acts IH]; intros s Hinv; cbn.
  - intros [= <-]. exact Hinv.
  - destruct (poolStep Background pages net a s) as [s1|] eqn:Hstep; [|discriminate].
    apply IH. eapply poolStep_inv; eauto.
Qed.

(** C9.  In a run of the fetcher pool under the background context, once
    the page channel is closed and every fetcher has returned, the pages
    for which the counter was incremented are exactly the pages 0, ...,
    [pages - 1], each once, whether the page was drained or abandoned after
    its last attempt; so the counter, an [int32], holds the number of
    pages. *)
Theorem pool_counts_every_page_once (c : Config) (pages : Z)
        (net : Z -> Z -> Attempt) (acts : list Action) (s0 s : Pool) :
  Run_pool c = Some s0 ->
  poolRun Background pages net acts s0 = Some s ->
  poolDone s = true ->
  counted s ≡ₚ seqZ 0 pages
  /\ pagesCompleted s = int32 (Z.max 0 pages)
  /\ (0 <= pages <= 2 ^ 31 - 1 -> pagesCompleted s = pages).
Proof.
  intros Hstart Hrun Hdone.
  assert (Hs0 : s0 = startPool c).
  { unfold Run_pool in Hstart. destruct (PageWorkers c <? 0); congruence. }
  subst s0.
  destruct (poolRun_inv pages net acts _ _ (startPool_inv c pages) Hrun)
    as [Hc Hn Hcl Hp Hk Hr Hf].
  unfold poolDone in Hdone. apply andb_true_iff in Hdone as [Hclosed Hall].
  rewrite (inflight_returned _ Hall), app_nil_r in Hp.
  assert (Hjobs : pageJobs s = []).
  { destruct (fetchers s) as [|f fs] eqn:Hfs; [cbn in Hf; lia|].
    cbn in Hall. apply andb_true_iff in Hall as [Hf0 _].
    destruct f; try discriminate. apply (Hr O). reflexivity. }
  rewrite Hjobs, app_nil_r in Hp.
  specialize (Hcl Hclosed).
  assert (Hnext : nextPage s = Z.max 0 pages) by lia.
  assert (Hlen : Z.of_nat (length (counted s)) = Z.max 0 pages).
  { rewrite Hp, length_seqZ. lia. }
  split; [|split].
  - rewrite Hp, Hnext. unfold seqZ.
    replace (Z.to_nat (Z.max 0 pages)) with (Z.to_nat pages) by lia. reflexivity.
  - rewrite Hk, Hlen. reflexivity.
  - intros Hpages. rewrite Hk, Hlen, Z.max_r by lia. apply int32_small. lia.
Qed.

Lemma pool_counts_every_page_once_witness :
  exists s,
    poolRun Background 3 flakyNet flakySchedule (startPool twoFetchers) = Some s
    /\ logged s = [WarnRetry (Some "timeout"); WarnRetry (Some "timeout");
                   WarnRetry (Some "timeout"); ErrPage 1 (Some "timeout");
                   WarnRetry None]
    /\ counted s ≡ₚ seqZ 0 3
    /\ pagesCompleted s = 3.
Proof.
  eexists. split; [vm_compute; reflexivity|]. split; [reflexivity|].
  destruct (pool_counts_every_page_once twoFetchers 3 flakyNet flakySchedule _ _
              eq_refl ltac:(vm_compute; reflexivity) ltac:(reflexivity))
    as (Hp & _ & Hk).
  split; [exact Hp | apply Hk; lia].
Defined.

Lemma forallb_false_lookup {A} (f : A -> bool) (l : list A) :
  forallb f l = false -> exists i x, l !! i = Some x /\ f x = false.
Proof.
  induction l as [|y l IH]; cbn; [discriminate|].
  destruct (f y) eqn:Hy; cbn.
  - intros Hl. destruct (IH Hl) as (i & x & Hi & Hx). exists (S i), x. auto.
  - intros _. exists O, y. auto.
Qed.

(** The pool never gets stuck: as long as [fetchWg.Wait()] cannot return,
    the dispatching loop or one of the fetchers can take a step. *)
Lemma pool_no_deadlock pages net s :
  PoolInv pages s -> poolDone s = false ->
  exists a s', poolStep Background pages net a s = Some s'.
Proof.
  intros [Hc Hn Hcl Hp Hk Hr Hf] Hdone. unfold poolDone in Hdone.
  destruct (closed s) eqn:Hclosed; cbn in Hdone.
  - destruct (forallb_false_lookup _ _ Hdone) as (i & f & Hi & Hnot).
    exists (Step i). cbn. rewrite Hi.
    destruct f as [|p|p [|[text e] todo] err|]; cbn; try discriminate; eauto.
    + destruct (pageJobs s); [rewrite Hclosed|]; eauto.
    + rewrite Hc. destruct (fst (fetchWithRetry (net p) true)) as [[r|] [e|]]; eauto.
  - destruct (Z.ltb_spec (nextPage s) pages) as [Hlt|Hge].
    + exists Dispatch. cbn. rewrite Hclosed.
      destruct (Z.ltb_spec (nextPage s) pages); [eauto | lia].
    + exists Close. cbn. rewrite Hclosed.
      destruct (Z.leb_spec pages (nextPage s)); [eauto | lia].
Qed.

(** Replacing a fetcher changes the cost by the difference of the two. *)
Lemma fetcherCost_insert net (fs : list Fetcher) i f f' :
  fs !! i = Some f ->
  (sum_list_with (fetcherCost net) (<[i := f']> fs) + fetcherCost net f =
   sum_list_with (fetcherCost net) fs + fetcherCost net f')%nat.
Proof.
  intros Hi. destruct (fetchers_split fs i f f' Hi) as (l1 & l2 & -> & ->).
  rewrite !sum_list_with_app. cbn. lia.
Qed.

Lemma poolStep_stepsLeft pages net a s s' :
  PoolInv pages s -> poolStep Background pages net a s = Some s' ->
  S (stepsLeft pages net s') = stepsLeft pages net s.
Proof.
  intros [Hc Hn Hcl Hp Hk Hr Hf] Hstep. unfold stepsLeft.
  destruct a as [| | |i]; cbn in Hstep.
  - destruct (Z.ltb_spec (nextPage s) pages); [|discriminate].
    destruct (closed s) eqn:Hclosed; [discriminate|].
    injection Hstep as <-. cbn.
    rewrite (seqZ_cons (nextPage s)) by lia.
    rewrite sum_list_with_app. cbn.
    replace (Z.pred (pages - nextPage s)) with (pages - (nextPage s + 1)) by lia.
    replace (Z.succ (nextPage s)) with (nextPage s + 1) by lia. lia.
  - destruct (Z.leb_spec pages (nextPage s)); [|discriminate].
    destruct (closed s) eqn:Hclosed; [discriminate|].
    injection Hstep as <-. cbn. lia.
  - discriminate.
  - destruct (fetchers s !! i) as [f|] eqn:Hi; [|discriminate].
    destruct f as [|p|p todo err|]; cbn in Hstep.
    + destruct (pageJobs s) as [|p rest] eqn:Hjobs.
      * destruct (closed s) eqn:Hclosed; [|discriminate].
        injection Hstep as <-. cbn. rewrite ?Hclosed, ?Hjobs.
        pose proof (fetcherCost_insert net _ i _ FReturned Hi) as Hcost.
        cbn in Hcost |- *. lia.
      * injection Hstep as <-. cbn. rewrite ?Hjobs.
        pose proof (fetcherCost_insert net _ i _ (FPage p) Hi) as Hcost.
        unfold queuedCost. cbn in Hcost |- *. lia.
    + rewrite Hc in Hstep.
      pose proof (fetcherCost_insert net _ i _ FReceive Hi) as Hfail.
      destruct (fst (fetchWithRetry (net p) true)) as [[respP|] [ierr|]] eqn:Hfetch;
        injection Hstep as <-; cbn;
        try (cbn in Hfail; unfold scanCost in Hfail; rewrite Hfetch in Hfail; lia).
      pose proof (fetcherCost_insert net _ i _
                    (FScan p (tokens (Body respP)) (finalErr (Body respP))) Hi) as Hok.
      cbn in Hok. unfold scanCost in Hok. rewrite Hfetch in Hok. lia.
    + destruct todo as [|[text e] todo]; injection Hstep as <-; cbn.
      * pose proof (fetcherCost_insert net _ i _ FReceive Hi) as Hcost.
        cbn in Hcost. lia.
      * pose proof (fetcherCost_insert net _ i _ (FScan p todo err) Hi) as Hcost.
        cbn in Hcost. lia.
    + discriminate.
Qed.

(** From every state of a run the pool can go on to the end of the run,
    and no run is longer than [stepsLeft] says. *)
Lemma pool_can_finish pages net s :
  PoolInv pages s ->
  exists acts s', poolRun Background pages net acts s = Some s'
                  /\ poolDone s' = true
                  /\ length acts = stepsLeft pages net s.
Proof.
  remember (stepsLeft pages net s) as n eqn:Hn.
  revert s Hn; induction n as [|n IH]; intros s Hn Hinv.
  - destruct (poolDone s) eqn:Hdone.
    + exists [], s. auto.
    + destruct (pool_no_deadlock pages net s Hinv Hdone) as (a & s' & Hstep).
      pose proof (poolStep_stepsLeft _ _ _ _ _ Hinv Hstep). lia.
  - destruct (poolDone s) eqn:Hdone.
    + exfalso. unfold poolDone in Hdone.
      apply andb_true_iff in Hdone as [Hclosed Hall].
      destruct Hinv as [Hc Hnx Hcl Hp Hk Hr Hf]. unfold stepsLeft in Hn.
      rewrite Hclosed in Hn. specialize (Hcl Hclosed).
      rewrite seqZ_nil in Hn by lia.
      assert (Hjobs : pageJobs s = []).
      { destruct (fetchers s) as [|f fs] eqn:Hfs; [cbn in Hf; lia|].
        cbn in Hall. apply andb_true_iff in Hall as [Hf0 _].
        destruct f; try discriminate. apply (Hr O). reflexivity. }
      rewrite Hjobs in Hn. cbn in Hn.
      assert (Hzero : sum_list_with (fetcherCost net) (fetchers s) = O).
      { clear -Hall. induction (fetchers s) as [|f fs IHfs]; [reflexivity|].
        cbn in Hall. apply andb_true_iff in Hall as [Hf0 Hfs].
        destruct f; try discriminate. cbn. apply IHfs. exact Hfs. }
      lia.
    + destruct (pool_no_deadlock pages net s Hinv Hdone) as (a & s1 & Hstep).
      pose proof (poolStep_stepsLeft _ _ _ _ _ Hinv Hstep) as Hdec.
      destruct (IH s1) as (acts & s' & Hrun & Hd & Hlen);
        [lia | eapply poolStep_inv; eauto |].
      exists (a :: acts), s'. cbn. rewrite Hstep. auto.
Qed.

Lemma poolRun_length pages net acts s s' :
  PoolInv pages s -> poolRun Background pages net acts s = Some s' ->
  (length acts + stepsLeft pages net s' = stepsLeft pages net s)%nat.
Proof.
  revert s; induction acts as [|a acts IH]; intros s Hinv; cbn.
  - intros [= <-]. reflexivity.
  - destruct (poolStep Background pages net a s) as [s1|] eqn:Hstep; [|discriminate].
    intros Hrun. pose proof (poolStep_stepsLeft _ _ _ _ _ Hinv Hstep).
    pose proof (IH s1 (poolStep_inv _ _ _ _ _ Hinv Hstep) Hrun). lia.
Qed.

(** X1.  As long as the sends on [jobs] go through, every run of the pool
    can be carried on to its end, and the steps of a run are bounded: the
    steps taken and the steps of any way to the end add up to [stepsLeft]
    of the first state. *)
Theorem pool_run_finishes (c : Config) (pages : Z) (net : Z -> Z -> Attempt)
        (acts : list Action) (s0 s : Pool) :
  Run_pool c = Some s0 ->
  poolRun Background pages net acts s0 = Some s ->
  exists acts' s',
    poolRun Background pages net acts' s = Some s'
    /\ poolDone s' = true
    /\ (length acts + length acts' = stepsLeft pages net s0)%nat.
Proof.
  intros Hstart Hrun.
  assert (Hs0 : s0 = startPool c).
  { unfold Run_pool in Hstart. destruct (PageWorkers c <? 0); congruence. }
  subst s0. pose proof (startPool_inv c pages) as Hinv0.
  pose proof (poolRun_inv _ _ _ _ _ Hinv0 Hrun) as Hinv.
  destruct (pool_can_finish pages net s Hinv) as (acts' & s' & Hrun' & Hdone & Hlen).
  exists acts', s'. split; [exact Hrun'|]. split; [exact Hdone|].
  pose proof (poolRun_length _ _ _ _ _ Hinv0 Hrun). lia.
Qed.

Lemma pool_run_finishes_witness :
  exists acts' s',
    poolRun Background 3 flakyNet acts' (startPool twoFetchers) = Some s'
    /\ poolDone s' = true
    /\ (0 + length acts' = stepsLeft 3 flakyNet (startPool twoFetchers))%nat.
Proof.
  exact (pool_run_finishes twoFetchers 3 flakyNet [] _ _ eq_refl eq_refl).
Defined.

(* ===================================================================== *)
(** * Part III: further properties of the code *)
(* ===================================================================== *)

(** ** White space around a line *)

Lemma trimLeftSpace_fixed s : startsWithSpace s = false -> trimLeftSpace s = s.
Proof.
  destruct s as [|a [|b [|c t]]]; cbn [startsWithSpace trimLeftSpace];
    try reflexivity.
  - rewrite orb_false_r. intros ->. reflexivity.
  - rewrite orb_false_r. intros [-> ->]%orb_false_iff. reflexivity.
  - intros [-> [-> ->]%orb_false_iff]%orb_false_iff. reflexivity.
Qed.

Lemma trimLeftSpace_no_space_bounded n s :
  (String.length s <= n)%nat -> startsWithSpace (trimLeftSpace s) = false.
Proof.
  revert s; induction n as [|n IH]; intros s Hn.
  - destruct s; [reflexivity | cbn in Hn; lia].
  - destruct s as [|a t]; [reflexivity|]. cbn [String.length] in Hn.
    cbn [trimLeftSpace]. destruct (asciiSpace a) eqn:Ha; [apply IH; lia|].
    destruct t as [|b t2]; [cbn; rewrite Ha; reflexivity|].
    cbn [String.length] in Hn.
    destruct (space2 a b) eqn:Hb; [apply IH; lia|].
    destruct t2 as [|c t3]; [cbn; rewrite Ha, Hb; reflexivity|].
    cbn [String.length] in Hn.
    destruct (space3 a b c) eqn:Hc; [apply IH; lia|].
    cbn. rewrite Ha, Hb, Hc. reflexivity.
Qed.

Lemma trimLeftSpace_no_space s : startsWithSpace (trimLeftSpace s) = false.
Proof. apply (trimLeftSpace_no_space_bounded (String.length s)). lia. Qed.

Lemma startsWithSpace_append s rest :
  startsWithSpace s = true -> startsWithSpace (s +:+ rest) = true.
Proof.
  destruct s as [|a [|b [|c t]]]; cbn [startsWithSpace]; try discriminate.
  - rewrite orb_false_r. intros Ha. rewrite append_cons. cbn [startsWithSpace].
    rewrite Ha. reflexivity.
  - rewrite orb_false_r. intros Hab. rewrite !append_cons, append_empty_l.
    cbn [startsWithSpace]. apply orb_true_iff in Hab as [->| ->];
      [reflexivity | rewrite orb_true_r; reflexivity].
  - intros H. rewrite !append_cons. exact H.
Qed.

Lemma trimRightSpace_idempotent s : trimRightSpace (trimRightSpace s) = trimRightSpace s.
Proof.
  induction s as [|a s IH]; [reflexivity|].
  cbn [trimRightSpace].
  destruct (isSpaceRune (String a (trimRightSpace s))) eqn:E; [reflexivity|].
  cbn [trimRightSpace]. rewrite IH, E. reflexivity.
Qed.

Lemma TrimSpace_idempotent s : TrimSpace (TrimSpace s) = TrimSpace s.
Proof.
  unfold TrimSpace.
  assert (Hfix : trimLeftSpace (trimRightSpace (trimLeftSpace s))
                 = trimRightSpace (trimLeftSpace s)).
  { apply trimLeftSpace_fixed.
    destruct (startsWithSpace (trimRightSpace (trimLeftSpace s))) eqn:E; [|reflexivity].
    destruct (trimRightSpace_prefix (trimLeftSpace s)) as [rest Hrest].
    apply (startsWithSpace_append _ rest) in E. rewrite <- Hrest in E.
    rewrite trimLeftSpace_no_space in E. discriminate. }
  rewrite Hfix. apply trimRightSpace_idempotent.
Qed.

(** ** The lines the fetchers send *)

Lemma scannedLines_trimmed toks l :
  l ∈ scannedLines toks -> l <> "" /\ TrimSpace l = l.
Proof.
  unfold scannedLines. rewrite list_elem_of_In, filter_In, in_map_iff.
  intros [(t & <- & _) Hne]. split.
  - intros Heq. unfold nonEmpty in Hne. rewrite Heq in Hne. discriminate.
  - apply TrimSpace_idempotent.
Qed.

Lemma pageLines_trimmed net p l :
  l ∈ pageLines net p -> l <> "" /\ TrimSpace l = l.
Proof.
  unfold pageLines.
  destruct (fst (fetchWithRetry (net p) true)) as [[respP|] [ierr|]];
    try (intros Hin; apply elem_of_nil in Hin; contradiction).
  apply scannedLines_trimmed.
Qed.

(** One action of the pool: the pages and lines it adds (a dispatch) and
    those it drops (a fetcher that finds the context cancelled). *)
Lemma poolStep_effect ctx pages net a s s' :
  poolStep ctx pages net a s = Some s' ->
  exists newP lostP lostL,
    pending s' ++ lostP ≡ₚ pending s ++ newP
    /\ pendingLines net s' ++ lostL ≡ₚ pendingLines net s ++ flat_map (pageLines net) newP
    /\ (newP = [] /\ nextPage s' = nextPage s
        \/ newP = [nextPage s] /\ nextPage s' = nextPage s + 1 /\ nextPage s < pages)
    /\ (ctxDone s = false -> lostL = [])
    /\ (ctxDone s' = false -> ctxDone s = false)
    /\ (pagesCompleted s = int32 (Z.of_nat (length (counted s))) ->
        pagesCompleted s' = int32 (Z.of_nat (length (counted s')))).
Proof.
  intros Hstep. unfold pending, pendingLines.
  destruct a as [| | |i]; cbn in Hstep.
  - destruct (Z.ltb_spec (nextPage s) pages); [|discriminate].
    destruct (closed s); [discriminate|]. injection Hstep as <-.
    exists [nextPage s], [], []. cbn. rewrite !flat_map_app. cbn.
    rewrite !app_nil_r.
    split; [solve_Permutation|]. split; [solve_Permutation|].
    split; [right; auto|]. auto.
  - destruct (Z.leb_spec pages (nextPage s)); [|discriminate].
    destruct (closed s); [discriminate|]. injection Hstep as <-.
    exists [], [], []. cbn. rewrite !app_nil_r. auto 10.
  - destruct ctx; [discriminate|]. injection Hstep as <-.
    exists [], [], []. cbn. rewrite !app_nil_r.
    split; [reflexivity|]. split; [reflexivity|]. split; [auto|].
    split; [auto|]. split; [discriminate | auto].
  - destruct (fetchers s !! i) as [f|] eqn:Hi; [|discriminate].
    destruct f as [|p|p todo err|]; cbn in Hstep.
    + destruct (pageJobs s) as [|p rest] eqn:Hjobs.
      * destruct (closed s); [|discriminate]. injection Hstep as <-.
        destruct (fetchers_split _ _ _ FReturned Hi) as (l1 & l2 & Hfs & Hins).
        exists [], [], []. cbn. rewrite Hjobs, Hins, Hfs. unfold inflight.
        rewrite !flat_map_app. cbn. rewrite !app_nil_r. auto 10.
      * injection Hstep as <-.
        destruct (fetchers_split _ _ _ (FPage p) Hi) as (l1 & l2 & Hfs & Hins).
        exists [], [], []. cbn. rewrite Hins, Hfs. unfold inflight.
        rewrite !flat_map_app. cbn. rewrite !app_nil_r.
        split; [solve_Permutation|]. split; [solve_Permutation|]. auto.
    + destruct (ctxDone s) eqn:Hctx.
      * injection Hstep as <-.
        destruct (fetchers_split _ _ _ FReturned Hi) as (l1 & l2 & Hfs & Hins).
        exists [], [p], (pageLines net p). cbn. rewrite Hins, Hfs. unfold inflight.
        rewrite !flat_map_app. cbn. rewrite !app_nil_r.
        split; [solve_Permutation|]. split; [solve_Permutation|].
        split; [auto|]. split; [discriminate|]. split; [rewrite Hctx; auto | auto].
      * destruct (fst (fetchWithRetry (net p) true)) as [[respP|] [ierr|]] eqn:Hfetch;
          injection Hstep as <-.
        all: exists [], [], []; cbn.
        all: match goal with
             | |- context [<[_ := ?f']> _] =>
                 destruct (fetchers_split _ _ _ f' Hi) as (l1 & l2 & Hfs & Hins)
             end.
        all: rewrite Hins, Hfs; unfold inflight; rewrite !flat_map_app; cbn;
          unfold pageLines; rewrite Hfetch; rewrite ?app_nil_r.
        all: split; [solve_Permutation|]; split; [solve_Permutation|].
        all: split; [auto|]; split; [auto|]; split; [auto|].
        all: try (intros Hk; rewrite Hk, int32_succ, length_app; cbn; f_equal; lia).
        auto.
    + destruct todo as [|[text e] todo]; injection Hstep as <-.
      * destruct (fetchers_split _ _ _ FReceive Hi) as (l1 & l2 & Hfs & Hins).
        exists [], [], []. cbn. rewrite Hins, Hfs. unfold inflight.
        rewrite !flat_map_app. cbn. rewrite !app_nil_r.
        split; [solve_Permutation|]. split; [solve_Permutation|].
        split; [auto|]. split; [auto|]. split; [auto|].
        intros Hk; rewrite Hk, int32_succ, length_app; cbn; f_equal; lia.
      * destruct (fetchers_split _ _ _ (FScan p todo err) Hi) as (l1 & l2 & Hfs & Hins).
        exists [], [], []. cbn. rewrite Hins, Hfs. unfold inflight.
        rewrite !flat_map_app. cbn. rewrite !app_nil_r.
        split; [solve_Permutation|]. split; [|auto].
        unfold scannedLines. cbn. fold (TrimSpace text).
        destruct (nonEmpty (TrimSpace text)); solve_Permutation.
    + discriminate.
Qed.

Lemma seqZ_prefix (n pages : Z) :
  0 <= n <= Z.max 0 pages -> exists rest, seqZ 0 pages = seqZ 0 n ++ rest.
Proof.
  intros Hn. exists (seqZ n (pages - n)).
  destruct (Z.le_gt_cases 0 pages) as [Hp|Hp].
  - replace pages with (n + (pages - n)) at 1 by lia.
    rewrite seqZ_app by lia. reflexivity.
  - assert (n = 0) as -> by lia. unfold seqZ.
    replace (Z.to_nat pages) with O by lia.
    replace (Z.to_nat (pages - 0)) with O by lia. reflexivity.
Qed.

Lemma NoDup_submseteq_r {A} (l k : list A) : l ⊆+ k -> NoDup k -> NoDup l.
Proof.
  intros [k' Hk]%submseteq_Permutation Hnd. rewrite Hk in Hnd.
  apply NoDup_app in Hnd as [Hl _]. exact Hl.
Qed.

Lemma startPool_safe c pages net : PoolSafe pages net (startPool c).
Proof.
  split; unfold pending, pendingLines;
    cbn [startPool ctxDone nextPage closed pageJobs fetchers jobs pagesCompleted counted].
  - lia.
  - rewrite inflight_replicate. reflexivity.
  - apply submseteq_nil_r. cbn. clear.
    induction (pageConcurrency c) as [|n IH]; [reflexivity | exact IH].
  - reflexivity.
  - intros _. cbn. clear.
    induction (pageConcurrency c) as [|n IH]; [reflexivity | exact IH].
Qed.

Lemma poolStep_safe ctx pages net a s s' :
  PoolSafe pages net s -> poolStep ctx pages net a s = Some s' -> PoolSafe pages net s'.
Proof.
  intros [Hn Hp Hl Hk He] Hstep.
  destruct (poolStep_effect _ _ _ _ _ _ Hstep)
    as (newP & lostP & lostL & HP & HL & Hnew & Hlost & Hctx & Hcount).
  assert (Hseq : seqZ 0 (nextPage s') = seqZ 0 (nextPage s) ++ newP).
  { destruct Hnew as [[-> ->]|(-> & -> & _)]; [rewrite app_nil_r; reflexivity|].
    rewrite (seqZ_app 0 (nextPage s) 1) by lia. reflexivity. }
  split.
  - destruct Hnew as [[_ ->]|(_ & -> & Hlt)]; lia.
  - rewrite Hseq. transitivity (pending s' ++ lostP);
      [apply submseteq_inserts_r; reflexivity|].
    rewrite HP. apply submseteq_app; [exact Hp | reflexivity].
  - rewrite Hseq, flat_map_app. transitivity (pendingLines net s' ++ lostL);
      [apply submseteq_inserts_r; reflexivity|].
    rewrite HL. apply submseteq_app; [exact Hl | reflexivity].
  - apply Hcount, Hk.
  - intros Hdone. specialize (Hctx Hdone). rewrite (Hlost Hctx), app_nil_r in HL.
    rewrite HL, Hseq, flat_map_app, (He Hctx). reflexivity.
Qed.

Lemma poolRun_safe ctx pages net acts s s' :
  PoolSafe pages net s -> poolRun ctx pages net acts s = Some s' -> PoolSafe pages net s'.
Proof.
  revert s; induction acts as [|a acts IH]; intros s Hsafe; cbn.
  - intros [= <-]. exact Hsafe.
  - destruct (poolStep ctx pages net a s) as [s1|] eqn:Hstep; [|discriminate].
    apply IH. eapply poolStep_safe; eauto.
Qed.

(** When [fetchWg.Wait()] returns under the background context, nothing is
    queued or held any more. *)
Lemma pool_end pages s :
  PoolInv pages s -> poolDone s = true ->
  pageJobs s = [] /\ nextPage s = Z.max 0 pages
  /\ forallb (fun f => if f is FReturned then true else false) (fetchers s) = true.
Proof.
  intros [Hc Hn Hcl Hp Hk Hr Hf] Hdone. unfold poolDone in Hdone.
  apply andb_true_iff in Hdone as [Hclosed Hall].
  specialize (Hcl Hclosed). split; [|split; [lia | exact Hall]].
  destruct (fetchers s) as [|f fs] eqn:Hfs; [cbn in Hf; lia|].
  cbn in Hall. apply andb_true_iff in Hall as [Hf0 _].
  destruct f; try discriminate. apply (Hr O). reflexivity.
Qed.

Lemma linesAhead_returned net (fs : list Fetcher) :
  forallb (fun f => if f is FReturned then true else false) fs = true ->
  flat_map (linesAhead net) fs = [].
Proof.
  induction fs as [|f fs IH]; [reflexivity|].
  cbn. intros [Hf Hfs]%andb_true_iff. destruct f; try discriminate.
  cbn. apply IH. exact Hfs.
Qed.

(** What was sent on [jobs] when the pool is done. *)
Lemma pool_done_jobs pages net s :
  PoolInv pages s -> PoolSafe pages net s -> poolDone s = true ->
  jobs s ≡ₚ flat_map (pageLines net) (seqZ 0 pages).
Proof.
  intros Hinv [_ _ _ _ He] Hdone.
  destruct (pool_end pages s Hinv Hdone) as (Hjobs & Hnext & Hall).
  specialize (He (inv_ctx _ _ Hinv)). unfold pendingLines in He.
  rewrite Hjobs, (linesAhead_returned net _ Hall) in He. cbn in He.
  rewrite app_nil_r in He. rewrite He, Hnext. unfold seqZ.
  replace (Z.to_nat (Z.max 0 pages)) with (Z.to_nat pages) by lia. reflexivity.
Qed.

(** X2.  In a run of the fetcher pool under the background context, once
    the page channel is closed and every fetcher has returned, what was
    sent on [jobs] is, up to the order, the trimmed non-blank lines of the
    bodies of the pages 0, ..., [pages - 1] that [fetchWithRetry] got a
    response for: no line is lost, none is sent twice, and an abandoned
    page contributes nothing. *)
Theorem pool_sends_every_line_once (c : Config) (pages : Z)
        (net : Z -> Z -> Attempt) (acts : list Action) (s0 s : Pool) :
  Run_pool c = Some s0 ->
  poolRun Background pages net acts s0 = Some s ->
  poolDone s = true ->
  jobs s ≡ₚ flat_map (pageLines net) (seqZ 0 pages).
Proof.
  intros Hstart Hrun Hdone.
  assert (Hs0 : s0 = startPool c).
  { unfold Run_pool in Hstart. destruct (PageWorkers c <? 0); congruence. }
  subst s0. apply pool_done_jobs; [| |exact Hdone].
  - exact (poolRun_inv pages net acts _ _ (startPool_inv c pages) Hrun).
  - exact (poolRun_safe _ pages net acts _ _ (startPool_safe c pages net) Hrun).
Qed.

Lemma pool_sends_every_line_once_witness :
  exists s,
    poolRun Background 3 flakyNet flakySchedule (startPool twoFetchers) = Some s
    /\ flat_map (pageLines flakyNet) (seqZ 0 3)
       = ["http://h/a"; "http://h/b"; "http://h/a"; "http://h/b"]
    /\ jobs s ≡ₚ flat_map (pageLines flakyNet) (seqZ 0 3).
Proof.
  eexists. split; [vm_compute; reflexivity|]. split; [vm_compute; reflexivity|].
  exact (pool_sends_every_line_once twoFetchers 3 flakyNet flakySchedule _ _
           eq_refl ltac:(vm_compute; reflexivity) ltac:(reflexivity)).
Defined.

(** X3.  In every state of every run of the fetcher pool, whenever and
    whether the context is cancelled: no page is counted twice and only
    dispatched pages are counted, so the counter is the number of counted
    pages and never exceeds the number of pages; and every line sent on
    [jobs] is a trimmed, non-empty line of a page that was fetched, sent
    no more often than the pages have it. *)
Theorem pool_safe_when_cancelled (ctx : Context) (c : Config) (pages : Z)
        (net : Z -> Z -> Attempt) (acts : list Action) (s0 s : Pool) :
  Run_pool c = Some s0 ->
  poolRun ctx pages net acts s0 = Some s ->
  counted s ⊆+ seqZ 0 pages
  /\ NoDup (counted s)
  /\ pagesCompleted s = int32 (Z.of_nat (length (counted s)))
  /\ Z.of_nat (length (counted s)) <= Z.max 0 pages
  /\ jobs s ⊆+ flat_map (pageLines net) (seqZ 0 pages)
  /\ Forall (fun l => l <> "" /\ TrimSpace l = l) (jobs s).
Proof.
  intros Hstart Hrun.
  assert (Hs0 : s0 = startPool c).
  { unfold Run_pool in Hstart. destruct (PageWorkers c <? 0); congruence. }
  subst s0.
  destruct (poolRun_safe _ pages net acts _ _ (startPool_safe c pages net) Hrun)
    as [Hn Hp Hl Hk _].
  destruct (seqZ_prefix _ _ Hn) as (rest & Hrest).
  assert (Hcounted : counted s ⊆+ seqZ 0 pages).
  { rewrite Hrest. apply submseteq_inserts_r.
    transitivity (pending s); [|exact Hp].
    unfold pending. apply submseteq_inserts_r. reflexivity. }
  assert (Hjobs : jobs s ⊆+ flat_map (pageLines net) (seqZ 0 pages)).
  { rewrite Hrest, flat_map_app. apply submseteq_inserts_r.
    transitivity (pendingLines net s); [|exact Hl].
    unfold pendingLines. apply submseteq_inserts_r. reflexivity. }
  split; [exact Hcounted|]. split; [|split; [exact Hk|split; [|split; [exact Hjobs|]]]].
  - eapply NoDup_submseteq_r; [exact Hcounted | apply NoDup_seqZ].
  - apply submseteq_length in Hcounted. rewrite length_seqZ in Hcounted. lia.
  - apply Forall_forall. intros l Hin.
    eapply elem_of_submseteq in Hin; [|exact Hjobs].
    apply list_elem_of_In, in_flat_map in Hin as (p & _ & Hin).
    apply (pageLines_trimmed net p). apply list_elem_of_In. exact Hin.
Qed.

Lemma pool_safe_when_cancelled_witness :
  exists s,
    poolRun Cancellable 3 flakyNet cancelledSchedule (startPool twoFetchers) = Some s
    /\ poolDone s = true
    /\ counted s = [0] /\ pagesCompleted s = 1
    /\ jobs s ⊆+ flat_map (pageLines flakyNet) (seqZ 0 3).
Proof.
  eexists. split; [vm_compute; reflexivity|]. split; [reflexivity|].
  split; [reflexivity|]. split; [reflexivity|].
  exact (proj1 (proj2 (proj2 (proj2 (proj2
           (pool_safe_when_cancelled Cancellable twoFetchers 3 flakyNet cancelledSchedule
              _ _ eq_refl ltac:(vm_compute; reflexivity))))))).
Defined.

(** ** What [fetchWithRetry] returns, closes and sleeps *)

Section RetryOutcome.
Variable net : Z -> Attempt.
Variable hasCounter : bool.

Lemma retry_loop_response_without_error todo a ierr resp :
  fst (fst (retry_loop net hasCounter todo a ierr)) = Some resp ->
  snd (fst (retry_loop net hasCounter todo a ierr)) = None.
Proof.
  revert a ierr; induction todo as [|todo IH]; intros a ierr; cbn; [discriminate|].
  destruct (net a) as [e|res]; cbn; [discriminate|].
  destruct (attemptOK res); cbn; [reflexivity|].
  specialize (IH (a + 1) (doErr res)).
  destruct (retry_loop net hasCounter todo (a + 1) (doErr res)) as [out evs].
  exact IH.
Qed.

Lemma retry_loop_request_error todo a ierr k err :
  a <= k < a + Z.of_nat todo -> failedFrom net a k -> net k = RequestErr err ->
  fst (retry_loop net hasCounter todo a ierr) = (None, Some err)
  /\ List.filter isDo (snd (retry_loop net hasCounter todo a ierr))
     = List.map EvDo (seqZ a (k - a)).
Proof.
  revert a ierr; induction todo as [|todo IH]; intros a ierr Hk Hf Hreq; [lia|].
  cbn. destruct (Z.eq_dec k a) as [->|Hne].
  - rewrite Hreq, Z.sub_diag. split; reflexivity.
  - destruct (Hf a) as (r & Hr & Hr'); [lia|]. rewrite Hr, Hr'.
    destruct (IH (a + 1) (doErr r)) as [Hout Hev];
      [lia | apply (failedFrom_step net a k r Hr Hr'); [lia | exact Hf] | exact Hreq |].
    destruct (retry_loop net hasCounter todo (a + 1) (doErr r)) as [out evs].
    cbn in Hout, Hev |- *. split; [exact Hout|].
    rewrite filter_app_bool, afterFailure_no_do, Hev. cbn.
    rewrite (seqZ_cons a (k - a)) by lia. cbn.
    replace (Z.succ a) with (a + 1) by lia.
    replace (Z.pred (k - a)) with (k - (a + 1)) by lia. reflexivity.
Qed.

Lemma afterFailure_closes k res :
  List.filter isClose (afterFailure k res hasCounter)
  = (if doResp res is Some _ then [EvClose] else [])
  /\ omap (responseOf net) (afterFailure k res hasCounter) = []
  /\ totalSleep (afterFailure k res hasCounter) = k.
Proof.
  unfold afterFailure, totalSleep.
  destruct (doResp res), hasCounter; cbn; repeat split; lia.
Qed.

Lemma totalSleep_app l1 l2 : totalSleep (l1 ++ l2) = totalSleep l1 + totalSleep l2.
Proof.
  unfold totalSleep. induction l1 as [|e l1 IH]; cbn; [reflexivity|].
  cbn in IH. rewrite IH. lia.
Qed.

Lemma retry_loop_closes todo a ierr :
  (length (List.filter isClose (snd (retry_loop net hasCounter todo a ierr)))
   + (if fst (fst (retry_loop net hasCounter todo a ierr)) is Some _ then 1 else 0)
   = length (omap (responseOf net) (snd (retry_loop net hasCounter todo a ierr))))%nat.
Proof.
  revert a ierr; induction todo as [|todo IH]; intros a ierr; cbn; [reflexivity|].
  destruct (net a) as [e|res] eqn:Hn; cbn; [reflexivity|].
  destruct (attemptOK res) as [resp|] eqn:Ha; cbn.
  - rewrite Hn. apply attemptOK_spec in Ha as [-> _]. reflexivity.
  - specialize (IH (a + 1) (doErr res)).
    destruct (retry_loop net hasCounter todo (a + 1) (doErr res)) as [out evs].
    destruct (afterFailure_closes a res) as (Hc & Hr & _).
    cbn in IH |- *. rewrite Hn, filter_app_bool, omap_app, Hc, Hr, length_app.
    cbn [app]. destruct (doResp res); cbn [length]; lia.
Qed.

Lemma retry_loop_sleep todo a ierr :
  0 <= a ->
  0 <= 2 * totalSleep (snd (retry_loop net hasCounter todo a ierr))
    <= Z.of_nat todo * (2 * a + Z.of_nat todo - 1).
Proof.
  revert a ierr; induction todo as [|todo IH]; intros a ierr Ha; cbn [retry_loop].
  - cbn. lia.
  - destruct (net a) as [e|res]; [cbn; nia|].
    destruct (attemptOK res); [cbn; nia|].
    specialize (IH (a + 1) (doErr res) ltac:(lia)).
    destruct (retry_loop net hasCounter todo (a + 1) (doErr res)) as [out evs].
    destruct (afterFailure_closes a res) as (_ & _ & Hs).
    cbn [snd] in IH |- *.
    change (EvDo a :: afterFailure a res hasCounter ++ evs)
      with ([EvDo a] ++ afterFailure a res hasCounter ++ evs).
    rewrite !totalSleep_app, Hs. change (totalSleep [EvDo a]) with 0. nia.
Qed.

(** X4.  What [fetchWithRetry] returns and leaves behind.  A response is
    returned only with a nil error.  When a request cannot be built the
    loop is left at once: that error is returned and no later attempt is
    made.  Every response that [Do] gave and that is not returned is
    closed: the bodies closed and the response returned are as many as the
    responses received.  The loop sleeps 6 seconds at most. *)
Theorem fetchWithRetry_outcome :
  let out := fetchWithRetry net hasCounter in
  (forall resp, fst (fst out) = Some resp -> snd (fst out) = None)
  /\ (forall k err, 1 <= k <= maxRetries -> attemptMade net k ->
        net k = RequestErr err ->
        fst out = (None, Some err)
        /\ List.filter isDo (snd out) = List.map EvDo (seqZ 1 (k - 1)))
  /\ (length (List.filter isClose (snd out))
      + (if fst (fst out) is Some _ then 1 else 0)
      = length (omap (responseOf net) (snd out)))%nat
  /\ 0 <= totalSleep (snd out) <= 6.
Proof.
  cbn zeta. unfold fetchWithRetry, attemptMade.
  change (Z.to_nat maxRetries) with 3%nat. change maxRetries with 3.
  split; [|split; [|split]].
  - intros resp. apply retry_loop_response_without_error.
  - intros k err Hk Hf Hreq.
    apply (retry_loop_request_error 3 1 None k err); [lia | exact Hf | exact Hreq].
  - apply retry_loop_closes.
  - pose proof (retry_loop_sleep 3 1 None ltac:(lia)). lia.
Qed.

End RetryOutcome.

(** ** The printer and the order of the results *)

Section PrinterOrder.
Context `{CaseTables}.

Lemma sinkKeys_elem (r : Runner) (l : list string) (y : string) :
  y ∈ sinkKeys r l <-> exists x, x ∈ l /\ y ∈ sinkKeys r [x].
Proof.
  unfold sinkKeys. destruct (Subs (cfg r)).
  - destruct (String.eqb (baseDomain r) "").
    + split; [intros Hy; apply elem_of_nil in Hy; contradiction|].
      intros (x & _ & Hy). apply elem_of_nil in Hy. contradiction.
    + rewrite list_elem_of_omap. split.
      * intros (x & Hx & Hy). exists x. split; [exact Hx|].
        cbn. rewrite Hy. apply list_elem_of_here.
      * intros (x & Hx & Hy). exists x. split; [exact Hx|].
        cbn in Hy. destruct (subdomainOf (ToLower (baseDomain r)) x) as [h|];
          [|apply elem_of_nil in Hy; contradiction].
        apply list_elem_of_singleton in Hy. congruence.
  - destruct (ExtractPaths (cfg r)).
    + rewrite list_elem_of_In, in_flat_map. split.
      * intros (x & Hx & Hy). exists x. rewrite list_elem_of_In. split; [exact Hx|].
        cbn. rewrite app_nil_r, list_elem_of_In. exact Hy.
      * intros (x & Hx & Hy). exists x. rewrite <- list_elem_of_In. split; [exact Hx|].
        cbn in Hy. rewrite app_nil_r, list_elem_of_In in Hy. exact Hy.
    + split.
      * intros Hy. exists y. split; [exact Hy | apply list_elem_of_here].
      * intros (x & Hx & Hy). apply list_elem_of_singleton in Hy. congruence.
Qed.

Lemma firstOccurrences_same_values (r : Runner) (l l' : list string) :
  (forall x, x ∈ l <-> x ∈ l') ->
  firstOccurrences (sinkKeys r l) ≡ₚ firstOccurrences (sinkKeys r l').
Proof.
  intros Hsame.
  apply NoDup_Permutation; [apply firstOccurrences_NoDup .. |].
  intros y. rewrite !firstOccurrences_elem, !sinkKeys_elem.
  split; intros (x & Hx & Hy); exists x; (split; [apply Hsame; exact Hx | exact Hy]).
Qed.

(** X5.  What the printer writes depends only on which values come on
    the results channel, not on their order nor on how often they come:
    two channels with the same values give the same lines, up to the
    order, in each of the three modes. *)
Theorem startPrinter_order_independent (r : Runner) (resultsCh resultsCh' : list string) :
  (forall x, x ∈ resultsCh <-> x ∈ resultsCh') ->
  startPrinter r resultsCh ≡ₚ startPrinter r resultsCh'.
Proof.
  intros Hsame. rewrite !startPrinter_keys.
  apply firstOccurrences_same_values. exact Hsame.
Qed.

End PrinterOrder.

Lemma startPrinter_order_independent_witness :
  startPrinter (H := asciiOnly) pathsRunner ["http://h/a/b"; "http://h/c/a"]
  = ["a"; "b"; "c"]
  /\ startPrinter (H := asciiOnly) pathsRunner
       ["http://h/c/a"; "http://h/a/b"; "http://h/c/a"] = ["c"; "a"; "b"]
  /\ startPrinter (H := asciiOnly) pathsRunner ["http://h/a/b"; "http://h/c/a"]
     ≡ₚ startPrinter (H := asciiOnly) pathsRunner
          ["http://h/c/a"; "http://h/a/b"; "http://h/c/a"].
Proof.
  split; [vm_compute; reflexivity|]. split; [vm_compute; reflexivity|].
  apply (startPrinter_order_independent (H := asciiOnly)).
  intros x. rewrite !list_elem_of_In. cbn. tauto.
Defined.

(** ** The workers and the whole pipeline *)

Lemma insert_split {A} (l : list A) i x x' :
  l !! i = Some x ->
  exists l1 l2, l = l1 ++ x :: l2 /\ <[i := x']> l = l1 ++ x' :: l2.
Proof.
  intros Hi. exists (take i l), (drop (S i) l). split.
  - symmetry. apply take_drop_middle. exact Hi.
  - apply insert_take_drop. apply lookup_lt_Some in Hi. exact Hi.
Qed.

Lemma poolStep_jobs ctx pages net a s s' :
  poolStep ctx pages net a s = Some s' -> exists extra, jobs s' = jobs s ++ extra.
Proof.
  intros Hstep. destruct a as [| | |i]; cbn in Hstep.
  - destruct ((nextPage s <? pages) && negb (closed s)); [|discriminate].
    injection Hstep as <-. exists []. cbn. rewrite app_nil_r. reflexivity.
  - destruct ((pages <=? nextPage s) && negb (closed s)); [|discriminate].
    injection Hstep as <-. exists []. cbn. rewrite app_nil_r. reflexivity.
  - destruct ctx; [discriminate|].
    injection Hstep as <-. exists []. cbn. rewrite app_nil_r. reflexivity.
  - destruct (fetchers s !! i) as [f|]; [|discriminate].
    destruct f as [|p|p [|[text e] todo] err|]; cbn in Hstep.
    + destruct (pageJobs s); [destruct (closed s); [|discriminate]|];
        injection Hstep as <-; exists []; cbn; rewrite app_nil_r; reflexivity.
    + destruct (ctxDone s);
        [|destruct (fst (fetchWithRetry (net p) true)) as [[respP|] [ierr|]]];
        injection Hstep as <-; exists []; cbn; rewrite app_nil_r; reflexivity.
    + injection Hstep as <-. exists []. cbn. rewrite app_nil_r. reflexivity.
    + injection Hstep as <-. cbn. fold (TrimSpace text).
      destruct (nonEmpty (TrimSpace text)); [eexists; reflexivity|].
      exists []. rewrite app_nil_r. reflexivity.
    + discriminate.
Qed.

(** Once [fetchWg.Wait()] can return, the pool takes no step any more. *)
Lemma poolStep_done pages net a s :
  poolDone s = true -> poolStep Background pages net a s = None.
Proof.
  unfold poolDone. intros [Hclosed Hall]%andb_true_iff.
  destruct a as [| | |i]; cbn; rewrite ?Hclosed, ?andb_false_r; try reflexivity.
  destruct (fetchers s !! i) as [f|] eqn:Hi; [|reflexivity].
  rewrite forallb_forall in Hall. apply list_elem_of_lookup_2, list_elem_of_In in Hi.
  specialize (Hall f Hi). destruct f; try discriminate. reflexivity.
Qed.

Lemma workerAhead_replicate n : flat_map workerAhead (replicate n WReceive) = [].
Proof. induction n as [|n IH]; [reflexivity | exact IH]. Qed.

Lemma workerAhead_returned (ws : list Worker) :
  forallb (fun w => if w is WReturned then true else false) ws = true ->
  flat_map workerAhead ws = [].
Proof.
  induction ws as [|w ws IH]; [reflexivity|].
  cbn. intros [Hw Hws]%andb_true_iff. destruct w; try discriminate.
  cbn. apply IH. exact Hws.
Qed.

Lemma Run_pipeline_inv c pages net r st0 :
  Run_pipeline c = Some st0 -> PipeInv pages net r st0.
Proof.
  unfold Run_pipeline, Run_pool.
  destruct (PageWorkers c <? 0); [discriminate|]. intros [= <-].
  split; cbn [pool jobsClosed received workers resultsCh].
  - apply startPool_inv.
  - apply startPool_safe.
  - cbn. lia.
  - rewrite workerAhead_replicate. reflexivity.
  - discriminate.
  - intros i Hi. apply lookup_replicate in Hi as [Hi _]. discriminate.
  - rewrite length_replicate. unfold workerCount.
    destruct (Z.ltb_spec (Workers c) 1); lia.
Qed.

Lemma worker_returned_insert (ws : list Worker) i w j :
  w <> WReturned -> <[i := w]> ws !! j = Some WReturned -> ws !! j = Some WReturned.
Proof.
  intros Hw Hj. apply list_lookup_insert_Some in Hj as [(_ & Heq & _)|[_ Hj]];
    [congruence | exact Hj].
Qed.

Lemma pipeStep_inv pages net r a st st' :
  PipeInv pages net r st -> pipeStep Background pages net r a st = Some st' ->
  PipeInv pages net r st'.
Proof.
  intros [Hinv Hsafe Hrcv Hres Hcl Hret Hws] Hstep.
  destruct a as [a| |i]; cbn in Hstep.
  - (* the pool *)
    destruct (poolStep Background pages net a (pool st)) as [s'|] eqn:Hpool;
      [|discriminate].
    injection Hstep as <-.
    assert (Hopen : jobsClosed st = false).
    { destruct (jobsClosed st); [|reflexivity].
      rewrite (poolStep_done pages net a _ (Hcl eq_refl)) in Hpool. discriminate. }
    destruct (poolStep_jobs _ _ _ _ _ _ Hpool) as (extra & Hjobs).
    split; cbn [pool jobsClosed received workers resultsCh].
    + eapply poolStep_inv; eauto.
    + eapply poolStep_safe; eauto.
    + rewrite Hjobs, length_app. lia.
    + rewrite Hjobs, take_app_le by exact Hrcv. exact Hres.
    + rewrite Hopen. discriminate.
    + intros i Hi. destruct (Hret i Hi) as [Hx _]. congruence.
    + exact Hws.
  - (* [close(jobs)] *)
    destruct (poolDone (pool st)) eqn:Hdone; [|discriminate].
    destruct (jobsClosed st) eqn:Hopen; [discriminate|].
    injection Hstep as <-.
    split; cbn [pool jobsClosed received workers resultsCh]; auto.
    intros i Hi. destruct (Hret i Hi) as [Hx _]. discriminate.
  - (* worker [i] *)
    destruct (workers st !! i) as [w|] eqn:Hi; [|discriminate].
    destruct w as [|[|processed todo]|]; cbn in Hstep.
    + destruct (jobs (pool st) !! received st) as [line|] eqn:Hline.
      * injection Hstep as <-.
        destruct (insert_split _ _ _ (WSend (processLine r line)) Hi)
          as (l1 & l2 & Hl & Hins).
        split; cbn [pool jobsClosed received workers resultsCh]; auto.
        -- apply lookup_lt_Some in Hline. lia.
        -- rewrite (take_S_r _ _ _ Hline), flat_map_app, <- Hres, Hins, Hl.
           rewrite !flat_map_app. cbn. rewrite !app_nil_r. solve_Permutation.
        -- intros j Hj. apply worker_returned_insert in Hj; [|discriminate].
           destruct (Hret j Hj) as [_ Hlen]. apply lookup_lt_Some in Hline. lia.
        -- rewrite length_insert. exact Hws.
      * destruct (jobsClosed st) eqn:Hclosed; [|discriminate].
        injection Hstep as <-.
        destruct (insert_split _ _ _ WReturned Hi) as (l1 & l2 & Hl & Hins).
        split; cbn [setWorker pool jobsClosed received workers resultsCh]; auto.
        -- rewrite <- Hres, Hins, Hl. rewrite !flat_map_app. reflexivity.
        -- intros j Hj. split; [exact Hclosed|].
           apply lookup_ge_None in Hline. lia.
        -- rewrite length_insert. exact Hws.
    + injection Hstep as <-.
      destruct (insert_split _ _ _ WReceive Hi) as (l1 & l2 & Hl & Hins).
      split; cbn [setWorker pool jobsClosed received workers resultsCh]; auto.
      * rewrite <- Hres, Hins, Hl. rewrite !flat_map_app. reflexivity.
      * intros j Hj. apply worker_returned_insert in Hj; [|discriminate].
        exact (Hret j Hj).
      * rewrite length_insert. exact Hws.
    + injection Hstep as <-.
      destruct (insert_split _ _ _ (WSend todo) Hi) as (l1 & l2 & Hl & Hins).
      split; cbn [pool jobsClosed received workers resultsCh]; auto.
      * rewrite <- Hres, Hins, Hl. rewrite !flat_map_app. cbn. solve_Permutation.
      * intros j Hj. apply worker_returned_insert in Hj; [|discriminate].
        exact (Hret j Hj).
      * rewrite length_insert. exact Hws.
    + discriminate.
Qed.

Lemma pipeRun_inv pages net r acts st st' :
  PipeInv pages net r st -> pipeRun Background pages net r acts st = Some st' ->
  PipeInv pages net r st'.
Proof.
  revert st; induction acts as [|a acts IH]; intros st Hinv; cbn.
  - intros [= <-]. exact Hinv.
  - destruct (pipeStep Background pages net r a st) as [st1|] eqn:Hstep; [|discriminate].
    apply IH. eapply pipeStep_inv; eauto.
Qed.

(** What was sent on [resultsCh] when the workers are done. *)
Lemma pipe_done_results pages net r st :
  PipeInv pages net r st -> pipeDone st = true ->
  resultsCh st ≡ₚ flat_map (processLine r) (flat_map (pageLines net) (seqZ 0 pages)).
Proof.
  intros [Hinv Hsafe Hrcv Hres Hcl Hret Hws] Hdone. unfold pipeDone in Hdone.
  apply andb_true_iff in Hdone as [Hclosed Hall].
  rewrite (workerAhead_returned _ Hall), app_nil_r in Hres.
  assert (Hlen : received st = length (jobs (pool st))).
  { destruct (workers st) as [|w ws] eqn:Hw; [cbn in Hws; lia|].
    cbn in Hall. apply andb_true_iff in Hall as [Hw0 _].
    destruct w; try discriminate. apply (Hret O). reflexivity. }
  rewrite Hlen, firstn_all in Hres. rewrite Hres.
  apply Permutation_flat_map. apply pool_done_jobs; auto.
Qed.

Section PipelineOutput.
Context `{CaseTables}.

(** X6.  The whole pipeline of [Run] under the background context: once
    [jobs] is closed and every worker has returned, what was sent on
    [resultsCh] is, up to the order, what [processLine] gives for the
    lines of the pages that were fetched; so the lines the printer has
    written are, up to the order, fixed by the answers of the archive and
    the flags, whatever the interleaving of fetchers and workers. *)
Theorem Run_output_determined (c : Config) (r : Runner) (pages : Z)
        (net : Z -> Z -> Attempt) (acts : list PipeAction) (st0 st : Pipeline) :
  Run_pipeline c = Some st0 ->
  pipeRun Background pages net r acts st0 = Some st ->
  pipeDone st = true ->
  resultsCh st ≡ₚ flat_map (processLine r) (flat_map (pageLines net) (seqZ 0 pages))
  /\ startPrinter r (resultsCh st)
     ≡ₚ startPrinter r (flat_map (processLine r) (flat_map (pageLines net) (seqZ 0 pages))).
Proof.
  intros Hstart Hrun Hdone.
  pose proof (pipeRun_inv _ _ _ _ _ _ (Run_pipeline_inv c pages net r _ Hstart) Hrun)
    as Hinv.
  pose proof (pipe_done_results _ _ _ _ Hinv Hdone) as Hres.
  split; [exact Hres|]. rewrite !startPrinter_keys.
  apply firstOccurrences_same_values. intros x. rewrite Hres. reflexivity.
Qed.

End PipelineOutput.

Lemma Run_output_determined_witness :
  exists st,
    pipeRun Background 3 flakyNet (NewRunner twoWorkers false) pipeSchedule
            {| pool := startPool twoWorkers; jobsClosed := false; received := O;
               workers := [WReceive; WReceive]; resultsCh := [] |} = Some st
    /\ resultsCh st = ["http://h/b"; "http://h/a"; "http://h/a"; "http://h/b"]
    /\ startPrinter (H := asciiOnly) (NewRunner twoWorkers false) (resultsCh st)
       ≡ₚ ["http://h/a"; "http://h/b"].
Proof.
  eexists. split; [vm_compute; reflexivity|]. split; [reflexivity|].
  exact (proj2 (Run_output_determined (H := asciiOnly) twoWorkers
                  (NewRunner twoWorkers false) 3 flakyNet pipeSchedule _ _
                  eq_refl ltac:(vm_compute; reflexivity) ltac:(reflexivity))).
Defined.

(** ** The pipeline comes to its end *)

Lemma pipe_no_deadlock pages net r st :
  PipeInv pages net r st -> pipeDone st = false ->
  exists a st', pipeStep Background pages net r a st = Some st'.
Proof.
  intros [Hinv Hsafe Hrcv Hres Hcl Hret Hws] Hdone.
  destruct (poolDone (pool st)) eqn:Hpool.
  - destruct (jobsClosed st) eqn:Hclosed.
    + unfold pipeDone in Hdone. rewrite Hclosed in Hdone. cbn in Hdone.
      destruct (forallb_false_lookup _ _ Hdone) as (i & w & Hi & Hnot).
      exists (Work i). cbn. rewrite Hi.
      destruct w as [|[|processed todo]|]; cbn; try discriminate; eauto.
      destruct (jobs (pool st) !! received st); [eauto|]. rewrite Hclosed. eauto.
    + exists CloseJobs. cbn. rewrite Hpool, Hclosed. cbn. eauto.
  - destruct (pool_no_deadlock pages net _ Hinv Hpool) as (a & s' & Hstep).
    exists (Fetch a). cbn. rewrite Hstep. eauto.
Qed.

Lemma poolStep_lines_total pages net a s s' :
  PoolInv pages s -> poolStep Background pages net a s = Some s' ->
  jobs s' ++ linesToCome pages net s' ≡ₚ jobs s ++ linesToCome pages net s.
Proof.
  intros Hinv Hstep.
  destruct (poolStep_effect _ _ _ _ _ _ Hstep)
    as (newP & lostP & lostL & _ & HL & Hnew & Hlost & _ & _).
  rewrite (Hlost (inv_ctx _ _ Hinv)), app_nil_r in HL.
  unfold pendingLines in HL. unfold linesToCome.
  destruct Hnew as [[-> ->]|(-> & -> & Hlt)]; cbn in HL; rewrite app_nil_r in HL.
  - rewrite !app_assoc. rewrite !app_assoc in HL. rewrite HL. reflexivity.
  - pose proof (inv_next _ _ Hinv) as Hn.
    rewrite (seqZ_cons (nextPage s) (pages - nextPage s)) by lia. cbn.
    replace (Z.succ (nextPage s)) with (nextPage s + 1) by lia.
    replace (Z.pred (pages - nextPage s)) with (pages - (nextPage s + 1)) by lia.
    rewrite !app_assoc. rewrite !app_assoc in HL. rewrite HL.
    rewrite <- !app_assoc. reflexivity.
Qed.

Lemma workerCost_insert (ws : list Worker) i w w' :
  ws !! i = Some w ->
  (sum_list_with workerCost (<[i := w']> ws) + workerCost w =
   sum_list_with workerCost ws + workerCost w')%nat.
Proof.
  intros Hi. destruct (insert_split ws i w w' Hi) as (l1 & l2 & -> & ->).
  rewrite !sum_list_with_app. cbn. lia.
Qed.

Lemma pipeStep_left pages net r a st st' :
  PipeInv pages net r st -> pipeStep Background pages net r a st = Some st' ->
  S (pipeLeft pages net r st') = pipeLeft pages net r st.
Proof.
  intros [Hinv Hsafe Hrcv Hres Hcl Hret Hws] Hstep. unfold pipeLeft.
  destruct a as [a| |i]; cbn in Hstep.
  - destruct (poolStep Background pages net a (pool st)) as [s'|] eqn:Hpool;
      [|discriminate].
    injection Hstep as <-. cbn [pool jobsClosed received workers resultsCh].
    pose proof (poolStep_stepsLeft _ _ _ _ _ Hinv Hpool) as Hdec.
    destruct (poolStep_jobs _ _ _ _ _ _ Hpool) as (extra & Hjobs).
    pose proof (poolStep_lines_total _ _ _ _ _ Hinv Hpool) as Htotal.
    apply (sum_list_with_Permutation_proper (lineCost r)) in Htotal.
    rewrite Hjobs in Htotal |- *. rewrite drop_app_le by exact Hrcv.
    rewrite !sum_list_with_app in Htotal |- *. lia.
  - destruct (poolDone (pool st)); [|discriminate].
    destruct (jobsClosed st); [discriminate|].
    injection Hstep as <-. cbn. lia.
  - destruct (workers st !! i) as [w|] eqn:Hi; [|discriminate].
    destruct w as [|[|processed todo]|]; cbn in Hstep.
    + destruct (jobs (pool st) !! received st) as [line|] eqn:Hline.
      * injection Hstep as <-. cbn [pool jobsClosed received workers resultsCh].
        pose proof (workerCost_insert _ i _ (WSend (processLine r line)) Hi) as Hcost.
        rewrite (drop_S _ _ _ Hline). rewrite !sum_list_with_app. cbn in Hcost |- *.
        destruct (jobsClosed st); lia.
      * destruct (jobsClosed st) eqn:Hclosed; [|discriminate]. injection Hstep as <-.
        cbn [setWorker pool jobsClosed received workers resultsCh].
        pose proof (workerCost_insert _ i _ WReturned Hi) as Hcost.
        rewrite Hclosed. cbn in Hcost. lia.
    + injection Hstep as <-.
      cbn [setWorker pool jobsClosed received workers resultsCh].
      pose proof (workerCost_insert _ i _ WReceive Hi) as Hcost.
      cbn in Hcost. lia.
    + injection Hstep as <-. cbn [pool jobsClosed received workers resultsCh].
      pose proof (workerCost_insert _ i _ (WSend todo) Hi) as Hcost.
      cbn in Hcost. lia.
    + discriminate.
Qed.

Lemma stepsLeft_done pages net s :
  PoolInv pages s -> poolDone s = true ->
  stepsLeft pages net s = O /\ linesToCome pages net s = [].
Proof.
  intros Hinv Hdone.
  destruct (pool_end pages s Hinv Hdone) as (Hjobs & Hnext & Hall).
  unfold poolDone in Hdone. apply andb_true_iff in Hdone as [Hclosed _].
  unfold stepsLeft, linesToCome.
  rewrite Hclosed, Hjobs, (linesAhead_returned net _ Hall), seqZ_nil by lia.
  split; [|reflexivity]. cbn.
  clear -Hall. induction (fetchers s) as [|f fs IHfs]; [reflexivity|].
  cbn in Hall. apply andb_true_iff in Hall as [Hf0 Hfs].
  destruct f; try discriminate. cbn. apply IHfs. exact Hfs.
Qed.

Lemma pipeLeft_done pages net r st :
  PipeInv pages net r st -> pipeDone st = true -> pipeLeft pages net r st = O.
Proof.
  intros [Hinv Hsafe Hrcv Hres Hcl Hret Hws] Hdone. unfold pipeDone in Hdone.
  apply andb_true_iff in Hdone as [Hclosed Hall].
  destruct (stepsLeft_done pages net _ Hinv (Hcl Hclosed)) as [Hsteps Hlines].
  assert (Hlen : received st = length (jobs (pool st))).
  { destruct (workers st) as [|w ws] eqn:Hw; [cbn in Hws; lia|].
    cbn in Hall. apply andb_true_iff in Hall as [Hw0 _].
    destruct w; try discriminate. apply (Hret O). reflexivity. }
  unfold pipeLeft. rewrite Hsteps, Hclosed, Hlines, Hlen, drop_all. cbn.
  clear -Hall. induction (workers st) as [|w ws IHws]; [reflexivity|].
  cbn in Hall. apply andb_true_iff in Hall as [Hw0 Hws].
  destruct w; try discriminate. cbn. apply IHws. exact Hws.
Qed.

Lemma pipe_can_finish pages net r st :
  PipeInv pages net r st ->
  exists acts st', pipeRun Background pages net r acts st = Some st'
                   /\ pipeDone st' = true
                   /\ length acts = pipeLeft pages net r st.
Proof.
  remember (pipeLeft pages net r st) as n eqn:Hn.
  revert st Hn; induction n as [|n IH]; intros st Hn Hinv.
  - destruct (pipeDone st) eqn:Hdone.
    + exists [], st. auto.
    + destruct (pipe_no_deadlock pages net r st Hinv Hdone) as (a & st' & Hstep).
      pose proof (pipeStep_left _ _ _ _ _ _ Hinv Hstep). lia.
  - destruct (pipeDone st) eqn:Hdone.
    + rewrite (pipeLeft_done _ _ _ _ Hinv Hdone) in Hn. discriminate.
    + destruct (pipe_no_deadlock pages net r st Hinv Hdone) as (a & st1 & Hstep).
      pose proof (pipeStep_left _ _ _ _ _ _ Hinv Hstep) as Hdec.
      destruct (IH st1) as (acts & st' & Hrun & Hd & Hlen);
        [lia | eapply pipeStep_inv; eauto |].
      exists (a :: acts), st'. cbn. rewrite Hstep. auto.
Qed.

Lemma pipeRun_length pages net r acts st st' :
  PipeInv pages net r st -> pipeRun Background pages net r acts st = Some st' ->
  (length acts + pipeLeft pages net r st' = pipeLeft pages net r st)%nat.
Proof.
  revert st; induction acts as [|a acts IH]; intros st Hinv; cbn.
  - intros [= <-]. reflexivity.
  - destruct (pipeStep Background pages net r a st) as [st1|] eqn:Hstep; [|discriminate].
    intros Hrun. pose proof (pipeStep_left _ _ _ _ _ _ Hinv Hstep).
    pose proof (IH st1 (pipeStep_inv _ _ _ _ _ _ Hinv Hstep) Hrun). lia.
Qed.

(** Without the capacities of the channels the pipeline comes to its end:
    every run can be carried on until [jobs] is closed and every worker
    has returned, it is never stuck before, and the steps taken and the
    steps of any way to the end add up to [pipeLeft] of the first state. *)
Lemma Run_pipeline_finishes (c : Config) (r : Runner) (pages : Z)
        (net : Z -> Z -> Attempt) (acts : list PipeAction) (st0 st : Pipeline) :
  Run_pipeline c = Some st0 ->
  pipeRun Background pages net r acts st0 = Some st ->
  (pipeDone st = false ->
   exists a st', pipeStep Background pages net r a st = Some st')
  /\ exists acts' st',
       pipeRun Background pages net r acts' st = Some st'
       /\ pipeDone st' = true
       /\ (length acts + length acts' = pipeLeft pages net r st0)%nat.
Proof.
  intros Hstart Hrun.
  pose proof (Run_pipeline_inv c pages net r _ Hstart) as Hinv0.
  pose proof (pipeRun_inv _ _ _ _ _ _ Hinv0 Hrun) as Hinv.
  split; [apply pipe_no_deadlock; exact Hinv|].
  destruct (pipe_can_finish pages net r st Hinv) as (acts' & st' & Hrun' & Hdone & Hlen).
  exists acts', st'. split; [exact Hrun'|]. split; [exact Hdone|].
  pose proof (pipeRun_length _ _ _ _ _ _ Hinv0 Hrun). lia.
Qed.

Lemma Run_pipeline_finishes_witness :
  pipeLeft 3 flakyNet (NewRunner twoWorkers false)
    {| pool := startPool twoWorkers; jobsClosed := false; received := O;
       workers := [WReceive; WReceive]; resultsCh := [] |} = 35%nat
  /\ exists acts' st',
       pipeRun Background 3 flakyNet (NewRunner twoWorkers false) acts'
         {| pool := startPool twoWorkers; jobsClosed := false; received := O;
            workers := [WReceive; WReceive]; resultsCh := [] |} = Some st'
       /\ pipeDone st' = true
       /\ (0 + length acts' =
           pipeLeft 3 flakyNet (NewRunner twoWorkers false)
             {| pool := startPool twoWorkers; jobsClosed := false; received := O;
                workers := [WReceive; WReceive]; resultsCh := [] |})%nat.
Proof.
  split; [vm_compute; reflexivity|].
  exact (proj2 (Run_pipeline_finishes twoWorkers (NewRunner twoWorkers false) 3
                  flakyNet [] _ _ eq_refl eq_refl)).
Defined.

(** ** The base domain and the pattern of the query *)

Lemma upTo_same_bytes chars chars' s :
  (forall c, inBytes c chars = inBytes c chars') -> upTo s chars = upTo s chars'.
Proof.
  intros Hsame. induction s as [|a s IH]; [reflexivity|].
  cbn. rewrite Hsame, IH. reflexivity.
Qed.

(** Cutting at a separator and dropping the wild cards commute. *)
Lemma replace_star_upTo chars s :
  inBytes "*" chars = false ->
  ReplaceAll (upTo s chars) "*" "" = upTo (ReplaceAll s "*" "") chars.
Proof.
  intros Hstar. unfold ReplaceAll. induction s as [|a s IH]; [reflexivity|].
  cbn [upTo replace_go]. rewrite HasPrefix_byte.
  destruct (inBytes a chars) eqn:Ha.
  - destruct (Ascii.eqb_spec a "*") as [->|Hne]; [congruence|].
    cbn [upTo]. rewrite Ha. reflexivity.
  - cbn [replace_go]. rewrite HasPrefix_byte.
    destruct (Ascii.eqb a "*"); cbn [String.length Nat.sub].
    + rewrite !append_empty_l. exact IH.
    + cbn [upTo]. rewrite Ha, IH. reflexivity.
Qed.

Lemma TrimRight_idempotent s cut : TrimRight (TrimRight s cut) cut = TrimRight s cut.
Proof.
  induction s as [|a s IH]; [reflexivity|].
  cbn [TrimRight]. destruct (TrimRight s cut) as [|b t] eqn:E.
  - destruct (inBytes a cut) eqn:Ha; [reflexivity|]. cbn. rewrite Ha. reflexivity.
  - change (TrimRight (String a (String b t)) cut)
      with (match TrimRight (String b t) cut with
            | EmptyString => if inBytes a cut then EmptyString else String a EmptyString
            | t2 => String a t2
            end).
    rewrite IH. reflexivity.
Qed.

Lemma Trim_idempotent s cut : Trim (Trim s cut) cut = Trim s cut.
Proof.
  unfold Trim.
  assert (Hleft : TrimLeft (TrimRight (TrimLeft s cut) cut) cut
                  = TrimRight (TrimLeft s cut) cut).
  { destruct (TrimRight (TrimLeft s cut) cut) as [|a t] eqn:E; [reflexivity|].
    destruct (TrimRight_head _ _ _ _ E) as [t0 Ht0].
    cbn. rewrite (TrimLeft_head _ _ _ _ Ht0). reflexivity. }
  rewrite Hleft. apply TrimRight_idempotent.
Qed.

Lemma TrimSuffix_app s suffix : TrimSuffix (s +:+ suffix) suffix = s.
Proof.
  unfold TrimSuffix.
  replace (HasSuffix (s +:+ suffix) suffix) with true
    by (symmetry; apply HasSuffix_iff; eauto).
  rewrite length_append.
  replace (String.length s + String.length suffix - String.length suffix)%nat
    with (String.length s) by lia.
  apply sliceTo_app.
Qed.

Lemma TrimSuffix_star_absent s : inBytes "*" s = false -> TrimSuffix s "*" = s.
Proof.
  intros Hs. unfold TrimSuffix. destruct (HasSuffix s "*") eqn:E; [|reflexivity].
  apply HasSuffix_iff in E as [stem ->]. rewrite inBytes_app in Hs.
  cbn in Hs. rewrite orb_true_r in Hs. discriminate.
Qed.

Lemma index_from_present c s i :
  inBytes c s = true -> 0 <= i -> 0 <= index_from i s (String c "").
Proof.
  revert i; induction s as [|a s IH]; intros i; [discriminate|].
  cbn [inBytes index_from]. rewrite HasPrefix_byte, (Ascii.eqb_sym c a).
  destruct (Ascii.eqb a c); cbn; [lia|]. intros Hs Hi. apply IH; [exact Hs | lia].
Qed.

Lemma Contains_present c s : inBytes c s = true -> Contains s (String c "") = true.
Proof.
  intros Hs. unfold Contains, Index. apply Z.leb_le. apply index_from_present; [exact Hs | lia].
Qed.

Lemma Contains_byte c s : Contains s (String c "") = inBytes c s.
Proof.
  destruct (inBytes c s) eqn:E; [apply Contains_present | apply Contains_absent]; exact E.
Qed.

(** The cleaned host of a pattern: the same in [normalizeURLForCDX] and in
    the monolithic [main]. *)
Lemma cleaned_host u :
  normalizeURLForCDX u true = "*." +:+ main_baseDomain u true.
Proof.
  unfold normalizeURLForCDX, main_baseDomain. cbn zeta. f_equal. f_equal.
  rewrite !IndexAny_upTo.
  rewrite (upTo_same_bytes "/:\\" "/:\").
  - apply replace_star_upTo. reflexivity.
  - intros c. cbn. rewrite orb_false_r.
    destruct (Ascii.eqb c "\"); rewrite ?orb_true_r, ?orb_false_r; reflexivity.
Qed.

Lemma cleaned_host_facts u :
  inBytes "*" (main_baseDomain u true) = false
  /\ Trim (main_baseDomain u true) " ." = main_baseDomain u true.
Proof.
  unfold main_baseDomain. cbn zeta. split; [|apply Trim_idempotent].
  match goal with |- inBytes _ ?t = false => destruct (inBytes "*" t) eqn:E end;
    [|reflexivity].
  unfold Trim in E. apply inBytes_TrimRight, inBytes_TrimLeft in E.
  rewrite IndexAny_upTo, <- replace_star_upTo in E by reflexivity.
  apply replace_star in E as [_ E]. congruence.
Qed.

(** On a pattern without wild card [NormalizeBaseDomain] is the cleaned
    host. *)
Lemma NormalizeBaseDomain_plain c :
  Contains (URLPattern c) "*" = false ->
  NormalizeBaseDomain c = main_baseDomain (URLPattern c) true.
Proof.
  intros Hstar. pose proof (cleaned_host (URLPattern c)) as Hclean.
  destruct (cleaned_host_facts (URLPattern c)) as [Hno Htrim].
  set (s := main_baseDomain (URLPattern c) true) in *.
  assert (Hfalse : normalizeURLForCDX (URLPattern c) false = s +:+ "*").
  { unfold normalizeURLForCDX in Hclean |- *. cbn zeta in Hclean |- *.
    rewrite Hstar. cbn [negb]. apply (String.app_inj "*.") in Hclean.
    rewrite Hclean. reflexivity. }
  unfold NormalizeBaseDomain. cbn zeta. rewrite Hfalse.
  rewrite TrimPrefix_absent, TrimSuffix_app; [exact Htrim|].
  destruct s as [|a t]; [reflexivity|].
  rewrite append_cons. cbn [HasPrefix]. cbn [inBytes] in Hno.
  apply orb_false_iff in Hno as [Ha _]. rewrite Ascii.eqb_sym, Ha. reflexivity.
Qed.

Lemma NewRunner_fields c excludeProvided :
  cfg (NewRunner c excludeProvided) = c
  /\ baseDomain (NewRunner c excludeProvided) = NormalizeBaseDomain c.
Proof.
  unfold NewRunner. destruct (EffectiveExclude c excludeProvided) as [ex ?].
  destruct (CompileExtRegex (IncludeExt c) ex) as [re inc]. split; reflexivity.
Qed.

Lemma hostName_no_star h c :
  hostName h -> inBytes c "/:\*" = true -> inBytes c h = false.
Proof.
  intros (_ & Hbytes & _) Hc. destruct (inBytes c h) eqn:E; [|reflexivity].
  apply Hbytes, hostByte_facts in E as (_ & Hsep & Hstar & _).
  cbn in Hc, Hsep, Hstar.
  destruct (Ascii.eqb c "/"), (Ascii.eqb c ":"), (Ascii.eqb c "\"), (Ascii.eqb c "*");
    discriminate.
Qed.

Lemma upTo_absent chars s :
  (forall c, inBytes c s = true -> inBytes c chars = false) -> upTo s chars = s.
Proof.
  induction s as [|a s IH]; intros Hs; [reflexivity|].
  cbn. rewrite (Hs a) by (cbn; rewrite Ascii.eqb_refl; reflexivity).
  rewrite IH; [reflexivity|]. intros c Hc. apply Hs. cbn. rewrite Hc. apply orb_true_r.
Qed.

(** The monolithic derivation on a host name behind the wild-card label. *)
Lemma main_baseDomain_wildcard h :
  hostName h -> main_baseDomain ("*." +:+ h) true = h.
Proof.
  intros Hh. pose proof Hh as (Hne & Hbytes & Htrim).
  destruct (last_byte h Hne) as (h' & c & Hlast).
  assert (Hc : solid c).
  { apply hostByte_facts, Hbytes. rewrite Hlast, inBytes_app. cbn [inBytes].
    rewrite Ascii.eqb_refl. apply orb_true_r. }
  assert (Hspace : TrimSpace ("*." +:+ h) = "*." +:+ h).
  { unfold TrimSpace. rewrite !append_cons, append_empty_l.
    rewrite trimLeftSpace_solid by (split; reflexivity).
    rewrite Hlast.
    change (String "*" (String "." (h' +:+ String c "")))
      with (("*." +:+ h') +:+ String c "") at 1.
    - rewrite (trimRightSpace_before_solid _ c "" Hc). reflexivity. }
  unfold main_baseDomain. cbn zeta. rewrite Hspace, IndexAny_upTo.
  rewrite !append_cons, append_empty_l.
  rewrite !TrimPrefix_absent by reflexivity.
  unfold ReplaceAll. cbn [replace_go HasPrefix]. rewrite Ascii.eqb_refl.
  cbn [andb String.length Nat.sub]. rewrite append_empty_l.
  cbn [replace_go HasPrefix].
  change (Ascii.eqb "." "*") with false. cbn [andb].
  fold (ReplaceAll h "*" "").
  rewrite replace_star_absent by (apply hostName_no_star; [exact Hh | reflexivity]).
  rewrite upTo_absent.
  - unfold Trim. cbn [TrimLeft inBytes]. exact Htrim.
  - intros x Hx. cbn [inBytes] in Hx. apply orb_true_iff in Hx as [Hx|Hx].
    + apply Ascii.eqb_eq in Hx. subst x. reflexivity.
    + destruct (inBytes x "/:\") eqn:E; [|reflexivity].
      rewrite (hostName_no_star h x Hh) in Hx; [discriminate|].
      cbn in E |- *. destruct (Ascii.eqb x "/"), (Ascii.eqb x ":"), (Ascii.eqb x "\");
        try discriminate; reflexivity.
Qed.

Lemma NormalizeBaseDomain_usual c scheme h p :
  URLPattern c = scheme +:+ h +:+ p ->
  In scheme [""; "http://"; "https://"] -> hostName h -> pathOrPort p ->
  HasPrefix p "://" = false -> inBytes "*" p = false ->
  NormalizeBaseDomain c = h.
Proof.
  intros Hu Hs Hh Hp Hno Hstar.
  destruct (normalizeURLForCDX_usual scheme h p Hs Hh Hp Hno) as [Hsub _].
  rewrite <- Hu, cleaned_host in Hsub. apply (String.app_inj "*.") in Hsub.
  rewrite <- Hsub. apply NormalizeBaseDomain_plain.
  rewrite Hu, Contains_byte, !inBytes_app, Hstar.
  rewrite (hostName_no_star h "*" Hh) by reflexivity.
  destruct Hs as [<-|[<-|[<-|[]]]]; reflexivity.
Qed.

(** X8.  The base domain of the runner and the pattern of its queries.
    For a pattern without wild card, the query in subdomain mode asks for
    the subdomains of exactly the base domain that the printer filters by,
    and this is the base domain the monolithic [main] derived; for an
    optional scheme, a host name and nothing more or a path or port it is
    the host name, and for a host name behind the wild-card label too.  A
    pattern with a wild card after a path keeps its path in the base
    domain, which the query and the monolithic version cut off. *)
Theorem NormalizeBaseDomain_matches_query (c : Config) (excludeProvided : bool) :
  baseDomain (NewRunner c excludeProvided) = NormalizeBaseDomain c
  /\ (Contains (URLPattern c) "*" = false ->
      normalizeURLForCDX (URLPattern c) true = "*." +:+ NormalizeBaseDomain c
      /\ NormalizeBaseDomain c = main_baseDomain (URLPattern c) true)
  /\ (forall scheme h p,
        URLPattern c = scheme +:+ h +:+ p ->
        In scheme [""; "http://"; "https://"] -> hostName h -> pathOrPort p ->
        HasPrefix p "://" = false -> inBytes "*" p = false ->
        NormalizeBaseDomain c = h)
  /\ (forall h, URLPattern c = "*." +:+ h -> hostName h ->
        NormalizeBaseDomain c = h /\ main_baseDomain (URLPattern c) true = h)
  /\ NormalizeBaseDomain (withPattern c "example.com/*") = "example.com/"
  /\ main_baseDomain "example.com/*" true = "example.com"
  /\ normalizeURLForCDX "example.com/*" true = "*.example.com".
Proof.
  split; [apply NewRunner_fields|].
  split; [|split; [|split; [|repeat split; vm_compute; reflexivity]]].
  - intros Hstar. pose proof (NormalizeBaseDomain_plain c Hstar) as Heq.
    split; [|exact Heq]. rewrite Heq. apply cleaned_host.
  - intros scheme h p Hu Hs Hh Hp Hno Hstar.
    apply (NormalizeBaseDomain_usual c scheme h p); assumption.
  - intros h Hu Hh. split; [|rewrite Hu; apply main_baseDomain_wildcard; exact Hh].
    unfold NormalizeBaseDomain, normalizeURLForCDX. cbn zeta.
    replace (Contains (URLPattern c) "*") with true.
    + cbn [negb]. rewrite Hu, TrimPrefix_app.
      rewrite TrimSuffix_star_absent by (apply hostName_no_star; [exact Hh | reflexivity]).
      apply Hh.
    + rewrite Hu, Contains_byte, inBytes_app. reflexivity.
Qed.

(** ** [normalizeURL] *)

Lemma TrimSpace_solid_ends s a t x c :
  s = String a t -> solid a -> s = x +:+ String c "" -> solid c -> TrimSpace s = s.
Proof.
  intros Hfirst Ha Hlast Hc. unfold TrimSpace.
  rewrite Hfirst, (trimLeftSpace_solid a t Ha), <- Hfirst, Hlast.
  rewrite (trimRightSpace_before_solid x c "" Hc). reflexivity.
Qed.

Lemma TrimSpace_scheme_host scheme h :
  In scheme [""; "http://"; "https://"] -> hostName h ->
  TrimSpace (scheme +:+ h) = scheme +:+ h.
Proof.
  intros Hs (Hne & Hbytes & _).
  destruct (last_byte h Hne) as (h' & c & Hlast).
  assert (Hc : solid c).
  { apply hostByte_facts, Hbytes. rewrite Hlast, inBytes_app. cbn [inBytes].
    rewrite Ascii.eqb_refl. apply orb_true_r. }
  assert (Hfirst : exists a t, scheme +:+ h = String a t /\ solid a).
  { destruct Hs as [<-|[<-|[<-|[]]]];
      try (eexists _, _; split; [reflexivity | split; reflexivity]).
    rewrite append_empty_l. destruct h as [|a t]; [contradiction|].
    exists a, t. split; [reflexivity|].
    apply hostByte_facts, Hbytes. cbn [inBytes]. rewrite Ascii.eqb_refl. reflexivity. }
  destruct Hfirst as (a & t & Hat & Ha).
  apply (TrimSpace_solid_ends _ a t (scheme +:+ h') c Hat Ha); [|exact Hc].
  rewrite Hlast, append_assoc. reflexivity.
Qed.

(** X9.  [normalizeURL], which the comment of [normalizeURLForCDX] refers
    to.  Its result always holds a wild card.  On an optional scheme and a
    host name the two functions agree: the host name with a trailing wild
    card.  They part on a pattern that holds a wild card, of which
    [normalizeURL] drops the scheme, and on a pattern with a path, which
    [normalizeURL] keeps. *)
Theorem normalizeURL_and_normalizeURLForCDX (u : string) :
  Contains (normalizeURL u) "*" = true
  /\ (forall scheme h,
        u = scheme +:+ h -> In scheme [""; "http://"; "https://"] -> hostName h ->
        normalizeURL u = h +:+ "*" /\ normalizeURLForCDX u false = h +:+ "*")
  /\ normalizeURL "http://*.example.com" = "*.example.com"
  /\ normalizeURLForCDX "http://*.example.com" false = "http://*.example.com"
  /\ normalizeURL "example.com/a" = "example.com/a*"
  /\ normalizeURLForCDX "example.com/a" false = "example.com*".
Proof.
  split; [|split; [|repeat split; vm_compute; reflexivity]].
  - unfold normalizeURL. cbn zeta.
    set (x := TrimPrefix (TrimPrefix (TrimSpace u) "http://") "https://").
    destruct (Contains x "*") eqn:E; cbn [negb]; [exact E|].
    rewrite Contains_byte, inBytes_app. cbn. apply orb_true_r.
  - intros scheme h -> Hs Hh. split.
    + pose proof Hh as (Hne & Hbytes & _).
      unfold normalizeURL. cbn zeta. rewrite (TrimSpace_scheme_host scheme h Hs Hh).
      assert (Hhttp : HasPrefix (h +:+ "") "http://" = false).
      { change "http://" with ("http" +:+ "://").
        apply host_no_scheme; [exact Hbytes | left; reflexivity | reflexivity |].
        intros c. apply scheme_letters. cbn; auto. }
      assert (Hhttps : HasPrefix (h +:+ "") "https://" = false).
      { change "https://" with ("https" +:+ "://").
        apply host_no_scheme; [exact Hbytes | left; reflexivity | reflexivity |].
        intros c. apply scheme_letters. cbn; auto. }
      rewrite append_empty_r in Hhttp, Hhttps.
      assert (Hstrip : TrimPrefix (TrimPrefix (scheme +:+ h) "http://") "https://" = h).
      { destruct Hs as [<-|[<-|[<-|[]]]].
        - rewrite append_empty_l.
          rewrite (TrimPrefix_absent "http://") by exact Hhttp.
          apply TrimPrefix_absent. exact Hhttps.
        - rewrite TrimPrefix_app. apply TrimPrefix_absent. exact Hhttps.
        - rewrite (TrimPrefix_absent "http://") by (rewrite !append_cons; reflexivity).
          apply TrimPrefix_app. }
      rewrite Hstrip, Contains_byte.
      rewrite (hostName_no_star h "*" Hh) by reflexivity. reflexivity.
    + destruct (normalizeURLForCDX_usual scheme h "" Hs Hh) as [_ Hplain];
        [left; reflexivity | reflexivity|].
      rewrite append_empty_r in Hplain. apply Hplain. reflexivity.
Qed.

(** ** The values of [processLine] *)

Lemma decodeEscapes_nonempty s mode : s <> "" -> decodeEscapes s mode <> "".
Proof.
  destruct s as [|a t]; [contradiction|]. intros _. cbn [decodeEscapes].
  destruct (Ascii.eqb a "%").
  - destruct t as [|h1 [|h2 t2]]; discriminate.
  - destruct (Ascii.eqb a "+"); discriminate.
Qed.

Lemma pairKey_nonempty p k : pairKey p = Some k -> k <> "".
Proof.
  unfold pairKey. destruct (String.eqb p ""); [discriminate|].
  set (k0 := if 0 <=? Index p "=" then sliceTo (Z.to_nat (Index p "=")) p else p).
  destruct (String.eqb_spec k0 "") as [|Hne]; [discriminate|].
  unfold QueryUnescape, unescape.
  destruct (escapesOK k0 encodeQueryComponent); intros [= <-]; [|exact Hne].
  apply decodeEscapes_nonempty. exact Hne.
Qed.

Lemma queryKeys_nonempty pairs : Forall (fun k => k <> "") (queryKeys pairs).
Proof.
  induction pairs as [|p ps IH]; [constructor|].
  cbn. destruct (pairKey p) as [k|] eqn:E; [|exact IH].
  constructor; [exact (pairKey_nonempty p k E) | exact IH].
Qed.

(** X10.  The values of [processLine].  The white space around the line
    does not matter.  Outside the only-query-keys mode a line gives one
    value at most.  A value is never the empty string, unless the no-query
    transform applies, which turns a line that is only a query into the
    empty string.  When no mode flag is set a value is passed through
    unchanged if it is processed again. *)
Theorem processLine_values (r : Runner) (line : string) :
  processLine r (TrimSpace line) = processLine r line
  /\ (OnlyQuery (cfg r) = true \/ OnlyQueryKeys (cfg r) = false ->
      (length (processLine r line) <= 1)%nat)
  /\ (OnlyQuery (cfg r) = true \/ OnlyQueryKeys (cfg r) = true
      \/ NoQuery (cfg r) = false ->
      Forall (fun v => v <> "") (processLine r line))
  /\ (OnlyQuery (cfg r) = false -> OnlyQueryKeys (cfg r) = false ->
      NoQuery (cfg r) = false ->
      forall v, In v (processLine r line) -> processLine r v = [v])
  /\ processLine noQueryRunner "?x=1" = [""].
Proof.
  assert (Htrim : processLine r (TrimSpace line) = processLine r line).
  { unfold processLine. cbn zeta. rewrite TrimSpace_idempotent. reflexivity. }
  split; [exact Htrim|].
  split; [|split; [|split; [|vm_compute; reflexivity]]].
  - intros Hmode. unfold processLine. cbn zeta.
    destruct (String.eqb (TrimSpace line) ""); [cbn; lia|].
    destruct (extFiltered r _); [cbn; lia|].
    destruct (OnlyQuery (cfg r)).
    + destruct (Parse (TrimSpace line)) as [u|]; [|cbn; lia].
      destruct (nonEmpty (RawQuery u)); cbn; lia.
    + destruct Hmode as [Hmode| ->]; [discriminate|].
      destruct (NoQuery (cfg r)), (Parse (TrimSpace line)); cbn; lia.
  - intros Hmode. unfold processLine. cbn zeta.
    destruct (String.eqb_spec (TrimSpace line) "") as [|Hne]; [constructor|].
    destruct (extFiltered r _); [constructor|].
    destruct (OnlyQuery (cfg r)).
    + destruct (Parse (TrimSpace line)) as [u|]; [|constructor].
      destruct (String.eqb_spec (RawQuery u) "") as [|Hq];
        unfold nonEmpty; [rewrite e; constructor|].
      rewrite (eqb_empty_false _ Hq). cbn. constructor; [exact Hq | constructor].
    + destruct (OnlyQueryKeys (cfg r)).
      * destruct (Parse (TrimSpace line)) as [u|]; [|constructor].
        destruct (nonEmpty (RawQuery u)); [apply queryKeys_nonempty | constructor].
      * destruct Hmode as [Hmode|[Hmode| ->]]; try discriminate.
        constructor; [exact Hne | constructor].
  - intros Hq Hk Hn v. unfold processLine at 1. cbn zeta. rewrite Hq, Hk, Hn.
    destruct (String.eqb_spec (TrimSpace line) "") as [|Hne]; [contradiction|].
    destruct (extFiltered r _) eqn:Hf; [contradiction|].
    intros [<-|[]]. unfold processLine. cbn zeta.
    rewrite TrimSpace_idempotent, (eqb_empty_false _ Hne), Hf, Hq, Hk, Hn.
    reflexivity.
Qed.

(** ** The segments that [printPaths] writes *)

Lemma split_go_byte c cur s :
  split_go (String c "") O cur s =
  match s with
  | EmptyString => [cur]
  | String a s' =>
      if Ascii.eqb a c then cur :: split_go (String c "") O EmptyString s'
      else split_go (String c "") O (cur +:+ String a EmptyString) s'
  end.
Proof.
  destruct s as [|a s']; [reflexivity|]. cbn [split_go].
  rewrite HasPrefix_byte. reflexivity.
Qed.

Lemma split_go_pieces c cur s piece :
  In piece (split_go (String c "") O cur s) ->
  (inBytes c cur = false -> inBytes c piece = false)
  /\ forall x, inBytes x piece = true -> inBytes x cur = true \/ inBytes x s = true.
Proof.
  revert cur; induction s as [|a s IH]; intros cur; rewrite split_go_byte.
  - intros [<-|[]]. auto.
  - destruct (Ascii.eqb_spec a c) as [->|Hne].
    + intros [<-|Hin]; [auto|].
      destruct (IH _ Hin) as [Hno Hx]. split; [intros _; apply Hno; reflexivity|].
      intros x Hp. destruct (Hx x Hp) as [Hc|Hs]; [discriminate|].
      right. cbn. rewrite Hs. apply orb_true_r.
    + intros Hin. destruct (IH _ Hin) as [Hno Hx]. split.
      * intros Hcur. apply Hno. rewrite inBytes_app, Hcur. cbn.
        rewrite orb_false_r. apply Ascii.eqb_neq. congruence.
      * intros x Hp. destruct (Hx x Hp) as [Hc|Hs].
        -- rewrite inBytes_app in Hc. cbn in Hc. rewrite orb_false_r in Hc.
           apply orb_true_iff in Hc as [Hc|Hc]; [left; exact Hc|].
           right. cbn. rewrite Hc. reflexivity.
        -- right. cbn. rewrite Hs. apply orb_true_r.
Qed.

Lemma trimLeftSpace_suffix_bounded n s :
  (String.length s <= n)%nat -> exists pre, s = pre +:+ trimLeftSpace s.
Proof.
  revert s; induction n as [|n IH]; intros s Hn.
  - destruct s; [exists ""; reflexivity | cbn in Hn; lia].
  - destruct s as [|a t]; [exists ""; reflexivity|]. cbn [String.length] in Hn.
    cbn [trimLeftSpace]. destruct (asciiSpace a).
    { destruct (IH t ltac:(lia)) as [pre Hpre]. exists (String a pre).
      rewrite append_cons, <- Hpre. reflexivity. }
    destruct t as [|b t2]; [exists ""; reflexivity|]. cbn [String.length] in Hn.
    destruct (space2 a b).
    { destruct (IH t2 ltac:(lia)) as [pre Hpre]. exists (String a (String b pre)).
      rewrite !append_cons, <- Hpre. reflexivity. }
    destruct t2 as [|c t3]; [exists ""; reflexivity|]. cbn [String.length] in Hn.
    destruct (space3 a b c); [|exists ""; reflexivity].
    destruct (IH t3 ltac:(lia)) as [pre Hpre].
    exists (String a (String b (String c pre))).
    rewrite !append_cons, <- Hpre. reflexivity.
Qed.

Lemma inBytes_TrimSpace c s : inBytes c (TrimSpace s) = true -> inBytes c s = true.
Proof.
  unfold TrimSpace. intros Hc.
  destruct (trimRightSpace_prefix (trimLeftSpace s)) as [rest Hrest].
  destruct (trimLeftSpace_suffix_bounded (String.length s) s ltac:(lia)) as [pre Hpre].
  rewrite Hpre, Hrest, !inBytes_app, Hc. rewrite orb_true_r. reflexivity.
Qed.

Lemma pathSegments_spec res seg :
  In seg (pathSegments res) ->
  seg <> "" /\ TrimSpace seg = seg /\ inBytes "/" seg = false
  /\ exists u, Parse res = Some u
               /\ forall x, inBytes x seg = true -> inBytes x (Path u) = true.
Proof.
  unfold pathSegments. destruct (Parse res) as [u|]; [|contradiction].
  destruct (String.eqb (Path u) ""); [contradiction|].
  rewrite filter_In, in_map_iff. intros [(piece & <- & Hpiece) Hne].
  destruct (split_go_pieces "/" "" (Path u) piece Hpiece) as [Hno Hx].
  split; [|split; [apply TrimSpace_idempotent|split]].
  - intros Heq. unfold nonEmpty in Hne. rewrite Heq in Hne. discriminate.
  - destruct (inBytes "/" (TrimSpace piece)) eqn:E; [|reflexivity].
    apply inBytes_TrimSpace in E. rewrite Hno in E; [discriminate | reflexivity].
  - exists u. split; [reflexivity|]. intros x Hseg.
    apply inBytes_TrimSpace in Hseg. destruct (Hx x Hseg) as [Hc|Hs];
      [discriminate | exact Hs].
Qed.

(** X11.  The segments that [printPaths] writes.  Every segment is not
    empty, has no white space around it and holds no slash, and its bytes
    are bytes of the decoded path of one of the results; so an escaped
    slash of a result separates two segments, and an escaped space around
    a segment is dropped. *)
Theorem printPaths_segments (resultsCh : list string) :
  Forall (fun seg =>
            seg <> "" /\ TrimSpace seg = seg /\ inBytes "/" seg = false
            /\ exists res u, In res resultsCh /\ Parse res = Some u
                 /\ forall x, inBytes x seg = true -> inBytes x (Path u) = true)
         (printPaths resultsCh)
  /\ printPaths ["http://h/a%2Fb/%20c%20//d e"; "http://h"; "/b/a/"] = ["a"; "b"; "c"; "d e"].
Proof.
  split; [|vm_compute; reflexivity].
  apply Forall_forall. intros seg Hin.
  unfold printPaths in Hin. rewrite printPaths_loop_keys in Hin.
  fold (printDefault (flat_map pathSegments resultsCh)) in Hin.
  rewrite printDefault_firstOccurrences, firstOccurrences_elem in Hin.
  apply list_elem_of_In, in_flat_map in Hin as (res & Hres & Hseg).
  destruct (pathSegments_spec res seg Hseg) as (Hne & Htrim & Hslash & u & Hu & Hbytes).
  split; [exact Hne|]. split; [exact Htrim|]. split; [exact Hslash|].
  exists res, u. auto.
Qed.

(** ** [Run] with the capacities of the channels *)

Lemma forallb_lookup {A} (f : A -> bool) (l : list A) i x :
  forallb f l = true -> l !! i = Some x -> f x = true.
Proof.
  intros Hall Hi. rewrite forallb_forall in Hall. apply Hall.
  apply list_elem_of_In. eapply list_elem_of_lookup_2. exact Hi.
Qed.

Lemma sum_list_with_insert {A} (g : A -> nat) (l : list A) i x x' :
  l !! i = Some x ->
  (sum_list_with g (<[i := x']> l) + g x = sum_list_with g l + g x')%nat.
Proof.
  intros Hi. destruct (insert_split l i x x' Hi) as (l1 & l2 & -> & ->).
  rewrite !sum_list_with_app. cbn. lia.
Qed.

Lemma poolStep_pending_sum (g : string -> nat) pages net a s s' rcv :
  PoolInv pages s -> (rcv <= length (jobs s))%nat ->
  poolStep Background pages net a s = Some s' ->
  sum_list_with g (drop rcv (jobs s') ++ linesToCome pages net s')
  = sum_list_with g (drop rcv (jobs s) ++ linesToCome pages net s).
Proof.
  intros Hinv Hrcv Hpool.
  destruct (poolStep_jobs _ _ _ _ _ _ Hpool) as (extra & Hjobs).
  pose proof (poolStep_lines_total _ _ _ _ _ Hinv Hpool) as Htotal.
  apply (sum_list_with_Permutation_proper g) in Htotal.
  rewrite Hjobs in Htotal |- *. rewrite drop_app_le by exact Hrcv.
  rewrite !sum_list_with_app in Htotal |- *. lia.
Qed.

Lemma pipeStep_done pages net r a st :
  PipeInv pages net r st -> pipeDone st = true ->
  pipeStep Background pages net r a st = None.
Proof.
  intros Hinv Hdone. unfold pipeDone in Hdone.
  apply andb_true_iff in Hdone as [Hclosed Hall].
  destruct a as [a| |i]; cbn.
  - rewrite (poolStep_done pages net a _ (pipe_closed _ _ _ _ Hinv Hclosed)).
    reflexivity.
  - rewrite Hclosed, andb_false_r. reflexivity.
  - destruct (workers st !! i) as [w|] eqn:Hi; [|reflexivity].
    pose proof (forallb_lookup _ _ _ _ Hall Hi) as Hw.
    destruct w; try discriminate. reflexivity.
Qed.

(** A step of the pipeline sends nothing on [resultsCh], or it is the
    send of a worker. *)
Lemma pipeStep_results ctx pages net r a st st' :
  pipeStep ctx pages net r a st = Some st' ->
  resultsCh st' = resultsCh st
  \/ exists i x todo, a = Work i /\ workers st !! i = Some (WSend (x :: todo))
                      /\ resultsCh st' = resultsCh st ++ [x].
Proof.
  intros Hstep. destruct a as [a| |i]; cbn in Hstep.
  - destruct (poolStep ctx pages net a (pool st)); [|discriminate].
    injection Hstep as <-. left. reflexivity.
  - destruct (poolDone (pool st) && negb (jobsClosed st)); [|discriminate].
    injection Hstep as <-. left. reflexivity.
  - destruct (workers st !! i) as [w|] eqn:Hi; [|discriminate].
    destruct w as [|[|x todo]|]; cbn in Hstep.
    + destruct (jobs (pool st) !! received st);
        [|destruct (jobsClosed st); [|discriminate]];
        injection Hstep as <-; left; reflexivity.
    + injection Hstep as <-. left. reflexivity.
    + injection Hstep as <-. right. exists i, x, todo. auto.
    + discriminate.
Qed.

Lemma Run_program_inv pages net r P0 :
  Run_program r = Some P0 -> ProgInv pages net r P0 /\ 0 <= PageWorkers (cfg r).
Proof.
  unfold Run_program. destruct (Run_pipeline (cfg r)) as [st|] eqn:Hst; [|discriminate].
  intros [= <-]. pose proof (Run_pipeline_inv _ pages net r _ Hst) as Hinv.
  assert (Hres : resultsCh st = []).
  { unfold Run_pipeline in Hst. destruct (Run_pool (cfg r)); [|discriminate].
    injection Hst as <-. reflexivity. }
  split.
  - split; cbn [pipe resultsClosed printed printer]; rewrite ?Hres; cbn;
      auto; try lia; discriminate.
  - unfold Run_pipeline, Run_pool in Hst.
    destruct (Z.ltb_spec (PageWorkers (cfg r)) 0); [discriminate | lia].
Qed.

Lemma progStep_inv pages net r a P P' :
  ProgInv pages net r P -> progStep Background pages net r a P = Some P' ->
  ProgInv pages net r P'.
Proof.
  intros [Hpipe Hprinted Hfull Hclosed Hret Hquits] Hstep.
  destruct a as [a| |]; cbn in Hstep.
  - destruct (sendReady (cfg r) (printed P) a (pipe P)) eqn:Hready; [|discriminate].
    destruct (pipeStep Background pages net r a (pipe P)) as [st'|] eqn:Hpstep;
      [|discriminate].
    injection Hstep as <-.
    assert (Hopen : resultsClosed P = false).
    { destruct (resultsClosed P); [|reflexivity].
      rewrite (pipeStep_done _ _ _ a _ Hpipe (Hclosed eq_refl)) in Hpstep.
      discriminate. }
    split; cbn [pipe resultsClosed printed printer].
    + eapply pipeStep_inv; eauto.
    + destruct (pipeStep_results _ _ _ _ _ _ _ Hpstep) as [->|(i & x & todo & _ & _ & ->)];
        [exact Hprinted | rewrite length_app; cbn; lia].
    + destruct (pipeStep_results _ _ _ _ _ _ _ Hpstep)
        as [->|(i & x & todo & -> & Hi & ->)]; [exact Hfull|].
      cbn [sendReady] in Hready. rewrite Hi in Hready. apply Nat.ltb_lt in Hready.
      rewrite length_app. cbn. lia.
    + rewrite Hopen. discriminate.
    + intros Hp. destruct (Hret Hp) as [Hq|[Hc _]]; [left; exact Hq | congruence].
    + exact Hquits.
  - destruct (pipeDone (pipe P)) eqn:Hdone; [|discriminate].
    destruct (resultsClosed P) eqn:Hopen; [discriminate|].
    injection Hstep as <-.
    split; cbn [pipe resultsClosed printed printer]; auto.
    intros Hp. destruct (Hret Hp) as [Hq|[Hc _]]; [left; exact Hq | discriminate].
  - destruct (printer P) eqn:Hp; [|discriminate].
    destruct (printerQuits r) eqn:Hq.
    + injection Hstep as <-.
      split; cbn [pipe resultsClosed printed printer]; auto.
    + destruct (resultsCh (pipe P) !! printed P) as [x|] eqn:Hx.
      * injection Hstep as <-. apply lookup_lt_Some in Hx.
        split; cbn [pipe resultsClosed printed printer]; auto; try lia;
          first [discriminate | intros; congruence].
      * destruct (resultsClosed P) eqn:Hc; [|discriminate].
        injection Hstep as <-. apply lookup_ge_None in Hx.
        split; cbn [pipe resultsClosed printed printer]; auto.
        -- intros _. right. split; [reflexivity | lia].
        -- intros; congruence.
Qed.

Lemma progRun_inv pages net r acts P P' :
  ProgInv pages net r P -> progRun Background pages net r acts P = Some P' ->
  ProgInv pages net r P'.
Proof.
  revert P; induction acts as [|a acts IH]; intros P Hinv; cbn.
  - intros [= <-]. exact Hinv.
  - destruct (progStep Background pages net r a P) as [P1|] eqn:Hstep; [|discriminate].
    apply IH. eapply progStep_inv; eauto.
Qed.

Lemma resultsLeft_pipe pages net r a P st' :
  ProgInv pages net r P ->
  pipeStep Background pages net r a (pipe P) = Some st' ->
  resultsLeft pages net r
    {| pipe := st'; resultsClosed := resultsClosed P;
       printed := printed P; printer := printer P |}
  = resultsLeft pages net r P.
Proof.
  intros [[Hinv Hsafe Hrcv Hres Hcl Hret Hws] Hprinted _ _ _ _] Hstep.
  unfold resultsLeft. cbn [pipe printed].
  destruct a as [a| |i]; cbn in Hstep.
  - destruct (poolStep Background pages net a (pool (pipe P))) as [s'|] eqn:Hpool;
      [|discriminate].
    injection Hstep as <-. cbn [pool jobsClosed received workers resultsCh].
    rewrite (poolStep_pending_sum _ _ _ _ _ _ _ Hinv Hrcv Hpool). reflexivity.
  - destruct (poolDone (pool (pipe P)) && negb (jobsClosed (pipe P))); [|discriminate].
    injection Hstep as <-. reflexivity.
  - destruct (workers (pipe P) !! i) as [w|] eqn:Hi; [|discriminate].
    destruct w as [|[|x todo]|]; cbn in Hstep.
    + destruct (jobs (pool (pipe P)) !! received (pipe P)) as [line|] eqn:Hline.
      * injection Hstep as <-. cbn [pool jobsClosed received workers resultsCh].
        pose proof (sum_list_with_insert (fun w => length (workerAhead w)) _ i _
                      (WSend (processLine r line)) Hi) as Hsum.
        rewrite (drop_S _ _ _ Hline). rewrite !sum_list_with_app.
        cbn [sum_list_with workerAhead length] in Hsum |- *. lia.
      * destruct (jobsClosed (pipe P)); [|discriminate]. injection Hstep as <-.
        cbn [setWorker pool jobsClosed received workers resultsCh].
        pose proof (sum_list_with_insert (fun w => length (workerAhead w)) _ i _
                      WReturned Hi) as Hsum.
        cbn [workerAhead length] in Hsum. lia.
    + injection Hstep as <-.
      cbn [setWorker pool jobsClosed received workers resultsCh].
      pose proof (sum_list_with_insert (fun w => length (workerAhead w)) _ i _
                    WReceive Hi) as Hsum.
      cbn [workerAhead length] in Hsum. lia.
    + injection Hstep as <-. cbn [pool jobsClosed received workers resultsCh].
      pose proof (sum_list_with_insert (fun w => length (workerAhead w)) _ i _
                    (WSend todo) Hi) as Hsum.
      cbn [workerAhead length] in Hsum. rewrite length_app. cbn [length]. lia.
    + discriminate.
Qed.

Lemma resultsLeft_done pages net r P :
  PipeInv pages net r (pipe P) -> pipeDone (pipe P) = true ->
  printed P = length (resultsCh (pipe P)) ->
  resultsLeft pages net r P = O.
Proof.
  intros Hpipe Hdone Hprinted.
  pose proof (pipeLeft_done _ _ _ _ Hpipe Hdone) as Hleft.
  destruct Hpipe as [Hinv Hsafe Hrcv Hres Hcl Hret Hws].
  unfold pipeDone in Hdone. apply andb_true_iff in Hdone as [Hclosed Hall].
  destruct (stepsLeft_done pages net _ Hinv (Hcl Hclosed)) as [_ Hlines].
  assert (Hlen : received (pipe P) = length (jobs (pool (pipe P)))).
  { destruct (workers (pipe P)) as [|w ws] eqn:Hw; [cbn in Hws; lia|].
    cbn in Hall. apply andb_true_iff in Hall as [Hw0 _].
    destruct w; try discriminate. apply (Hret O). reflexivity. }
  unfold resultsLeft. rewrite Hprinted, Hlines, Hlen, drop_all, Nat.sub_diag. cbn.
  clear -Hall. induction (workers (pipe P)) as [|w ws IHws]; [reflexivity|].
  cbn in Hall. apply andb_true_iff in Hall as [Hw0 Hws].
  destruct w; try discriminate. cbn. apply IHws. exact Hws.
Qed.

Lemma progStep_left pages net r a P P' :
  ProgInv pages net r P -> progStep Background pages net r a P = Some P' ->
  S (progLeft pages net r P') = progLeft pages net r P.
Proof.
  intros HP Hstep. pose proof HP as [Hpipe Hprinted Hfull Hclosed Hret Hquits].
  destruct a as [a| |]; cbn in Hstep.
  - destruct (sendReady (cfg r) (printed P) a (pipe P)); [|discriminate].
    destruct (pipeStep Background pages net r a (pipe P)) as [st'|] eqn:Hpstep;
      [|discriminate].
    injection Hstep as <-. unfold progLeft.
    rewrite (resultsLeft_pipe _ _ _ _ _ _ HP Hpstep).
    cbn [pipe resultsClosed printed printer].
    pose proof (pipeStep_left _ _ _ _ _ _ Hpipe Hpstep). lia.
  - destruct (pipeDone (pipe P)); [|discriminate].
    destruct (resultsClosed P) eqn:Hopen; [discriminate|].
    injection Hstep as <-. unfold progLeft, resultsLeft.
    cbn [pipe resultsClosed printed printer]. rewrite Hopen. lia.
  - destruct (printer P) eqn:Hp; [|discriminate].
    destruct (printerQuits r) eqn:Hq.
    + injection Hstep as <-. unfold progLeft.
      cbn [pipe resultsClosed printed printer]. rewrite Hp, Hq. lia.
    + destruct (resultsCh (pipe P) !! printed P) as [x|] eqn:Hx.
      * injection Hstep as <-. apply lookup_lt_Some in Hx.
        unfold progLeft, resultsLeft.
        cbn [pipe resultsClosed printed printer]. rewrite Hp, Hq. lia.
      * destruct (resultsClosed P) eqn:Hc; [|discriminate].
        injection Hstep as <-. apply lookup_ge_None in Hx.
        unfold progLeft. cbn [pipe resultsClosed printed printer].
        rewrite Hp, Hq, Hc.
        rewrite (resultsLeft_done pages net r P Hpipe (Hclosed eq_refl)) by lia. lia.
Qed.

Lemma progRun_length pages net r acts P P' :
  ProgInv pages net r P -> progRun Background pages net r acts P = Some P' ->
  (length acts + progLeft pages net r P' = progLeft pages net r P)%nat.
Proof.
  revert P; induction acts as [|a acts IH]; intros P Hinv; cbn.
  - intros [= <-]. reflexivity.
  - destruct (progStep Background pages net r a P) as [P1|] eqn:Hstep; [|discriminate].
    intros Hrun. pose proof (progStep_left _ _ _ _ _ _ Hinv Hstep).
    pose proof (IH P1 (progStep_inv _ _ _ _ _ _ Hinv Hstep) Hrun). lia.
Qed.

(** As long as [jobs] is not full, the dispatching loop or a fetcher can
    take a step that the capacities allow. *)
Lemma pool_ready pages net r st printed :
  PipeInv pages net r st -> 0 <= PageWorkers (cfg r) ->
  poolDone (pool st) = false ->
  (length (jobs (pool st)) - received st < chanCap)%nat ->
  exists a s', sendReady (cfg r) printed (Fetch a) st = true
               /\ poolStep Background pages net a (pool st) = Some s'.
Proof.
  intros [Hinv _ _ _ _ _ _] Hcap Hdone Hroom.
  destruct Hinv as [Hc Hn Hcl Hp Hk Hr Hf].
  destruct (forallb idleFetcher (fetchers (pool st))) eqn:Hidle.
  - (* no fetcher holds a page *)
    assert (Hfirst : exists f0, fetchers (pool st) !! O = Some f0).
    { destruct (fetchers (pool st)) as [|f0 fs]; [cbn in Hf; lia | eauto]. }
    destruct Hfirst as [f0 Hf0].
    destruct (pageJobs (pool st)) as [|p rest] eqn:Hjobs.
    + destruct (closed (pool st)) eqn:Hclosed.
      * unfold poolDone in Hdone. rewrite Hclosed in Hdone. cbn in Hdone.
        destruct (forallb_false_lookup _ _ Hdone) as (i & f & Hi & Hnot).
        pose proof (forallb_lookup _ _ _ _ Hidle Hi) as Hfi.
        destruct f; try discriminate.
        exists (Step i). eexists. split; [cbn; rewrite Hi; reflexivity|].
        cbn. rewrite Hi. cbn. rewrite Hjobs, Hclosed. reflexivity.
      * assert (Hrecv : f0 = FReceive).
        { pose proof (forallb_lookup _ _ _ _ Hidle Hf0) as Hfi.
          destruct f0; try discriminate; [reflexivity|].
          destruct (Hr O Hf0) as [Hx _]. congruence. }
        subst f0.
        destruct (Z.ltb_spec (nextPage (pool st)) pages) as [Hlt|Hge].
        -- exists Dispatch. eexists. split.
           ++ cbn [sendReady]. unfold pageJobsReady. rewrite Hjobs. cbn [length].
              destruct (Z.eqb_spec (PageWorkers (cfg r)) 0) as [Hzero|Hpos].
              ** rewrite orb_true_iff. right. cbn [andb].
                 apply existsb_exists. exists FReceive. split; [|reflexivity].
                 apply list_elem_of_In. eapply list_elem_of_lookup_2. exact Hf0.
              ** rewrite orb_true_iff. left. apply Nat.ltb_lt. lia.
           ++ cbn. rewrite Hclosed.
              destruct (Z.ltb_spec (nextPage (pool st)) pages); [reflexivity | lia].
        -- exists Close. eexists. split.
           ++ cbn [sendReady]. rewrite Hjobs. apply orb_true_r.
           ++ cbn. rewrite Hclosed.
              destruct (Z.leb_spec pages (nextPage (pool st))); [reflexivity | lia].
    + assert (Hrecv : f0 = FReceive).
      { pose proof (forallb_lookup _ _ _ _ Hidle Hf0) as Hfi.
        destruct f0; try discriminate; [reflexivity|].
        destruct (Hr O Hf0) as [_ Hx]. congruence. }
      subst f0. exists (Step 0). eexists.
      split; [cbn; rewrite Hf0; reflexivity|].
      cbn. rewrite Hf0. cbn. rewrite Hjobs. reflexivity.
  - (* a fetcher holds a page *)
    destruct (forallb_false_lookup _ _ Hidle) as (i & f & Hi & Hbusy).
    exists (Step i). destruct f as [|p|p [|[text e] todo] err|]; try discriminate.
    + assert (Hstep : exists s', poolStep Background pages net (Step i) (pool st) = Some s').
      { cbn. rewrite Hi. cbn. rewrite Hc.
        destruct (fst (fetchWithRetry (net p) true)) as [[respP|] [ierr|]]; eauto. }
      destruct Hstep as [s' Hstep]. exists s'.
      split; [cbn; rewrite Hi; reflexivity | exact Hstep].
    + eexists. split; [cbn; rewrite Hi; reflexivity|].
      cbn. rewrite Hi. reflexivity.
    + eexists. split.
      * cbn [sendReady]. rewrite Hi. apply orb_true_iff. right.
        apply Nat.ltb_lt. exact Hroom.
      * cbn. rewrite Hi. reflexivity.
Qed.

(** As long as [resultsCh] is not full when a worker has a value to send,
    the pipeline can take a step that the capacities allow. *)
Lemma pipe_ready pages net r st printed :
  PipeInv pages net r st -> 0 <= PageWorkers (cfg r) ->
  pipeDone st = false ->
  (forall i x todo, workers st !! i = Some (WSend (x :: todo)) ->
                    (length (resultsCh st) - printed < chanCap)%nat) ->
  exists a st', sendReady (cfg r) printed a st = true
                /\ pipeStep Background pages net r a st = Some st'.
Proof.
  intros Hpipe Hcap Hdone Hroom.
  pose proof Hpipe as [Hinv Hsafe Hrcv Hres Hcl Hret Hws].
  destruct (forallb idleWorker (workers st)) eqn:Hidle.
  - (* no worker holds a line *)
    assert (Hfirst : exists w0, workers st !! O = Some w0).
    { destruct (workers st) as [|w0 ws]; [cbn in Hws; lia | eauto]. }
    destruct Hfirst as [w0 Hw0].
    destruct (jobs (pool st) !! received st) as [line|] eqn:Hline.
    + assert (Hrecv : w0 = WReceive).
      { pose proof (forallb_lookup _ _ _ _ Hidle Hw0) as Hwi.
        destruct w0; try discriminate; [reflexivity|].
        destruct (Hret O Hw0) as [_ Hx]. apply lookup_lt_Some in Hline. lia. }
      subst w0. exists (Work 0). eexists.
      split; [cbn; rewrite Hw0; reflexivity|].
      cbn. rewrite Hw0. cbn. rewrite Hline. reflexivity.
    + destruct (jobsClosed st) eqn:Hclosed.
      * unfold pipeDone in Hdone. rewrite Hclosed in Hdone. cbn in Hdone.
        destruct (forallb_false_lookup _ _ Hdone) as (i & w & Hi & Hnot).
        pose proof (forallb_lookup _ _ _ _ Hidle Hi) as Hwi.
        destruct w; try discriminate.
        exists (Work i). eexists. split; [cbn; rewrite Hi; reflexivity|].
        cbn. rewrite Hi. cbn. rewrite Hline, Hclosed. reflexivity.
      * destruct (poolDone (pool st)) eqn:Hpool.
        -- exists CloseJobs. eexists. split; [reflexivity|].
           cbn. rewrite Hpool, Hclosed. reflexivity.
        -- apply lookup_ge_None in Hline.
           destruct (pool_ready pages net r st printed Hpipe Hcap Hpool)
             as (a & s' & Hready & Hstep); [unfold chanCap; lia|].
           exists (Fetch a). eexists. split; [exact Hready|].
           cbn. rewrite Hstep. reflexivity.
  - (* a worker holds a line *)
    destruct (forallb_false_lookup _ _ Hidle) as (i & w & Hi & Hbusy).
    exists (Work i). destruct w as [|[|x todo]|]; try discriminate.
    + eexists. split; [cbn; rewrite Hi; reflexivity|].
      cbn. rewrite Hi. reflexivity.
    + eexists. split.
      * cbn [sendReady]. rewrite Hi. apply Nat.ltb_lt. exact (Hroom i x todo Hi).
      * cbn. rewrite Hi. reflexivity.
Qed.

Lemma length_flat_map_submseteq {A B} (f : A -> list B) (l k : list A) :
  l ⊆+ k -> (length (flat_map f l) <= length (flat_map f k))%nat.
Proof.
  intros [k' Hk]%submseteq_Permutation.
  rewrite (Permutation_length (Permutation_flat_map f Hk)), flat_map_app, length_app.
  lia.
Qed.

(** Not more values are sent or held than the lines of the pages give. *)
Lemma pipe_results_bound pages net r st :
  PipeInv pages net r st ->
  (length (resultsCh st) + length (flat_map workerAhead (workers st))
   <= length (allResults pages net r))%nat.
Proof.
  intros [Hinv [Hn _ Hl _ _] Hrcv Hres Hcl Hret Hws].
  rewrite <- length_app, (Permutation_length Hres). unfold allResults.
  apply length_flat_map_submseteq.
  destruct (seqZ_prefix _ _ Hn) as (rest & Hrest).
  rewrite Hrest, flat_map_app. apply submseteq_inserts_r.
  transitivity (pendingLines net (pool st)); [|exact Hl].
  unfold pendingLines. apply submseteq_inserts_r.
  apply sublist_submseteq, sublist_take.
Qed.

Lemma sending_worker_ahead (ws : list Worker) i x todo :
  ws !! i = Some (WSend (x :: todo)) ->
  (1 <= length (flat_map workerAhead ws))%nat.
Proof.
  intros Hi. destruct (insert_split ws i _ WReceive Hi) as (l1 & l2 & -> & _).
  rewrite flat_map_app, length_app. cbn. rewrite length_app. cbn. lia.
Qed.

(** The program can take a step until [Run] returns, when the printer
    drains [resultsCh] or [resultsCh] can hold all the values. *)
Lemma prog_no_deadlock pages net r P :
  ProgInv pages net r P -> 0 <= PageWorkers (cfg r) ->
  printerQuits r = false \/ (length (allResults pages net r) <= chanCap)%nat ->
  progDone P = false ->
  exists a P', progStep Background pages net r a P = Some P'.
Proof.
  intros [Hpipe Hprinted Hfull Hclosed Hret Hquits] Hcap Hq Hdone.
  destruct (printer P) eqn:Hp.
  - destruct (printerQuits r) eqn:Hquit.
    { exists Print. eexists. cbn. rewrite Hp, Hquit. reflexivity. }
    destruct (resultsCh (pipe P) !! printed P) as [x|] eqn:Hx.
    + exists Print. eexists. cbn. rewrite Hp, Hquit, Hx. reflexivity.
    + destruct (resultsClosed P) eqn:Hc.
      * exists Print. eexists. cbn. rewrite Hp, Hquit, Hx, Hc. reflexivity.
      * destruct (pipeDone (pipe P)) eqn:Hpd.
        -- exists CloseResults. eexists. cbn. rewrite Hpd, Hc. reflexivity.
        -- apply lookup_ge_None in Hx.
           destruct (pipe_ready pages net r (pipe P) (printed P) Hpipe Hcap Hpd)
             as (a & st' & Hready & Hstep); [intros; unfold chanCap; lia|].
           exists (Pipe a). eexists. cbn. rewrite Hready, Hstep. reflexivity.
  - destruct (Hret eq_refl) as [Hquit|[Hc _]].
    + destruct Hq as [Hq|Hfew]; [congruence|].
      destruct (resultsClosed P) eqn:Hc.
      { unfold progDone in Hdone. rewrite Hc, Hp in Hdone. discriminate. }
      destruct (pipeDone (pipe P)) eqn:Hpd.
      * exists CloseResults. eexists. cbn. rewrite Hpd, Hc. reflexivity.
      * destruct (pipe_ready pages net r (pipe P) (printed P) Hpipe Hcap Hpd)
          as (a & st' & Hready & Hstep).
        { intros i x todo Hi.
          pose proof (pipe_results_bound _ _ _ _ Hpipe).
          pose proof (sending_worker_ahead _ _ _ _ Hi). lia. }
        exists (Pipe a). eexists. cbn. rewrite Hready, Hstep. reflexivity.
    + unfold progDone in Hdone. rewrite Hc, Hp in Hdone. discriminate.
Qed.

Lemma progLeft_done pages net r P :
  ProgInv pages net r P -> progDone P = true -> progLeft pages net r P = O.
Proof.
  intros [Hpipe Hprinted Hfull Hclosed Hret Hquits] Hdone. unfold progDone in Hdone.
  apply andb_true_iff in Hdone as [Hc Hp]. destruct (printer P) eqn:Hpr; [discriminate|].
  unfold progLeft. rewrite Hc, Hpr, (pipeLeft_done _ _ _ _ Hpipe (Hclosed Hc)). reflexivity.
Qed.

Lemma prog_can_finish pages net r P :
  ProgInv pages net r P -> 0 <= PageWorkers (cfg r) ->
  printerQuits r = false \/ (length (allResults pages net r) <= chanCap)%nat ->
  exists acts P', progRun Background pages net r acts P = Some P'
                  /\ progDone P' = true
                  /\ length acts = progLeft pages net r P.
Proof.
  intros Hinv Hcap Hq.
  remember (progLeft pages net r P) as n eqn:Hn.
  revert P Hn Hinv; induction n as [|n IH]; intros P Hn Hinv.
  - destruct (progDone P) eqn:Hdone.
    + exists [], P. auto.
    + destruct (prog_no_deadlock pages net r P Hinv Hcap Hq Hdone) as (a & P' & Hstep).
      pose proof (progStep_left _ _ _ _ _ _ Hinv Hstep). lia.
  - destruct (progDone P) eqn:Hdone.
    + rewrite (progLeft_done _ _ _ _ Hinv Hdone) in Hn. discriminate.
    + destruct (prog_no_deadlock pages net r P Hinv Hcap Hq Hdone) as (a & P1 & Hstep).
      pose proof (progStep_left _ _ _ _ _ _ Hinv Hstep) as Hdec.
      destruct (IH P1) as (acts & P' & Hrun & Hd & Hlen);
        [lia | eapply progStep_inv; eauto |].
      exists (a :: acts), P'. cbn. rewrite Hstep. auto.
Qed.

Section ProgramOutput.
Context `{CaseTables}.

Lemma startPrinter_quits (r : Runner) (resultsCh : list string) :
  printerQuits r = true -> startPrinter r resultsCh = [].
Proof.
  intros Hq. rewrite startPrinter_keys. unfold sinkKeys.
  unfold printerQuits in Hq. apply andb_true_iff in Hq as [-> ->]. reflexivity.
Qed.

(** X7.  [Run] with the capacities of its channels, under the background
    context, when the printer drains [resultsCh] (every mode but the
    subdomain mode with an empty base domain) or [resultsCh] can hold all
    the values.  The program is never stuck before [Run] returns, every run
    can be carried on until it does, and the steps taken and the steps of
    any way to the end add up to [progLeft] of the first state, so that no
    run goes on for ever.  When [Run] returns, the printer has written, up
    to the order, what it writes for the values of [processLine] on the
    lines of the fetched pages. *)
Theorem Run_returns (r : Runner) (pages : Z) (net : Z -> Z -> Attempt)
        (acts : list ProgAction) (P0 P : Program) :
  Run_program r = Some P0 ->
  printerQuits r = false \/ (length (allResults pages net r) <= chanCap)%nat ->
  progRun Background pages net r acts P0 = Some P ->
  (progDone P = false -> exists a P', progStep Background pages net r a P = Some P')
  /\ (exists acts' P',
        progRun Background pages net r acts' P = Some P'
        /\ progDone P' = true
        /\ (length acts + length acts' = progLeft pages net r P0)%nat)
  /\ (progDone P = true ->
      written r P ≡ₚ startPrinter r (allResults pages net r)).
Proof.
  intros Hstart Hq Hrun.
  destruct (Run_program_inv pages net r P0 Hstart) as [Hinv0 Hcap].
  pose proof (progRun_inv _ _ _ _ _ _ Hinv0 Hrun) as Hinv.
  split; [apply prog_no_deadlock; assumption|]. split.
  - destruct (prog_can_finish pages net r P Hinv Hcap Hq)
      as (acts' & P' & Hrun' & Hdone & Hlen).
    exists acts', P'. split; [exact Hrun'|]. split; [exact Hdone|].
    pose proof (progRun_length _ _ _ _ _ _ Hinv0 Hrun). lia.
  - intros Hdone. destruct Hinv as [Hpipe Hprinted Hfull Hclosed Hret Hquits].
    unfold progDone in Hdone. apply andb_true_iff in Hdone as [Hc Hp].
    destruct (printer P) eqn:Hpr; [discriminate|].
    destruct (Hret eq_refl) as [Hx|[_ Hall]].
    + unfold written. rewrite !(startPrinter_quits r _ Hx). reflexivity.
    + unfold written. rewrite Hall, firstn_all, !startPrinter_keys.
      apply firstOccurrences_same_values. intros x.
      rewrite (pipe_done_results _ _ _ _ Hpipe (Hclosed Hc)). reflexivity.
Qed.

(** X12.  [Run] in subdomain mode with an empty base domain, where the
    printer returns without receiving: when the values of [processLine]
    are more than [resultsCh] holds, [Run] never returns.  No run reaches
    the end, and no run is longer than [progLeft] of the first state: the
    workers end up blocked on [resultsCh], and nothing is written. *)
Theorem Run_hangs_when_printer_quits (r : Runner) (pages : Z)
        (net : Z -> Z -> Attempt) (acts : list ProgAction) (P0 P : Program) :
  Run_program r = Some P0 ->
  printerQuits r = true ->
  (chanCap < length (allResults pages net r))%nat ->
  progRun Background pages net r acts P0 = Some P ->
  progDone P = false
  /\ (length acts <= progLeft pages net r P0)%nat
  /\ (length (resultsCh (pipe P)) <= chanCap)%nat
  /\ written r P = [].
Proof.
  intros Hstart Hq Hmany Hrun.
  destruct (Run_program_inv pages net r P0 Hstart) as [Hinv0 Hcap].
  pose proof (progRun_inv _ _ _ _ _ _ Hinv0 Hrun) as Hinv.
  pose proof (progRun_length _ _ _ _ _ _ Hinv0 Hrun) as Hlen.
  destruct Hinv as [Hpipe Hprinted Hfull Hclosed Hret Hquits].
  specialize (Hquits Hq). rewrite Hquits, Nat.sub_0_r in Hfull.
  split; [|split; [lia|split; [exact Hfull|]]].
  - destruct (progDone P) eqn:Hdone; [|reflexivity]. exfalso.
    unfold progDone in Hdone. apply andb_true_iff in Hdone as [Hc _].
    pose proof (pipe_done_results _ _ _ _ Hpipe (Hclosed Hc)) as Hres.
    apply Permutation_length in Hres. unfold allResults in Hmany. lia.
  - unfold written. rewrite Hquits. cbn [take].
    rewrite startPrinter_keys. unfold sinkKeys.
    unfold printerQuits in Hq. apply andb_true_iff in Hq as [-> ->]. reflexivity.
Qed.

End ProgramOutput.

Lemma Run_returns_witness :
  exists P,
    progRun Background 3 flakyNet (NewRunner twoWorkers false) progSchedule
      {| pipe := {| pool := startPool twoWorkers; jobsClosed := false; received := O;
                    workers := [WReceive; WReceive]; resultsCh := [] |};
         resultsClosed := false; printed := O; printer := PReading |} = Some P
    /\ progDone P = true
    /\ written (H := asciiOnly) (NewRunner twoWorkers false) P
       = ["http://h/b"; "http://h/a"]
    /\ written (H := asciiOnly) (NewRunner twoWorkers false) P
       ≡ₚ startPrinter (H := asciiOnly) (NewRunner twoWorkers false)
            (allResults 3 flakyNet (NewRunner twoWorkers false)).
Proof.
  eexists. split; [vm_compute; reflexivity|]. split; [reflexivity|].
  split; [vm_compute; reflexivity|].
  exact (proj2 (proj2 (Run_returns (H := asciiOnly) (NewRunner twoWorkers false) 3
                         flakyNet progSchedule _ _
                         eq_refl (or_introl eq_refl) ltac:(vm_compute; reflexivity)))
               eq_refl).
Defined.

Lemma length_flat_map_replicate {A B} (f : A -> list B) n x :
  length (flat_map f (replicate n x)) = (n * length (f x))%nat.
Proof.
  induction n as [|n IH]; [reflexivity|].
  cbn. rewrite length_app, IH. reflexivity.
Qed.

Lemma scannedLines_replicate n x :
  nonEmpty (TrimSpace x) = true ->
  scannedLines (List.map (fun l => (l, None)) (replicate n x)) = replicate n (TrimSpace x).
Proof.
  intros Hx. unfold scannedLines. induction n as [|n IH]; [reflexivity|].
  cbn [replicate List.map List.filter fst]. rewrite Hx, IH. reflexivity.
Qed.

Lemma longPage_results :
  length (allResults 1 longPageNet quittingRunner) = 2001%nat.
Proof.
  unfold allResults.
  assert (Hpage : pageLines longPageNet 0 = replicate 2001 "http://a.h/x").
  { unfold pageLines, longPageNet.
    change (fst (fetchWithRetry
                   (fun _ => Sent (DoOK (respOf 200 (replicate 2001 "http://a.h/x"))))
                   true))
      with (Some (respOf 200 (replicate 2001 "http://a.h/x")), @None error).
    cbn [respOf bodyOf Body tokens].
    rewrite scannedLines_replicate by (vm_compute; reflexivity).
    f_equal. }
  change (seqZ 0 1) with [0]. cbn [flat_map]. rewrite app_nil_r, Hpage.
  rewrite length_flat_map_replicate.
  change (processLine quittingRunner "http://a.h/x") with ["http://a.h/x"].
  cbn [length]. lia.
Qed.

Lemma Run_hangs_when_printer_quits_witness :
  printerQuits quittingRunner = true
  /\ exists P,
       progRun Background 1 longPageNet quittingRunner
         [Pipe (Fetch Dispatch); Print; Pipe (Fetch Close); Pipe (Fetch (Step 0))]
         {| pipe := {| pool := startPool (cfg quittingRunner); jobsClosed := false;
                       received := O;
                       workers := replicate (workerCount (cfg quittingRunner)) WReceive;
                       resultsCh := [] |};
            resultsClosed := false; printed := O; printer := PReading |} = Some P
       /\ printer P = PReturned
       /\ progDone P = false.
Proof.
  split; [reflexivity|]. eexists. split; [vm_compute; reflexivity|].
  split; [reflexivity|].
  refine (proj1 (Run_hangs_when_printer_quits (H := asciiOnly) quittingRunner 1
            longPageNet
            [Pipe (Fetch Dispatch); Print; Pipe (Fetch Close); Pipe (Fetch (Step 0))]
            {| pipe := {| pool := startPool (cfg quittingRunner); jobsClosed := false;
                          received := O;
                          workers := replicate (workerCount (cfg quittingRunner)) WReceive;
                          resultsCh := [] |};
               resultsClosed := false; printed := O; printer := PReading |}
            _ eq_refl eq_refl _ _)).
  - rewrite longPage_results. unfold chanCap. lia.
  - vm_compute. reflexivity.
Defined.

(** ** The value of the only-query mode *)

Lemma split_at_first c s :
  inBytes c s = true -> exists k v, s = k +:+ String c v /\ inBytes c k = false.
Proof.
  induction s as [|a s IH]; [discriminate|]. cbn [inBytes].
  destruct (Ascii.eqb_spec c a) as [->|Hne]; cbn [orb].
  - intros _. exists "", s. split; reflexivity.
  - intros Hs. destruct (IH Hs) as (k & v & -> & Hk).
    exists (String a k), v. split; [reflexivity|].
    cbn [inBytes]. rewrite Hk, orb_false_r. apply Ascii.eqb_neq. exact Hne.
Qed.

Lemma sliceFrom_app_S k c v : sliceFrom (String.length k + 1) (k +:+ String c v) = v.
Proof.
  induction k as [|a k IH]; [destruct v; reflexivity|].
  rewrite append_cons. cbn [String.length Nat.add sliceFrom]. exact IH.
Qed.

(** [strings.Cut] at a byte. *)
Lemma Cut_byte c s :
  (inBytes c s = false /\ Cut s (String c "") = (s, "", false))
  \/ exists k v, s = k +:+ String c v /\ inBytes c k = false
                 /\ Cut s (String c "") = (k, v, true).
Proof.
  destruct (inBytes c s) eqn:Hs.
  - right. destruct (split_at_first c s Hs) as (k & v & -> & Hk).
    exists k, v. split; [reflexivity|]. split; [exact Hk|].
    unfold Cut, Index. rewrite (index_from_first c k v 0 Hk).
    replace (0 <=? 0 + Z.of_nat (String.length k)) with true
      by (symmetry; apply Z.leb_le; lia).
    replace (Z.to_nat (0 + Z.of_nat (String.length k))) with (String.length k) by lia.
    cbn [String.length]. rewrite sliceTo_app, sliceFrom_app_S. reflexivity.
  - left. split; [reflexivity|].
    unfold Cut, Index. rewrite (index_from_absent c s 0 Hs). reflexivity.
Qed.

Lemma scheme_byte_no_mark c :
  isAlpha c || isDigit c || inBytes c "+-." = true -> inBytes c "?#" = false.
Proof.
  destruct c as [[] [] [] [] [] [] [] []]; vm_compute; intros Hc;
    first [discriminate Hc | reflexivity].
Qed.

Lemma getScheme_go_spec i todo raw done sch rest :
  raw = done +:+ todo -> String.length done = i ->
  (forall c, inBytes c done = true -> inBytes c "?#" = false) ->
  getScheme_go i todo raw = Some (sch, rest) ->
  (sch = "" /\ rest = raw)
  \/ (raw = sch +:+ String ":" rest
      /\ forall c, inBytes c sch = true -> inBytes c "?#" = false).
Proof.
  revert i done; induction todo as [|c todo IH]; intros i done Hraw Hlen Hdone;
    cbn [getScheme_go].
  - intros [= <- <-]. left. auto.
  - assert (Hnext : isAlpha c || isDigit c || inBytes c "+-." = true ->
                    getScheme_go (S i) todo raw = Some (sch, rest) ->
                    (sch = "" /\ rest = raw)
                    \/ (raw = sch +:+ String ":" rest
                        /\ forall c, inBytes c sch = true -> inBytes c "?#" = false)).
    { intros Hc. apply (IH (S i) (done +:+ String c "")).
      - rewrite Hraw, append_assoc. reflexivity.
      - rewrite length_append. cbn. lia.
      - intros x Hx. rewrite inBytes_app in Hx. cbn [inBytes] in Hx.
        rewrite orb_false_r in Hx. apply orb_true_iff in Hx as [Hx|Hx]; [auto|].
        apply Ascii.eqb_eq in Hx. subst x. apply scheme_byte_no_mark. exact Hc. }
    destruct (isAlpha c) eqn:Ha; [apply Hnext; reflexivity|].
    destruct (isDigit c || inBytes c "+-.") eqn:Hd.
    + destruct i as [|i']; [intros [= <- <-]; left; auto|].
      apply Hnext. cbn [orb]. exact Hd.
    + destruct (Ascii.eqb_spec c ":") as [->|Hne].
      * destruct i as [|i']; [discriminate|]. intros [= <- <-]. right.
        replace (match raw with
                 | EmptyString => EmptyString
                 | String a s' => String a (sliceTo i' s')
                 end) with (sliceTo (S i') raw) by (destruct raw; reflexivity).
        rewrite Hraw, <- Hlen, sliceTo_app. auto.
      * intros [= <- <-]. left. auto.
Qed.

Lemma getScheme_spec raw sch rest :
  getScheme raw = Some (sch, rest) ->
  (sch = "" /\ rest = raw)
  \/ (raw = sch +:+ String ":" rest
      /\ forall c, inBytes c sch = true -> inBytes c "?#" = false).
Proof.
  apply (getScheme_go_spec O raw raw ""); [reflexivity | reflexivity | discriminate].
Qed.

Lemma setPath_RawQuery u p u' : setPath u p = Some u' -> RawQuery u' = RawQuery u.
Proof.
  unfold setPath. destruct (unescape p encodePath); [|discriminate].
  intros [= <-]. reflexivity.
Qed.

(** The raw query that [parse] finds: the text behind the first question
    mark of what follows the scheme. *)
Lemma parse_RawQuery raw u :
  parse raw = Some u -> RawQuery u <> "" ->
  exists sch rest before,
    getScheme raw = Some (sch, rest)
    /\ rest = before +:+ String "?" (RawQuery u) /\ inBytes "?" before = false.
Proof.
  unfold parse. destruct (stringContainsCTLByte raw); [discriminate|].
  destruct (String.eqb raw "*"); [intros [= <-]; contradiction|].
  destruct (getScheme raw) as [[sch rest]|]; [|discriminate].
  set (scheme := lowerASCII sch).
  destruct (HasSuffix rest "?" && (count_byte "?" rest =? 1)%nat).
  - intros Hu Hq. exfalso. apply Hq. revert Hu.
    repeat match goal with
           | |- context [if ?b then _ else _] => destruct b
           | |- context [match ?x with Some _ => _ | None => _ end] => destruct x as [[? ?]|]
           | |- context [let '(_, _) := ?x in _] => destruct x
           end;
      first [discriminate | intros [= <-]; reflexivity
            | intros Hu; rewrite (setPath_RawQuery _ _ _ Hu); reflexivity].
  - destruct (Cut_byte "?" rest) as [[_ Hcut]|(before & after & Hrest & Hbefore & Hcut)];
      rewrite Hcut; intros Hu Hq.
    + exfalso. apply Hq. revert Hu.
      repeat match goal with
             | |- context [if ?b then _ else _] => destruct b
             | |- context [match ?x with Some _ => _ | None => _ end] => destruct x as [[? ?]|]
             | |- context [let '(_, _) := ?x in _] => destruct x
             end;
        first [discriminate | intros [= <-]; reflexivity
              | intros Hu; rewrite (setPath_RawQuery _ _ _ Hu); reflexivity].
    + exists sch, rest, before. split; [reflexivity|]. split; [|exact Hbefore].
      rewrite Hrest. f_equal. f_equal. revert Hu. clear.
      repeat match goal with
             | |- context [if ?b then _ else _] => destruct b
             | |- context [match ?x with Some _ => _ | None => _ end] => destruct x as [[? ?]|]
             | |- context [let '(_, _) := ?x in _] => destruct x
             end;
        first [discriminate | intros [= <-]; reflexivity
              | intros Hu; rewrite (setPath_RawQuery _ _ _ Hu); reflexivity].
Qed.

Lemma Parse_RawQuery s u :
  Parse s = Some u -> RawQuery u <> "" ->
  exists pre frag,
    s = pre +:+ String "?" (RawQuery u) +:+ frag
    /\ inBytes "?" pre = false /\ inBytes "#" pre = false
    /\ inBytes "#" (RawQuery u) = false
    /\ (frag = "" \/ exists f, frag = String "#" f).
Proof.
  unfold Parse.
  destruct (Cut_byte "#" s) as [[Hno Hcut]|(u0 & f & Hs & Hno & Hcut)]; rewrite Hcut.
  - (* no fragment *)
    destruct (parse s) as [url|] eqn:Hparse; [|discriminate].
    cbn [isEmpty String.eqb]. intros [= <-] Hq.
    destruct (parse_RawQuery s url Hparse Hq) as (sch & rest & before & Hsch & Hrest & Hb).
    assert (Hshape : exists pre, s = pre +:+ String "?" (RawQuery url)
                                 /\ inBytes "?" pre = false).
    { destruct (getScheme_spec _ _ _ Hsch) as [[_ Hr]|[Hr Hs]].
      - exists before. rewrite <- Hr, Hrest. auto.
      - exists (sch +:+ String ":" before). split.
        + rewrite Hr, Hrest, append_assoc. reflexivity.
        + rewrite inBytes_app. cbn [inBytes]. rewrite Hb.
          destruct (inBytes "?" sch) eqn:E; [|reflexivity].
          specialize (Hs _ E). discriminate Hs. }
    destruct Hshape as (pre & Hs & Hpre). exists pre, "".
    rewrite Hs, inBytes_app in Hno. cbn [inBytes] in Hno.
    apply orb_false_iff in Hno as [Hno1 Hno2]. apply orb_false_iff in Hno2 as [_ Hno2].
    rewrite append_empty_r. auto 10.
  - destruct (parse u0) as [url|] eqn:Hparse; [|discriminate].
    intros Hu Hq.
    assert (Hsame : RawQuery u = RawQuery url).
    { destruct (isEmpty f); [injection Hu as <-; reflexivity|].
      unfold setFragment in Hu. destruct (unescape f encodeFragment); [|discriminate].
      injection Hu as <-. reflexivity. }
    rewrite Hsame in Hq |- *.
    destruct (parse_RawQuery u0 url Hparse Hq) as (sch & rest & before & Hsch & Hrest & Hb).
    assert (Hshape : exists pre, u0 = pre +:+ String "?" (RawQuery url)
                                 /\ inBytes "?" pre = false).
    { destruct (getScheme_spec _ _ _ Hsch) as [[_ Hr]|[Hr Hs']].
      - exists before. rewrite <- Hr, Hrest. auto.
      - exists (sch +:+ String ":" before). split.
        + rewrite Hr, Hrest, append_assoc. reflexivity.
        + rewrite inBytes_app. cbn [inBytes]. rewrite Hb.
          destruct (inBytes "?" sch) eqn:E; [|reflexivity].
          specialize (Hs' _ E). discriminate Hs'. }
    destruct Hshape as (pre & Hu0 & Hpre). exists pre, (String "#" f).
    rewrite Hu0, inBytes_app in Hno. cbn [inBytes] in Hno.
    apply orb_false_iff in Hno as [Hno1 Hno2]. apply orb_false_iff in Hno2 as [_ Hno2].
    split; [rewrite Hs, Hu0, !append_assoc; reflexivity|]. eauto 10.
Qed.

(** X13.  The value of the only-query mode.  When [processLine] gives a
    value in this mode, the trimmed line is some text without question
    mark or hash, a question mark, the value, and then nothing or a hash
    and the fragment: the value is what stands between the first question
    mark and the first hash, it is not empty, and it is neither decoded
    nor cut into pairs. *)
Theorem processLine_only_query (r : Runner) (line v : string) :
  OnlyQuery (cfg r) = true ->
  In v (processLine r line) ->
  processLine r line = [v]
  /\ v <> ""
  /\ exists pre frag,
       TrimSpace line = pre +:+ String "?" v +:+ frag
       /\ inBytes "?" pre = false /\ inBytes "#" pre = false
       /\ inBytes "#" v = false
       /\ (frag = "" \/ exists f, frag = String "#" f).
Proof.
  intros Hmode. unfold processLine. cbn zeta. rewrite Hmode.
  destruct (String.eqb (TrimSpace line) ""); [contradiction|].
  destruct (extFiltered r _); [contradiction|].
  destruct (Parse (TrimSpace line)) as [u|] eqn:Hparse; [|contradiction].
  destruct (String.eqb_spec (RawQuery u) "") as [Hq|Hq]; unfold nonEmpty.
  - rewrite Hq. contradiction.
  - rewrite (eqb_empty_false _ Hq). cbn [negb]. intros [<-|[]].
    split; [reflexivity|]. split; [exact Hq|].
    apply (Parse_RawQuery _ _ Hparse Hq).
Qed.

Lemma processLine_only_query_witness :
  processLine (NewRunner (withQueryModes (defaultConfig "h") true false false) false)
              " http://h/p?a=1&b=%20?#top " = ["a=1&b=%20?"]
  /\ exists pre frag,
       TrimSpace " http://h/p?a=1&b=%20?#top " = pre +:+ String "?" "a=1&b=%20?" +:+ frag
       /\ inBytes "?" pre = false.
Proof.
  destruct (processLine_only_query
              (NewRunner (withQueryModes (defaultConfig "h") true false false) false)
              " http://h/p?a=1&b=%20?#top " "a=1&b=%20?" eq_refl
              ltac:(vm_compute; left; reflexivity))
    as (Hval & _ & pre & frag & Hline & Hpre & _).
  split; [exact Hval|]. exists pre, frag. split; [exact Hline | exact Hpre].
Defined.

(** ** [processConcurrently] *)

Lemma concStart_inv r lines workers :
  ConcInv r lines (processConcurrently_start lines workers).
Proof.
  split; cbn [processConcurrently_start feeder cworkers results out returned feederTodo].
  - rewrite workerAhead_replicate. reflexivity.
  - intros i Hi. apply lookup_replicate in Hi as [Hi _]. discriminate.
  - discriminate.
  - discriminate.
Qed.

Lemma returned_workers_insert (ws : list Worker) i :
  forallb (fun w => if w is WReturned then true else false) (<[i := WReturned]> ws) = true ->
  forall j w, ws !! j = Some w -> j <> i -> w = WReturned.
Proof.
  intros Hall j w Hj Hne.
  assert (Hj' : <[i := WReturned]> ws !! j = Some w)
    by (rewrite list_lookup_insert_ne by congruence; exact Hj).
  pose proof (forallb_lookup _ _ _ _ Hall Hj') as Hw.
  destruct w; try discriminate. reflexivity.
Qed.

Lemma concStep_inv r cap lines a st st' :
  ConcInv r lines st -> concStep r cap a st = Some st' -> ConcInv r lines st'.
Proof.
  intros [Hval Hret Hdone Hend] Hstep.
  destruct a as [i| |i| | |]; cbn in Hstep.
  - destruct (feeder st) as [[|l todo]| |] eqn:Hf; try discriminate.
    destruct (cworkers st !! i) as [[| |]|] eqn:Hi; try discriminate.
    injection Hstep as <-.
    destruct (insert_split _ _ _ (WSend (processLine r l)) Hi) as (l1 & l2 & Hl & Hins).
    split; cbn [feeder cworkers results out returned feederTodo].
    + rewrite <- Hval, Hins, Hl. cbn [feederTodo flat_map].
      rewrite !flat_map_app. cbn [flat_map workerAhead]. solve_Permutation.
    + intros j Hj. apply worker_returned_insert in Hj; [|discriminate].
      intros todo' _. apply (Hret j Hj (l :: todo)). reflexivity.
    + discriminate.
    + intros Hr. destruct (Hend Hr) as [Hx _]. discriminate.
  - destruct (feeder st) as [[|l todo]| |] eqn:Hf; try discriminate.
    injection Hstep as <-.
    split; cbn [setFeeder feeder cworkers results out returned feederTodo].
    + exact Hval.
    + discriminate.
    + discriminate.
    + intros Hr. destruct (Hend Hr) as [Hx _]. discriminate.
  - destruct (cworkers st !! i) as [[|[|x todo]|]|] eqn:Hi; try discriminate.
    + destruct (feeder st) as [todo| |] eqn:Hf; [discriminate| |];
        injection Hstep as <-;
        destruct (insert_split _ _ _ WReturned Hi) as (l1 & l2 & Hl & Hins);
        split; cbn [setCWorker feeder cworkers results out returned feederTodo];
        rewrite ?Hf.
      * rewrite <- Hval, Hins, Hl, ?Hf. rewrite !flat_map_app. reflexivity.
      * discriminate.
      * discriminate.
      * intros Hr. destruct (Hend Hr) as [Hx _]. congruence.
      * rewrite <- Hval, Hins, Hl, ?Hf. rewrite !flat_map_app. reflexivity.
      * discriminate.
      * intros _. specialize (Hdone eq_refl).
        pose proof (forallb_lookup _ _ _ _ Hdone Hi). discriminate.
      * exact Hend.
    + injection Hstep as <-.
      destruct (insert_split _ _ _ WReceive Hi) as (l1 & l2 & Hl & Hins).
      split; cbn [setCWorker feeder cworkers results out returned feederTodo].
      * rewrite <- Hval, Hins, Hl. rewrite !flat_map_app. reflexivity.
      * intros j Hj. apply worker_returned_insert in Hj; [|discriminate].
        exact (Hret j Hj).
      * intros Hf. specialize (Hdone Hf).
        pose proof (forallb_lookup _ _ _ _ Hdone Hi). discriminate.
      * exact Hend.
    + destruct (resultsRoom cap (results st)); [|discriminate].
      injection Hstep as <-.
      destruct (insert_split _ _ _ (WSend todo) Hi) as (l1 & l2 & Hl & Hins).
      split; cbn [feeder cworkers results out returned feederTodo].
      * rewrite <- Hval, Hins, Hl. rewrite !flat_map_app. cbn [flat_map workerAhead].
        solve_Permutation.
      * intros j Hj. apply worker_returned_insert in Hj; [|discriminate].
        exact (Hret j Hj).
      * intros Hf. specialize (Hdone Hf).
        pose proof (forallb_lookup _ _ _ _ Hdone Hi). discriminate.
      * intros Hr. destruct (Hend Hr) as [Hf _]. specialize (Hdone Hf).
        pose proof (forallb_lookup _ _ _ _ Hdone Hi). discriminate.
  - destruct (feeder st) eqn:Hf; try discriminate.
    destruct (forallb _ (cworkers st)) eqn:Hall; [|discriminate].
    injection Hstep as <-.
    split; cbn [setFeeder feeder cworkers results out returned feederTodo].
    + rewrite <- Hval, ?Hf. reflexivity.
    + discriminate.
    + intros _. exact Hall.
    + intros Hr. destruct (Hend Hr) as [Hx _]. congruence.
  - destruct (returned st) eqn:Hr; [discriminate|].
    destruct (results st) as [|x rest] eqn:Hres; [discriminate|].
    injection Hstep as <-.
    split; cbn [feeder cworkers results out returned feederTodo];
      [rewrite <- Hval; solve_Permutation | exact Hret | exact Hdone | discriminate].
  - destruct (feeder st) eqn:Hf; try discriminate.
    destruct (results st) eqn:Hres; [|discriminate].
    destruct (returned st) eqn:Hr; [discriminate|].
    injection Hstep as <-.
    split; cbn [feeder cworkers results out returned feederTodo];
      [rewrite <- Hval; reflexivity | intros; discriminate
      | intros _; exact (Hdone eq_refl) | auto].
Qed.

Lemma concRun_inv r cap lines acts st st' :
  ConcInv r lines st -> concRun r cap acts st = Some st' -> ConcInv r lines st'.
Proof.
  revert st; induction acts as [|a acts IH]; intros st Hinv; cbn.
  - intros [= <-]. exact Hinv.
  - destruct (concStep r cap a st) as [st1|] eqn:Hstep; [|discriminate].
    apply IH. eapply concStep_inv; eauto.
Qed.

Lemma concStep_left r cap a st st' :
  concStep r cap a st = Some st' -> S (concLeft r st') = concLeft r st.
Proof.
  intros Hstep. unfold concLeft.
  destruct a as [i| |i| | |]; cbn in Hstep.
  - destruct (feeder st) as [[|l todo]| |] eqn:Hf; try discriminate.
    destruct (cworkers st !! i) as [[| |]|] eqn:Hi; try discriminate.
    injection Hstep as <-. cbn [feeder cworkers results out returned].
    pose proof (sum_list_with_insert cworkerCost _ i _ (WSend (processLine r l)) Hi)
      as Hsum.
    cbn [feederCost sum_list_with cworkerCost] in Hsum |- *. lia.
  - destruct (feeder st) as [[|l todo]| |] eqn:Hf; try discriminate.
    injection Hstep as <-. cbn. lia.
  - destruct (cworkers st !! i) as [[|[|x todo]|]|] eqn:Hi; try discriminate.
    + destruct (feeder st) as [todo| |] eqn:Hf; [discriminate| |];
        injection Hstep as <-;
        cbn [setCWorker feeder cworkers results out returned]; rewrite ?Hf;
        pose proof (sum_list_with_insert cworkerCost _ i _ WReturned Hi) as Hsum;
        cbn [cworkerCost] in Hsum; lia.
    + injection Hstep as <-. cbn [setCWorker feeder cworkers results out returned].
      pose proof (sum_list_with_insert cworkerCost _ i _ WReceive Hi) as Hsum.
      cbn [cworkerCost length] in Hsum. lia.
    + destruct (resultsRoom cap (results st)); [|discriminate].
      injection Hstep as <-. cbn [feeder cworkers results out returned].
      pose proof (sum_list_with_insert cworkerCost _ i _ (WSend todo) Hi) as Hsum.
      cbn [cworkerCost length] in Hsum. rewrite length_app. cbn [length]. lia.
  - destruct (feeder st) eqn:Hf; try discriminate.
    destruct (forallb _ (cworkers st)); [|discriminate].
    injection Hstep as <-. cbn. lia.
  - destruct (returned st) eqn:Hr; [discriminate|].
    destruct (results st) as [|x rest] eqn:Hres; [discriminate|].
    injection Hstep as <-. cbn. lia.
  - destruct (feeder st) eqn:Hf; try discriminate.
    destruct (results st) eqn:Hres; [|discriminate].
    destruct (returned st) eqn:Hr; [discriminate|].
    injection Hstep as <-. cbn. lia.
Qed.

Lemma concRun_length r cap acts st st' :
  concRun r cap acts st = Some st' ->
  (length acts + concLeft r st' = concLeft r st)%nat.
Proof.
  revert st; induction acts as [|a acts IH]; intros st; cbn.
  - intros [= <-]. reflexivity.
  - destruct (concStep r cap a st) as [st1|] eqn:Hstep; [|discriminate].
    intros Hrun. pose proof (concStep_left _ _ _ _ _ Hstep).
    pose proof (IH st1 Hrun). lia.
Qed.

Lemma concRun_workers r cap acts st st' :
  concRun r cap acts st = Some st' -> length (cworkers st') = length (cworkers st).
Proof.
  revert st; induction acts as [|a acts IH]; intros st; cbn.
  - intros [= <-]. reflexivity.
  - destruct (concStep r cap a st) as [st1|] eqn:Hstep; [|discriminate].
    intros Hrun. rewrite (IH st1 Hrun). clear -Hstep.
    destruct a as [i| |i| | |]; cbn in Hstep;
      repeat match type of Hstep with
             | context [match ?x with _ => _ end] => destruct x
             end;
      try discriminate; injection Hstep as <-; cbn; rewrite ?length_insert; reflexivity.
Qed.

Lemma resultsRoom_empty cap : resultsRoom cap [] = true.
Proof. unfold resultsRoom. destruct cap; reflexivity. Qed.

Lemma conc_no_deadlock r cap lines st :
  ConcInv r lines st -> (0 < length (cworkers st))%nat -> returned st = false ->
  exists a st', concStep r cap a st = Some st'.
Proof.
  intros [Hval Hret Hdone Hend] Hws Hr.
  destruct (results st) as [|x rest] eqn:Hres.
  2: { exists Collect. eexists. cbn. rewrite Hr, Hres. reflexivity. }
  destruct (forallb idleWorker (cworkers st)) eqn:Hidle.
  - assert (Hfirst : exists w0, cworkers st !! O = Some w0).
    { destruct (cworkers st) as [|w0 ws]; [cbn in Hws; lia | eauto]. }
    destruct Hfirst as [w0 Hw0].
    destruct (feeder st) as [[|l todo]| |] eqn:Hf.
    + exists CloseJobsC. eexists. cbn. rewrite Hf. reflexivity.
    + assert (Hrecv : w0 = WReceive).
      { pose proof (forallb_lookup _ _ _ _ Hidle Hw0) as Hwi.
        destruct w0; try discriminate; [reflexivity|].
        destruct (Hret O Hw0 (l :: todo)). reflexivity. }
      subst w0. exists (Hand 0). eexists. cbn. rewrite Hf, Hw0. reflexivity.
    + destruct (forallb (fun w => if w is WReturned then true else false) (cworkers st))
        eqn:Hall.
      * exists CloseResultsC. eexists. cbn. rewrite Hf, Hall. reflexivity.
      * destruct (forallb_false_lookup _ _ Hall) as (i & w & Hi & Hnot).
        pose proof (forallb_lookup _ _ _ _ Hidle Hi) as Hwi.
        destruct w; try discriminate.
        exists (WorkC i). eexists. cbn. rewrite Hi, Hf. reflexivity.
    + exists Return. eexists. cbn. rewrite Hf, Hres, Hr. reflexivity.
  - destruct (forallb_false_lookup _ _ Hidle) as (i & w & Hi & Hbusy).
    exists (WorkC i). destruct w as [|[|y todo]|]; try discriminate.
    + eexists. cbn. rewrite Hi. reflexivity.
    + eexists. cbn. rewrite Hi, Hres, resultsRoom_empty. reflexivity.
Qed.

Lemma concLeft_done r lines st :
  ConcInv r lines st -> returned st = true ->
  concLeft r st = O /\ out st ≡ₚ flat_map (processLine r) lines.
Proof.
  intros [Hval Hret Hdone Hend] Hr. destruct (Hend Hr) as [Hf Hres].
  specialize (Hdone Hf).
  rewrite Hres, Hf, (workerAhead_returned _ Hdone) in Hval.
  cbn in Hval. rewrite app_nil_r in Hval. split; [|exact Hval].
  unfold concLeft. rewrite Hf, Hres, Hr. cbn.
  clear -Hdone. induction (cworkers st) as [|w ws IHws]; [reflexivity|].
  cbn in Hdone. apply andb_true_iff in Hdone as [Hw0 Hws].
  destruct w; try discriminate. cbn. rewrite (IHws Hws). reflexivity.
Qed.

Lemma conc_can_finish r cap lines st :
  ConcInv r lines st -> (0 < length (cworkers st))%nat ->
  exists acts st', concRun r cap acts st = Some st'
                   /\ returned st' = true
                   /\ length acts = concLeft r st.
Proof.
  remember (concLeft r st) as n eqn:Hn.
  revert st Hn; induction n as [|n IH]; intros st Hn Hinv Hws.
  - destruct (returned st) eqn:Hr.
    + exists [], st. auto.
    + destruct (conc_no_deadlock r cap lines st Hinv Hws Hr) as (a & st' & Hstep).
      pose proof (concStep_left _ _ _ _ _ Hstep). lia.
  - destruct (returned st) eqn:Hr.
    + destruct (concLeft_done _ _ _ Hinv Hr) as [Hzero _]. lia.
    + destruct (conc_no_deadlock r cap lines st Hinv Hws Hr) as (a & st1 & Hstep).
      pose proof (concStep_left _ _ _ _ _ Hstep) as Hdec.
      destruct (IH st1) as (acts & st' & Hrun & Hd & Hlen);
        [lia | eapply concStep_inv; eauto | |].
      * rewrite (concRun_workers r cap [a] st st1); [exact Hws|].
        cbn. rewrite Hstep. reflexivity.
      * exists (a :: acts), st'. cbn. rewrite Hstep. auto.
Qed.

(** Without a worker no goroutine can take a step while there is a line
    to hand over. *)
Lemma conc_no_worker r cap lines workers a :
  workers <= 0 -> lines <> [] ->
  concStep r cap a (processConcurrently_start lines workers) = None.
Proof.
  intros Hw Hlines. unfold processConcurrently_start.
  replace (Z.to_nat workers) with O by lia.
  destruct lines as [|l lines]; [contradiction|].
  destruct a as [i| |i| | |]; try reflexivity; destruct i; reflexivity.
Qed.

(** X14.  [processConcurrently], in every interleaving of its goroutines.
    When it returns, the result holds, up to the order, the values that the
    loop body gives for the lines.  With one worker or more it is never
    stuck before it returns, every run can be carried on until it does, and
    the steps of a complete run are as many as [concLeft] of the start
    says.  Without a worker and with a line to process no goroutine can
    take a step: the call never returns. *)
Theorem processConcurrently_result (lines : list string) (workers : Z)
        (extRegex : option Regexp) (includeMode onlyQuery onlyQueryKeys noQuery : bool)
        (acts : list ConcAction) (st : Conc) :
  let r := workerRunner extRegex includeMode onlyQuery onlyQueryKeys noQuery in
  processConcurrently_run lines workers r acts = Some st ->
  (returned st = true -> out st ≡ₚ flat_map (processLine r) lines)
  /\ (0 < workers ->
      (returned st = false -> exists a st', concStep r (length lines) a st = Some st')
      /\ exists acts' st',
           concRun r (length lines) acts' st = Some st'
           /\ returned st' = true
           /\ (length acts + length acts'
               = concLeft r (processConcurrently_start lines workers))%nat)
  /\ (workers <= 0 -> lines <> [] -> acts = [] /\ returned st = false).
Proof.
  cbn zeta. set (r := workerRunner extRegex includeMode onlyQuery onlyQueryKeys noQuery).
  unfold processConcurrently_run. intros Hrun.
  pose proof (concRun_inv _ _ _ _ _ _ (concStart_inv r lines workers) Hrun) as Hinv.
  split; [|split].
  - intros Hr. apply (concLeft_done _ _ _ Hinv Hr).
  - intros Hw.
    assert (Hws : (0 < length (cworkers st))%nat).
    { rewrite (concRun_workers _ _ _ _ _ Hrun). cbn. rewrite length_replicate. lia. }
    split; [intros Hr; eapply conc_no_deadlock; eauto|].
    destruct (conc_can_finish r (length lines) lines st Hinv Hws)
      as (acts' & st' & Hrun' & Hdone & Hlen).
    exists acts', st'. split; [exact Hrun'|]. split; [exact Hdone|].
    pose proof (concRun_length _ _ _ _ _ Hrun). lia.
  - intros Hw Hlines. destruct acts as [|a acts].
    + injection Hrun as <-. split; reflexivity.
    + exfalso. cbn [concRun] in Hrun.
      rewrite (conc_no_worker r _ lines workers a Hw Hlines) in Hrun. discriminate.
Qed.

Lemma processConcurrently_result_witness :
  exists st,
    processConcurrently_run ["http://h/a?x=1&y=2"; " "; "http://h/b?z"] 2
      (workerRunner None false false true false) concSchedule = Some st
    /\ returned st = true /\ out st = ["x"; "y"; "z"]
    /\ out st ≡ₚ flat_map (processLine (workerRunner None false false true false))
                   ["http://h/a?x=1&y=2"; " "; "http://h/b?z"].
Proof.
  eexists. split; [vm_compute; reflexivity|]. split; [reflexivity|].
  split; [reflexivity|].
  exact (proj1 (processConcurrently_result
                  ["http://h/a?x=1&y=2"; " "; "http://h/b?z"] 2 None false false true false
                  concSchedule _ ltac:(vm_compute; reflexivity)) eq_refl).
Defined.

(** ** The subdomain mode from the pattern to the lines *)

Section SubdomainMode.
Context `{CaseTables}.

(** X15.  The subdomain mode, from the [-u] pattern to the written lines,
    for a pattern that is an optional scheme, a host name and nothing more
    or a path or port.  The archive is asked for the wild-card label
    followed by the host name.  Every line written is the lower-cased host
    of a result, differs from the lower-cased host name and ends in a dot
    followed by it; no line is written twice.  The label in front may be
    empty: the host [.example.com] is written for the pattern
    [example.com]. *)
Theorem subdomain_mode_lines (c : Config) (excludeProvided : bool)
        (scheme h p : string) (resultsCh : list string) :
  URLPattern c = scheme +:+ h +:+ p ->
  In scheme [""; "http://"; "https://"] -> hostName h -> pathOrPort p ->
  HasPrefix p "://" = false -> inBytes "*" p = false ->
  Subs c = true ->
  let r := NewRunner c excludeProvided in
  normalizeURLForCDX (URLPattern c) (Subs c) = "*." +:+ h
  /\ Forall (fun host =>
               host <> ToLower h
               /\ (exists label, host = label +:+ "." +:+ ToLower h)
               /\ exists res u, In res resultsCh /\ Parse res = Some u
                    /\ host = ToLower (TrimSpace (stripPort (Host u))))
            (startPrinter r resultsCh)
  /\ NoDup (startPrinter r resultsCh).
Proof.
  intros Hu Hs Hh Hp Hno Hstar Hsubs. cbn zeta.
  destruct (NewRunner_fields c excludeProvided) as [Hcfg Hbase].
  rewrite (NormalizeBaseDomain_usual c scheme h p Hu Hs Hh Hp Hno Hstar) in Hbase.
  split; [|split].
  - rewrite Hsubs, Hu. apply (normalizeURLForCDX_usual scheme h p Hs Hh Hp Hno).
  - apply Forall_forall. intros host Hin.
    rewrite startPrinter_keys, firstOccurrences_elem in Hin.
    unfold sinkKeys in Hin. rewrite Hcfg, Hsubs, Hbase in Hin.
    destruct Hh as [Hne _]. rewrite (eqb_empty_false _ Hne) in Hin.
    apply list_elem_of_omap in Hin as (res & Hres & Hsub).
    apply subdomainOf_spec in Hsub as (u & Hparse & Hhost & _ & Hneq & Hlabel).
    split; [exact Hneq|]. split; [exact Hlabel|].
    exists res, u. split; [apply list_elem_of_In; exact Hres | auto].
  - rewrite startPrinter_keys. apply firstOccurrences_NoDup.
Qed.

End SubdomainMode.

Lemma subdomain_mode_lines_witness :
  normalizeURLForCDX "https://example.com/x" true = "*.example.com"
  /\ startPrinter (H := asciiOnly)
       (NewRunner (withSinkModes (defaultConfig "https://example.com/x") false true) false)
       ["http://.example.com/"; "http://a.example.com:80/p"; "http://b.a.Example.COM";
        "http://example.com/"; "http://notexample.com/"; "http://A.example.com"]
     = [".example.com"; "a.example.com"; "b.a.example.com"]
  /\ Forall (fun host => host <> "example.com")
       (startPrinter (H := asciiOnly)
          (NewRunner (withSinkModes (defaultConfig "https://example.com/x") false true)
                     false)
          ["http://.example.com/"; "http://a.example.com:80/p"; "http://b.a.Example.COM";
           "http://example.com/"; "http://notexample.com/"; "http://A.example.com"]).
Proof.
  assert (Hhost : hostName "example.com").
  { split; [discriminate|]. split; [|reflexivity].
    intros c Hc. cbn [inBytes] in Hc.
    repeat match type of Hc with
           | (Ascii.eqb c ?x || _) = true =>
               apply orb_true_iff in Hc as [Hc|Hc];
               [apply Ascii.eqb_eq in Hc; subst c; reflexivity|]
           end.
    discriminate. }
  destruct (subdomain_mode_lines (H := asciiOnly)
              (withSinkModes (defaultConfig "https://example.com/x") false true) false
              "https://" "example.com" "/x"
              ["http://.example.com/"; "http://a.example.com:80/p";
               "http://b.a.Example.COM"; "http://example.com/";
               "http://notexample.com/"; "http://A.example.com"]
              eq_refl ltac:(cbn; auto) Hhost
              ltac:(right; exists "/"%char, "x"; split; reflexivity)
              eq_refl eq_refl eq_refl)
    as (Hquery & Hall & _).
  split; [exact Hquery|]. split; [vm_compute; reflexivity|].
  eapply Forall_impl; [exact Hall|]. intros host (Hneq & _). exact Hneq.
Defined.

(** ** What the fetchers report *)

Lemma poolStep_totalLog pages net a s s' :
  PoolInv pages s -> poolStep Background pages net a s = Some s' ->
  totalLog pages net s' ≡ₚ totalLog pages net s.
Proof.
  intros [Hc Hn Hcl Hp Hk Hr Hf] Hstep. unfold totalLog.
  destruct a as [| | |i]; cbn in Hstep.
  - destruct (Z.ltb_spec (nextPage s) pages); [|discriminate].
    destruct (closed s); [discriminate|]. injection Hstep as <-.
    cbn [logged pageJobs fetchers nextPage].
    rewrite (seqZ_cons (nextPage s) (pages - nextPage s)) by lia.
    replace (Z.succ (nextPage s)) with (nextPage s + 1) by lia.
    replace (Z.pred (pages - nextPage s)) with (pages - (nextPage s + 1)) by lia.
    rewrite !flat_map_app. cbn [flat_map]. rewrite app_nil_r. solve_Permutation.
  - destruct (Z.leb_spec pages (nextPage s)); [|discriminate].
    destruct (closed s); [discriminate|]. injection Hstep as <-. reflexivity.
  - discriminate.
  - destruct (fetchers s !! i) as [f|] eqn:Hi; [|discriminate].
    destruct f as [|p|p todo err|]; cbn in Hstep.
    + destruct (pageJobs s) as [|p rest] eqn:Hjobs.
      * destruct (closed s); [|discriminate]. injection Hstep as <-.
        destruct (fetchers_split _ _ _ FReturned Hi) as (l1 & l2 & Hfs & Hins).
        cbn [setFetcher logged pageJobs fetchers nextPage].
        rewrite Hjobs, Hins, Hfs, !flat_map_app. reflexivity.
      * injection Hstep as <-.
        destruct (fetchers_split _ _ _ (FPage p) Hi) as (l1 & l2 & Hfs & Hins).
        cbn [logged pageJobs fetchers nextPage].
        rewrite Hins, Hfs, !flat_map_app. cbn [flat_map logAhead]. solve_Permutation.
    + rewrite Hc in Hstep.
      destruct (fst (fetchWithRetry (net p) true)) as [[respP|] [ierr|]] eqn:Hfetch;
        injection Hstep as <-.
      all: cbn [countPage setFetcher logged pageJobs fetchers nextPage].
      all: match goal with
           | |- context [<[_ := ?f']> _] =>
               destruct (fetchers_split _ _ _ f' Hi) as (l1 & l2 & Hfs & Hins)
           end.
      all: rewrite Hins, Hfs, !flat_map_app; cbn [flat_map logAhead];
        unfold pageLog, pageEnd; rewrite Hfetch; solve_Permutation.
    + destruct todo as [|[text e] todo]; injection Hstep as <-.
      * destruct (fetchers_split _ _ _ FReceive Hi) as (l1 & l2 & Hfs & Hins).
        cbn [countPage logged pageJobs fetchers nextPage].
        rewrite Hins, Hfs, !flat_map_app. cbn [flat_map logAhead]. solve_Permutation.
      * destruct (fetchers_split _ _ _ (FScan p todo err) Hi) as (l1 & l2 & Hfs & Hins).
        cbn [logged pageJobs fetchers nextPage].
        rewrite Hins, Hfs, !flat_map_app. reflexivity.
    + discriminate.
Qed.

Lemma poolRun_totalLog pages net acts s s' :
  PoolInv pages s -> poolRun Background pages net acts s = Some s' ->
  totalLog pages net s' ≡ₚ totalLog pages net s.
Proof.
  revert s; induction acts as [|a acts IH]; intros s Hinv; cbn.
  - intros [= <-]. reflexivity.
  - destruct (poolStep Background pages net a s) as [s1|] eqn:Hstep; [|discriminate].
    intros Hrun. rewrite (IH s1 (poolStep_inv _ _ _ _ _ Hinv Hstep) Hrun).
    eapply poolStep_totalLog; eauto.
Qed.

Lemma logAhead_returned net (fs : list Fetcher) :
  forallb (fun f => if f is FReturned then true else false) fs = true ->
  flat_map (logAhead net) fs = [].
Proof.
  induction fs as [|f fs IH]; [reflexivity|].
  cbn. intros [Hf Hfs]%andb_true_iff. destruct f; try discriminate.
  cbn. apply IH. exact Hfs.
Qed.

Lemma logAhead_replicate net n : flat_map (logAhead net) (replicate n FReceive) = [].
Proof. induction n as [|n IH]; [reflexivity | exact IH]. Qed.

Lemma logOf_app (l1 l2 : list Event) : logOf (l1 ++ l2) = logOf l1 ++ logOf l2.
Proof. apply omap_app. Qed.

Lemma logOf_afterFailure k res hasCounter :
  logOf (afterFailure k res hasCounter) = [WarnRetry (doErr res)].
Proof.
  unfold afterFailure. rewrite !logOf_app.
  destruct (doResp res), hasCounter; reflexivity.
Qed.

Lemma retry_loop_log net hasCounter todo a ierr :
  logOf (snd (retry_loop net hasCounter todo a ierr)) = retryWarnings net todo a.
Proof.
  revert a ierr; induction todo as [|todo IH]; intros a ierr; [reflexivity|].
  cbn [retry_loop retryWarnings]. destruct (net a) as [err|res]; [reflexivity|].
  destruct (attemptOK res) as [resp|]; [reflexivity|].
  specialize (IH (a + 1) (doErr res)).
  destruct (retry_loop net hasCounter todo (a + 1) (doErr res)) as [out evs].
  cbn [snd] in *. change (EvDo a :: afterFailure a res hasCounter ++ evs)
    with ([EvDo a] ++ afterFailure a res hasCounter ++ evs).
  rewrite !logOf_app, logOf_afterFailure, IH. reflexivity.
Qed.

Lemma retryWarnings_short net todo a : (length (retryWarnings net todo a) <= todo)%nat.
Proof.
  revert a; induction todo as [|todo IH]; intros a; [reflexivity|].
  cbn. destruct (net a) as [err|res]; [cbn; lia|].
  destruct (attemptOK res); cbn; [lia|]. specialize (IH (a + 1)). lia.
Qed.

Lemma retryWarnings_warnings net todo a :
  forallb isRetryWarning (retryWarnings net todo a) = true.
Proof.
  revert a; induction todo as [|todo IH]; intros a; [reflexivity|].
  cbn. destruct (net a) as [err|res]; [reflexivity|].
  destruct (attemptOK res); [reflexivity|]. cbn. apply IH.
Qed.

Lemma retryLog_warnings net p :
  retryLog net p = retryWarnings (net p) 3 1.
Proof. unfold retryLog, fetchWithRetry. apply retry_loop_log. Qed.

Lemma pageEnd_short net p :
  (length (pageEnd net p) <= 1)%nat
  /\ forallb (fun msg => negb (isRetryWarning msg)) (pageEnd net p) = true.
Proof.
  unfold pageEnd.
  destruct (fst (fetchWithRetry (net p) true)) as [[respP|] [ierr|]]; cbn; auto.
  destruct (finalErr (Body respP)); cbn; auto.
Qed.

Lemma filter_none {A} (f g : A -> bool) (l : list A) :
  (forall x, g x = true -> f x = false) ->
  forallb g l = true -> List.filter f l = [].
Proof.
  intros Hfg. induction l as [|x l IH]; [reflexivity|].
  cbn. intros [Hx Hl]%andb_true_iff. rewrite (Hfg x Hx). auto.
Qed.

Lemma filter_every {A} (f : A -> bool) (l : list A) :
  forallb f l = true -> List.filter f l = l.
Proof.
  induction l as [|x l IH]; [reflexivity|].
  cbn. intros [-> Hl]%andb_true_iff. rewrite IH; auto.
Qed.

Lemma filter_Permutation_bool {A} (f : A -> bool) (l k : list A) :
  l ≡ₚ k -> List.filter f l ≡ₚ List.filter f k.
Proof.
  induction 1 as [|x l k _ IH|x y l|l k m _ IH1 _ IH2]; cbn.
  - reflexivity.
  - destruct (f x); [constructor|]; exact IH.
  - destruct (f x), (f y); try reflexivity. constructor.
  - etransitivity; eauto.
Qed.

(** The messages of the pages that are no retry warnings, and the retry
    warnings. *)
Lemma pageLog_ends net (ps : list Z) :
  List.filter (fun msg => negb (isRetryWarning msg)) (flat_map (pageLog net) ps)
  = flat_map (pageEnd net) ps.
Proof.
  induction ps as [|p ps IH]; [reflexivity|].
  cbn [flat_map]. unfold pageLog at 1. rewrite !List.filter_app, IH. f_equal.
  rewrite retryLog_warnings.
  rewrite (filter_none _ isRetryWarning), filter_every; [reflexivity| | |].
  - apply (pageEnd_short net p).
  - intros msg ->. reflexivity.
  - apply retryWarnings_warnings.
Qed.

Lemma pageLog_retries net (ps : list Z) :
  List.filter isRetryWarning (flat_map (pageLog net) ps)
  = flat_map (fun p => retryWarnings (net p) 3 1) ps.
Proof.
  induction ps as [|p ps IH]; [reflexivity|].
  cbn [flat_map]. unfold pageLog at 1. rewrite !List.filter_app, IH. f_equal.
  rewrite retryLog_warnings, filter_every by apply retryWarnings_warnings.
  rewrite (filter_none _ (fun msg => negb (isRetryWarning msg))), app_nil_r;
    [reflexivity| |].
  - intros msg Hm. destruct (isRetryWarning msg); [discriminate | reflexivity].
  - apply (pageEnd_short net p).
Qed.

Lemma length_flat_map_bounded {A B} (f : A -> list B) (n : nat) (l : list A) :
  (forall x, (length (f x) <= n)%nat) -> (length (flat_map f l) <= n * length l)%nat.
Proof.
  intros Hf. induction l as [|x l IH]; [cbn; lia|].
  cbn [flat_map length]. rewrite length_app. specialize (Hf x). lia.
Qed.

(** X16.  What the fetchers log, in a run of the pool under the background
    context that has come to its end.  The log holds, up to the order, for
    every page the warnings of its call of [fetchWithRetry], which are one
    warning for every attempt that was sent and failed, with the error of
    that attempt, and then one error when the call gave no response, with
    the error of its last attempt, or one warning when the body broke off
    with a read error, or nothing more when the body was read to its end.
    So, the retry warnings apart, there is one message for a page at most
    and never more messages than pages counted; with the retry warnings
    there are four messages for a page at most, and a page with messages is
    counted like any other. *)
Theorem pool_reports_every_failure (c : Config) (pages : Z)
        (net : Z -> Z -> Attempt) (acts : list Action) (s0 s : Pool) :
  Run_pool c = Some s0 ->
  poolRun Background pages net acts s0 = Some s ->
  poolDone s = true ->
  logged s ≡ₚ flat_map (pageLog net) (seqZ 0 pages)
  /\ List.filter isRetryWarning (logged s)
     ≡ₚ flat_map (fun p => retryWarnings (net p) 3 1) (seqZ 0 pages)
  /\ List.filter (fun msg => negb (isRetryWarning msg)) (logged s)
     ≡ₚ flat_map (pageEnd net) (seqZ 0 pages)
  /\ (length (List.filter (fun msg => negb (isRetryWarning msg)) (logged s))
      <= length (counted s))%nat
  /\ (length (logged s) <= 4 * length (counted s))%nat.
Proof.
  intros Hstart Hrun Hdone.
  assert (Hs0 : s0 = startPool c).
  { unfold Run_pool in Hstart. destruct (PageWorkers c <? 0); congruence. }
  subst s0. pose proof (startPool_inv c pages) as Hinv0.
  pose proof (poolRun_inv _ _ _ _ _ Hinv0 Hrun) as Hinv.
  pose proof (poolRun_totalLog _ _ _ _ _ Hinv0 Hrun) as Hlog.
  destruct (pool_end pages s Hinv Hdone) as (Hjobs & Hnext & Hall).
  unfold totalLog in Hlog.
  rewrite Hjobs, (logAhead_returned net _ Hall), seqZ_nil in Hlog by lia.
  cbn [startPool logged pageJobs fetchers nextPage flat_map app] in Hlog.
  rewrite logAhead_replicate, !app_nil_r, Z.sub_0_r in Hlog. cbn [app] in Hlog.
  destruct Hinv as [_ _ _ Hp _ _ _].
  rewrite Hjobs, (inflight_returned _ Hall), !app_nil_r in Hp.
  assert (Hcount : length (counted s) = length (seqZ 0 pages)).
  { rewrite Hp, Hnext. unfold seqZ.
    replace (Z.to_nat (Z.max 0 pages)) with (Z.to_nat pages) by lia. reflexivity. }
  assert (Hends : List.filter (fun msg => negb (isRetryWarning msg)) (logged s)
                  ≡ₚ flat_map (pageEnd net) (seqZ 0 pages)).
  { rewrite <- pageLog_ends. apply filter_Permutation_bool. exact Hlog. }
  split; [exact Hlog|]. split; [|split; [exact Hends|split]].
  - rewrite <- pageLog_retries. apply filter_Permutation_bool. exact Hlog.
  - rewrite Hends, Hcount.
    pose proof (length_flat_map_bounded (pageEnd net) 1 (seqZ 0 pages)
                  (fun p => proj1 (pageEnd_short net p))). lia.
  - rewrite Hlog, Hcount. apply length_flat_map_bounded. intros p.
    unfold pageLog. rewrite length_app, retryLog_warnings.
    pose proof (retryWarnings_short (net p) 3 1).
    pose proof (proj1 (pageEnd_short net p)). lia.
Qed.

Lemma pool_reports_every_failure_witness :
  exists s,
    poolRun Background 2 brokenNet brokenSchedule (startPool twoFetchers) = Some s
    /\ logged s = [WarnRetry (Some "timeout"); WarnRetry (Some "timeout");
                   WarnRetry (Some "timeout"); ErrPage 0 (Some "timeout");
                   WarnRead 1 "unexpected EOF"]
    /\ jobs s = ["http://h/c"]
    /\ logged s ≡ₚ flat_map (pageLog brokenNet) (seqZ 0 2).
Proof.
  eexists. split; [vm_compute; reflexivity|]. split; [reflexivity|].
  split; [reflexivity|].
  exact (proj1 (pool_reports_every_failure twoFetchers 2 brokenNet brokenSchedule
                  (startPool twoFetchers) _ eq_refl
                  ltac:(vm_compute; reflexivity) ltac:(reflexivity))).
Defined.
